(** * The To-Do list application (script.js): model and verified properties

    The program is one JavaScript class, [TodoApp].  Its state is an array of
    task objects, a filter name, an edit marker and an id counter; every
    method mutates that state, writes it to [localStorage] as JSON and
    re-renders the page.

    The development has three parts.  Part I embeds the program: the
    fragment of JavaScript values the program touches ([JS]), the JSON text
    codec of the platform ([JSON]), a state-and-exception monad for method
    bodies ([Eff]), the class itself ([TodoApp]), what it shows on the page
    ([Views]) and its dialog and event handlers ([Page]).  Part II states
    and proves the properties of the specification, Part III further
    properties of the methods, the views and the handlers.

    Idealisations, all in the platform layer:
    - a string is a sequence of 8-bit code units (the Latin-1 range of the
      UTF-16 code units JavaScript uses);
    - a number is a mathematical integer, where JavaScript has a double:
      the two agree on the integers up to 2^53 in magnitude, on their
      decimal digits, and on adding one below 2^53; the properties that
      rest on the value of the counter or on the digits of an id state
      that range ([safe_integer], [increments_exactly]);
    - number literals with a fraction or an exponent, and [u] escapes
      above [00ff], are reported as unsupported by the parser rather than
      given a made-up meaning; every other text is parsed or rejected as
      the grammar of JSON has it ([parse_malformed]);
    - rendering, focus handling and the transient feedback banner are
      presentation only and are left out of the methods; what the page
      shows is computed apart ([Views]), and the confirmation dialog and
      the event handlers run over the instance in [Page]. *)

From Stdlib Require Import ZArith NArith Arith List String Ascii Bool Lia.
From Stdlib Require Import DecimalString DecimalFacts DecimalN.
Import ListNotations.

Local Open Scope string_scope.
Local Open Scope list_scope.
Local Open Scope Z_scope.

Set Warnings "-register-all".

(* ================================================================== *)
(** * Part I: the embedding *)
(* ================================================================== *)

(** ** JavaScript values *)

Module JS.

(** The values [JSON.parse] can produce.  An object is its member list in
    the order written; when a name occurs twice, reads see the last
    member, which is the value the parser's overwrite leaves behind. *)
Inductive value : Type :=
| Null
| Bool (b : bool)
| Num (n : Z)
| Str (s : string)
| Arr (elems : list value)
| Obj (members : list (string * value)).

(** [undefined] only ever shows up as the result of reading a property
    that is not there, so a property read returns an [option]. *)
Definition undefinable := option value.

(** ToBoolean. *)
Definition truthy (v : value) : bool :=
  match v with
  | Null => false
  | Bool b => b
  | Num n => negb (n =? 0)
  | Str s => negb (s =? "")%string
  | Arr _ | Obj _ => true
  end.

Definition truthy' (u : undefinable) : bool :=
  match u with Some v => truthy v | None => false end.

(** [typeof]. *)
Definition typeof (u : undefinable) : string :=
  match u with
  | None => "undefined"
  | Some Null => "object"
  | Some (Bool _) => "boolean"
  | Some (Num _) => "number"
  | Some (Str _) => "string"
  | Some (Arr _) | Some (Obj _) => "object"
  end.

(** [u || d]. *)
Definition or_else (u : undefinable) (d : value) : value :=
  match u with
  | Some v => if truthy v then v else d
  | None => d
  end.

(** Own-property lookup in a member list: the last member named [k]. *)
Fixpoint lookup (k : string) (ms : list (string * value)) : undefinable :=
  match ms with
  | [] => None
  | (k', v) :: ms' =>
      match lookup k ms' with
      | Some w => Some w
      | None => if (k' =? k)%string then Some v else None
      end
  end.

(** [v.k] for a value that is not [null].  The program reads only the
    names [tasks], [taskIdCounter], [text], [id] and [completed]; none of
    them is an inherited property of a string, number, boolean or array,
    so only objects answer. *)
Definition prop (v : value) (k : string) : undefinable :=
  match v with
  | Obj ms => lookup k ms
  | _ => None
  end.

Definition has_key (k : string) (ms : list (string * value)) : bool :=
  existsb (fun m => (fst m =? k)%string) ms.

(** [o.k = v]: an existing name keeps its place, a new one goes last. *)
Definition assign (k : string) (v : value) (ms : list (string * value))
  : list (string * value) :=
  if has_key k ms
  then map (fun m => if (fst m =? k)%string then (k, v) else m) ms
  else ms ++ [(k, v)].

(** [u === n] for a number [n]. *)
Definition strict_eq_num (u : undefinable) (n : Z) : bool :=
  match u with
  | Some (Num m) => m =? n
  | _ => false
  end.

(** *** Numbers *)

(** A number is held as a mathematical integer.  JavaScript holds it as a
    double, and the two agree on the integers up to 2^53 in magnitude:
    each of these is a double, is printed as its decimal digits, and is
    read back from them exactly.  [n + 1] is exact for [n] from -2^53 to
    2^53 - 1; at 2^53 the double sum is 2^53 again.  Properties that rest
    on the value of a sum or on the digits of a number state the range. *)
Definition safe_integer (n : Z) : Prop := Z.abs n <= 2 ^ 53.

Definition increments_exactly (n : Z) : Prop := - 2 ^ 53 <= n < 2 ^ 53.

(** *** String methods *)

Definition code (c : ascii) : nat := nat_of_ascii c.

(** WhiteSpace and LineTerminator code units below 256. *)
Definition is_space (c : ascii) : bool :=
  let n := code c in
  ((9 <=? n) && (n <=? 13) || (n =? 32) || (n =? 160))%nat.

Definition lower_char (c : ascii) : ascii :=
  let n := code c in
  if ((65 <=? n) && (n <=? 90))%nat then ascii_of_nat (n + 32)
  else if ((192 <=? n) && (n <=? 222) && negb (n =? 215))%nat
       then ascii_of_nat (n + 32)
       else c.

(** [s.toLowerCase()]. *)
Fixpoint toLowerCase (s : string) : string :=
  match s with
  | EmptyString => EmptyString
  | String c r => String (lower_char c) (toLowerCase r)
  end.

Fixpoint trimStart (s : string) : string :=
  match s with
  | EmptyString => EmptyString
  | String c r => if is_space c then trimStart r else s
  end.

Fixpoint trimEnd (s : string) : string :=
  match s with
  | EmptyString => EmptyString
  | String c r =>
      match trimEnd r with
      | EmptyString => if is_space c then EmptyString else String c EmptyString
      | r' => String c r'
      end
  end.

(** [s.trim()]. *)
Definition trim (s : string) : string := trimEnd (trimStart s).

(** *** Array methods *)

(** [a.findIndex(p)]: the first index whose element satisfies [p], or -1. *)
Fixpoint findIndex {A} (p : A -> bool) (a : list A) : Z :=
  match a with
  | [] => -1
  | x :: a' =>
      if p x then 0
      else let i := findIndex p a' in if i <? 0 then -1 else i + 1
  end.

(** [a.splice(i, 1)] for [i >= 0]; past the end nothing is removed. *)
Fixpoint splice1 {A} (i : nat) (a : list A) : list A :=
  match a, i with
  | [], _ => []
  | _ :: a', O => a'
  | x :: a', S j => x :: splice1 j a'
  end.

(** The element [a.find(p)] returns is the array's own object, so a
    write through it is a write at its index. *)
Fixpoint update_first {A} (p : A -> bool) (f : A -> A) (a : list A) : list A :=
  match a with
  | [] => []
  | x :: a' => if p x then f x :: a' else x :: update_first p f a'
  end.

End JS.

(** ** The platform's JSON codec *)

Module JSON.
Import JS.
Local Open Scope string_scope.

Definition dquote : ascii := "034"%char.
Definition backslash : ascii := "092"%char.

(** *** [JSON.stringify] *)

Definition hex_digit (n : nat) : ascii :=
  if (n <? 10)%nat then ascii_of_nat (48 + n) else ascii_of_nat (87 + n).

(** QuoteJSONString, one code unit at a time. *)
Definition escape_char (c : ascii) : string :=
  let n := code c in
  if (n =? 34)%nat then String backslash (String dquote "")
  else if (n =? 92)%nat then String backslash (String backslash "")
  else if (n =? 8)%nat then String backslash "b"
  else if (n =? 9)%nat then String backslash "t"
  else if (n =? 10)%nat then String backslash "n"
  else if (n =? 12)%nat then String backslash "f"
  else if (n =? 13)%nat then String backslash "r"
  else if (n <? 32)%nat
       then String backslash
              (String "u" (String "0" (String "0"
                 (String (hex_digit (n / 16))
                  (String (hex_digit (n mod 16)) "")))))
       else String c "".

Fixpoint escape (s : string) : string :=
  match s with
  | EmptyString => EmptyString
  | String c r => escape_char c ++ escape r
  end.

Definition quote (s : string) : string :=
  String dquote (escape s ++ String dquote "").

Definition digits (n : N) : string := NilZero.string_of_uint (N.to_uint n).

(** The text of a number: its decimal digits.  The platform writes
    these for the numbers below 10^21 in magnitude, so for every
    [safe_integer]; from there on it writes an exponent. *)
Definition number_to_string (z : Z) : string :=
  if (z <? 0)%Z then String "-" (digits (Z.abs_N z)) else digits (Z.abs_N z).

Fixpoint stringify (v : value) : string :=
  match v with
  | Null => "null"
  | Bool true => "true"
  | Bool false => "false"
  | Num n => number_to_string n
  | Str s => quote s
  | Arr [] => "[]"
  | Arr (x :: l) =>
      "[" ++ stringify x
          ++ (fix more (l : list value) : string :=
                match l with
                | [] => "]"
                | y :: l' => "," ++ stringify y ++ more l'
                end) l
  | Obj [] => "{}"
  | Obj ((k, x) :: ms) =>
      "{" ++ quote k ++ ":" ++ stringify x
          ++ (fix more (ms : list (string * value)) : string :=
                match ms with
                | [] => "}"
                | (k', y) :: ms' =>
                  "," ++ quote k' ++ ":" ++ stringify y ++ more ms'
                end) ms
  end.

(** *** [JSON.parse] *)

(** A parser step consumes a prefix, rejects the text (the platform's
    [SyntaxError]) or meets text outside the modelled fragment. *)
Inductive step (A : Type) : Type :=
| Ok (a : A) (rest : string)
| Bad
| Beyond.
Arguments Ok {A} a rest.
Arguments Bad {A}.
Arguments Beyond {A}.

Definition and_then {A B} (r : step A) (k : A -> string -> step B) : step B :=
  match r with
  | Ok a rest => k a rest
  | Bad => Bad
  | Beyond => Beyond
  end.

Definition is_ws (c : ascii) : bool :=
  let n := code c in ((n =? 32) || (n =? 9) || (n =? 10) || (n =? 13))%nat.

Fixpoint skip_ws (s : string) : string :=
  match s with
  | EmptyString => EmptyString
  | String c r => if is_ws c then skip_ws r else s
  end.

Definition is_digit (c : ascii) : bool :=
  let n := code c in ((48 <=? n) && (n <=? 57))%nat.

Definition hex_value (c : ascii) : option nat :=
  let n := code c in
  if ((48 <=? n) && (n <=? 57))%nat then Some (n - 48)%nat
  else if ((97 <=? n) && (n <=? 102))%nat then Some (n - 87)%nat
  else if ((65 <=? n) && (n <=? 70))%nat then Some (n - 55)%nat
  else None.

(** The code unit written with a [u] escape and the hex digits [a b c d]. *)
Definition unicode_escape (a b c d : ascii) : step ascii :=
  match hex_value a, hex_value b, hex_value c, hex_value d with
  | Some x, Some y, Some z, Some w =>
      if ((x =? 0) && (y =? 0))%nat
    then Ok (ascii_of_nat (16 * z + w)) ""
    else Beyond
  | _, _, _, _ => Bad
  end.

Definition simple_escape (e : ascii) : option ascii :=
  let n := code e in
  if (n =? 34)%nat then Some dquote
  else if (n =? 92)%nat then Some backslash
  else if (n =? 47)%nat then Some "/"%char
  else if (n =? 98)%nat then Some "008"%char
  else if (n =? 102)%nat then Some "012"%char
  else if (n =? 110)%nat then Some "010"%char
  else if (n =? 114)%nat then Some "013"%char
  else if (n =? 116)%nat then Some "009"%char
  else None.

(** The body of a string literal, after its opening quote. *)
Fixpoint parse_string (s : string) : step string :=
  match s with
  | EmptyString => Bad
  | String c r =>
      if (code c =? 34)%nat then Ok "" r
      else if (code c =? 92)%nat then
        match r with
        | EmptyString => Bad
        | String e r' =>
            match simple_escape e with
            | Some x => and_then (parse_string r') (fun s => Ok (String x s))
            | None =>
                if (code e =? 117)%nat then
                  match r' with
                  | String h1 (String h2 (String h3 (String h4 r''))) =>
                      and_then (unicode_escape h1 h2 h3 h4) (fun x _ =>
                      and_then (parse_string r'') (fun s => Ok (String x s)))
                  | _ => Bad
                  end
                else Bad
            end
        end
      else if (code c <? 32)%nat then Bad
      else and_then (parse_string r) (fun s => Ok (String c s))
  end.

(** The longest prefix of digits, and what follows it. *)
Fixpoint span_digits (s : string) : string * string :=
  match s with
  | EmptyString => (EmptyString, EmptyString)
  | String c r =>
      if is_digit c
      then let (d, rest) := span_digits r in (String c d, rest)
      else (EmptyString, s)
  end.

(** A fraction or an exponent follows: a number the model has no value
    for. *)
Definition continues_number (s : string) : bool :=
  match s with
  | EmptyString => false
  | String c _ =>
      let n := code c in ((n =? 46) || (n =? 101) || (n =? 69))%nat
  end.

(** An unsigned integer literal: [0], or digits that do not start with
    a zero.  With a point or an exponent letter after it the number, if
    it is one, is one the model has no value for. *)
Definition parse_nat (s : string) : step N :=
  let (d, rest) := span_digits s in
  match d with
  | EmptyString => Bad
  | String c d' =>
      if ((code c =? 48)%nat && negb (d' =? "")%string) then Bad
      else if continues_number rest then Beyond
      else match NilZero.uint_of_string d with
           | Some u => Ok (N.of_uint u) rest
           | None => Bad
           end
  end.

Definition parse_number (s : string) : step Z :=
  match s with
  | EmptyString => Bad
  | String c r =>
      if (code c =? 45)%nat
      then and_then (parse_nat r) (fun n => Ok (- Z.of_N n)%Z)
      else and_then (parse_nat s) (fun n => Ok (Z.of_N n))
  end.

(** [s] starts with the literal [w]; what follows it. *)
Fixpoint expect (w s : string) : option string :=
  match w, s with
  | EmptyString, _ => Some s
  | String a w', String b s' => if Ascii.eqb a b then expect w' s' else None
  | String _ _, EmptyString => None
  end.

Definition keyword (w : string) (v : value) (s : string) : step value :=
  match expect w s with
  | Some rest => Ok v rest
  | None => Bad
  end.

(** After an element or a member: a comma and more, or the closing
    bracket whose code is [close]. *)
Definition more_or_close {A} (close : nat) (s : string)
    (more : string -> step (list A)) : step (list A) :=
  match skip_ws s with
  | EmptyString => Bad
  | String c r =>
      if (code c =? 44)%nat then more r
      else if (code c =? close)%nat then Ok [] r
      else Bad
  end.

(** Recursive descent.  [fuel] bounds the calls; a value costs one call
    and an element or a member one more, and each consumes a character,
    so twice the length of the text is enough ([parse_in_fragment]). *)
Fixpoint parse_value (fuel : nat) (s : string) : step value :=
  match fuel with
  | O => Beyond
  | S fuel' =>
      match skip_ws s with
      | EmptyString => Bad
      | String c r =>
          let n := code c in
          if (n =? 110)%nat then keyword "ull" Null r
          else if (n =? 116)%nat then keyword "rue" (Bool true) r
          else if (n =? 102)%nat then keyword "alse" (Bool false) r
          else if (n =? 34)%nat then
            and_then (parse_string r) (fun x => Ok (Str x))
          else if (n =? 91)%nat then
            match skip_ws r with
            | EmptyString => Bad
            | String c1 r1 =>
                if (code c1 =? 93)%nat then Ok (Arr []) r1
                else and_then (parse_elements fuel' (String c1 r1))
                       (fun l => Ok (Arr l))
            end
          else if (n =? 123)%nat then
            match skip_ws r with
            | EmptyString => Bad
            | String c1 r1 =>
                if (code c1 =? 125)%nat then Ok (Obj []) r1
                else and_then (parse_members fuel' (String c1 r1))
                       (fun ms => Ok (Obj ms))
            end
          else if ((n =? 45)%nat || is_digit c) then
            and_then (parse_number (String c r)) (fun z => Ok (Num z))
          else Bad
      end
  end

(** value, then a comma and more elements or the closing bracket *)
with parse_elements (fuel : nat) (s : string) : step (list value) :=
  match fuel with
  | O => Beyond
  | S fuel' =>
      and_then (parse_value fuel' s) (fun x r =>
      and_then (more_or_close 93 r (parse_elements fuel')) (fun l =>
      Ok (x :: l)))
  end

(** string, colon, value, then a comma and more members or the closing
    brace *)
with parse_members (fuel : nat) (s : string) : step (list (string * value)) :=
  match fuel with
  | O => Beyond
  | S fuel' =>
      match skip_ws s with
      | EmptyString => Bad
      | String q r =>
          if (code q =? 34)%nat then
            and_then (parse_string r) (fun k r1 =>
            match skip_ws r1 with
            | EmptyString => Bad
            | String c r2 =>
                if (code c =? 58)%nat then
                  and_then (parse_value fuel' r2) (fun x r3 =>
                  and_then (more_or_close 125 r3 (parse_members fuel'))
                  (fun ms =>
                  Ok ((k, x) :: ms)))
                else Bad
            end)
          else Bad
      end
  end.

(** What may follow a number for it to be read back whole. *)
Definition ends_number (rest : string) : bool :=
  match rest with
  | EmptyString => true
  | String c _ => negb (is_digit c) && negb (continues_number rest)
  end.

(** The elements after the first, as [stringify] writes them. *)
Fixpoint more_elements (l : list value) : string :=
  match l with
  | [] => "]"
  | y :: l' => "," ++ stringify y ++ more_elements l'
  end.

Fixpoint more_members (ms : list (string * value)) : string :=
  match ms with
  | [] => "}"
  | (k, y) :: ms' => "," ++ quote k ++ ":" ++ stringify y ++ more_members ms'
  end.

(** The number of parser calls a value takes, which its text pays for. *)
Fixpoint size (v : value) : nat :=
  match v with
  | Arr l =>
      S ((fix sum (l : list value) : nat :=
            match l with
            | [] => O
            | x :: l' => S (size x + sum l')
            end) l)
  | Obj ms =>
      S ((fix sum (ms : list (string * value)) : nat :=
            match ms with
            | [] => O
            | (_, x) :: ms' => S (size x + sum ms')
            end) ms)
  | _ => 1%nat
  end.

Fixpoint size_elements (l : list value) : nat :=
  match l with
  | [] => O
  | x :: l' => S (size x + size_elements l')
  end.

Fixpoint size_members (ms : list (string * value)) : nat :=
  match ms with
  | [] => O
  | (_, x) :: ms' => S (size x + size_members ms')
  end.

(** *** The grammar *)

(** The grammar of JSON texts without the values: where the parser gives
    up on a number with a fraction or an exponent or on an escape above
    [00ff], what is left to decide is whether the text is JSON at all. *)
Fixpoint scan_string (s : string) : option string :=
  match s with
  | EmptyString => None
  | String c r =>
      if (code c =? 34)%nat then Some r
      else if (code c =? 92)%nat then
        match r with
        | EmptyString => None
        | String e r' =>
            match simple_escape e with
            | Some _ => scan_string r'
            | None =>
                if (code e =? 117)%nat then
                  match r' with
                  | String h1 (String h2 (String h3 (String h4 r''))) =>
                      match hex_value h1, hex_value h2,
                            hex_value h3, hex_value h4 with
                      | Some _, Some _, Some _, Some _ => scan_string r''
                      | _, _, _, _ => None
                      end
                  | _ => None
                  end
                else None
            end
        end
      else if (code c <? 32)%nat then None
      else scan_string r
  end.

(** One digit or more. *)
Definition scan_digits (s : string) : option string :=
  let (d, rest) := span_digits s in
  match d with
  | EmptyString => None
  | String _ _ => Some rest
  end.

(** [0], or digits that do not start with a zero. *)
Definition scan_integer (s : string) : option string :=
  let (d, rest) := span_digits s in
  match d with
  | EmptyString => None
  | String c d' =>
      if ((code c =? 48)%nat && negb (d' =? "")%string) then None
      else Some rest
  end.

(** A point and digits, or nothing. *)
Definition scan_fraction (s : string) : option string :=
  match s with
  | EmptyString => Some s
  | String c r => if (code c =? 46)%nat then scan_digits r else Some s
  end.

(** An exponent letter, perhaps a sign, and digits; or nothing. *)
Definition scan_exponent (s : string) : option string :=
  match s with
  | EmptyString => Some s
  | String c r =>
      if ((code c =? 101) || (code c =? 69))%nat then
        match r with
        | EmptyString => None
        | String g r' =>
            if ((code g =? 43) || (code g =? 45))%nat
            then scan_digits r' else scan_digits r
        end
      else Some s
  end.

Definition scan_number (s : string) : option string :=
  let unsigned :=
    match s with
    | EmptyString => s
    | String c r => if (code c =? 45)%nat then r else s
    end in
  match scan_integer unsigned with
  | None => None
  | Some r1 =>
      match scan_fraction r1 with
      | None => None
      | Some r2 => scan_exponent r2
      end
  end.

Definition found (r : option string) : step unit :=
  match r with
  | Some rest => Ok tt rest
  | None => Bad
  end.

(** After an element or a member, as [more_or_close]. *)
Definition scan_more_or_close (close : nat) (s : string)
    (more : string -> step unit) : step unit :=
  match skip_ws s with
  | EmptyString => Bad
  | String c r =>
      if (code c =? 44)%nat then more r
      else if (code c =? close)%nat then Ok tt r
      else Bad
  end.

Fixpoint scan_value (fuel : nat) (s : string) : step unit :=
  match fuel with
  | O => Beyond
  | S fuel' =>
      match skip_ws s with
      | EmptyString => Bad
      | String c r =>
          let n := code c in
          if (n =? 110)%nat then found (expect "ull" r)
          else if (n =? 116)%nat then found (expect "rue" r)
          else if (n =? 102)%nat then found (expect "alse" r)
          else if (n =? 34)%nat then found (scan_string r)
          else if (n =? 91)%nat then
            match skip_ws r with
            | EmptyString => Bad
            | String c1 r1 =>
                if (code c1 =? 93)%nat then Ok tt r1
                else scan_elements fuel' (String c1 r1)
            end
          else if (n =? 123)%nat then
            match skip_ws r with
            | EmptyString => Bad
            | String c1 r1 =>
                if (code c1 =? 125)%nat then Ok tt r1
                else scan_members fuel' (String c1 r1)
            end
          else if ((n =? 45)%nat || is_digit c) then
            found (scan_number (String c r))
          else Bad
      end
  end

with scan_elements (fuel : nat) (s : string) : step unit :=
  match fuel with
  | O => Beyond
  | S fuel' =>
      and_then (scan_value fuel' s) (fun _ r =>
      scan_more_or_close 93 r (scan_elements fuel'))
  end

with scan_members (fuel : nat) (s : string) : step unit :=
  match fuel with
  | O => Beyond
  | S fuel' =>
      match skip_ws s with
      | EmptyString => Bad
      | String q r =>
          if (code q =? 34)%nat then
            and_then (found (scan_string r)) (fun _ r1 =>
            match skip_ws r1 with
            | EmptyString => Bad
            | String c r2 =>
                if (code c =? 58)%nat then
                  and_then (scan_value fuel' r2) (fun _ r3 =>
                  scan_more_or_close 125 r3 (scan_members fuel'))
                else Bad
            end)
          else Bad
      end
  end.

(** The text is a JSON text: one value, with white space around it.  A
    scan that runs out of calls leaves the text undecided, and it counts
    as one. *)
Definition grammatical (text : string) : bool :=
  match scan_value (S (2 * String.length text)) text with
  | Ok _ rest =>
      match skip_ws rest with
      | EmptyString => true
      | _ => false
      end
  | Bad => false
  | Beyond => true
  end.

(** The parser and the grammar agree on a text: what the parser reads,
    the grammar accepts up to the same point, and what it rejects, the
    grammar rejects. *)
Definition agrees {A} (p : step A) (g : step unit) : Prop :=
  match p with
  | Ok _ rest => g = Ok tt rest
  | Bad => g = Bad
  | Beyond => True
  end.

(** *** The parser as a whole *)

(** What [JSON.parse(text)] does: it returns a value, throws a
    [SyntaxError], or the text is a JSON text with a number or an escape
    the model has no value for. *)
Inductive parsed : Type :=
| Value (v : value)
| Malformed
| Unsupported.

Definition parse (text : string) : parsed :=
  match parse_value (S (2 * String.length text)) text with
  | Ok v rest =>
      match skip_ws rest with
      | EmptyString => Value v
      | _ => Malformed
      end
  | Bad => Malformed
  | Beyond => if grammatical text then Unsupported else Malformed
  end.

(** *** The modelled fragment of texts *)

(** After a backslash: a [u] escape whose hex digits do not start with
    [00]. *)
Definition escape_beyond (r : string) : bool :=
  match r with
  | String u (String a (String b _)) =>
      ((code u =? 117) && negb ((code a =? 48) && (code b =? 48)))%nat
  | String u _ => (code u =? 117)%nat
  | EmptyString => false
  end.

(** A text in which, outside string literals, no digit is followed by a
    point or an exponent letter, and in which no string literal has such
    an escape; [in_string] says whether the text starts inside a
    literal.  On these texts the parser decides: it returns a value or
    rejects the text ([parse_in_fragment]). *)
Fixpoint in_fragment_from (in_string : bool) (s : string) : bool :=
  match s with
  | EmptyString => true
  | String c r =>
      if in_string then
        if (code c =? 92)%nat then
          negb (escape_beyond r)
          && match r with
             | EmptyString => true
             | String _ r' => in_fragment_from true r'
             end
        else if (code c =? 34)%nat then in_fragment_from false r
        else in_fragment_from true r
      else
        if (code c =? 34)%nat then in_fragment_from true r
        else negb (is_digit c && continues_number r)
             && in_fragment_from false r
  end.

Definition in_fragment (s : string) : bool := in_fragment_from false s.

(** *** Ends of a text *)

(** [rest] is an end of [s], outside string literals as [s] is: no
    longer, and within the fragment if [s] is. *)
Definition within (rest s : string) : Prop :=
  (String.length rest <= String.length s)%nat
  /\ (in_fragment s = true -> in_fragment rest = true).

Definition shorter (rest s : string) : Prop :=
  (String.length rest < String.length s)%nat
  /\ (in_fragment s = true -> in_fragment rest = true).

(** No character of [w] is a quote. *)
Fixpoint no_quote (w : string) : bool :=
  match w with
  | EmptyString => true
  | String a w' => negb (code a =? 34)%nat && no_quote w'
  end.

End JSON.


(** ** Method bodies: state, exceptions and the edge of the model *)

Module Eff.

(** The exceptions the program can meet. *)
Inductive error : Type :=
| SyntaxError            (* JSON.parse on text that is not JSON *)
| TypeError              (* a property of null, a call of a non-function *)
| QuotaExceededError.    (* localStorage.setItem past the quota *)

(** How a computation over a state [S] ends.  [Throws] carries the state
    at the throw, which is what a [catch] block sees.  [Unmodelled] marks
    a step whose JavaScript meaning the embedding does not cover. *)
Inductive outcome (S A : Type) : Type :=
| Returns (a : A) (s : S)
| Throws (e : error) (s : S)
| Unmodelled.
Arguments Returns {S A} a s.
Arguments Throws {S A} e s.
Arguments Unmodelled {S A}.

Definition M (S A : Type) : Type := S -> outcome S A.

Definition ret {S A} (a : A) : M S A := fun s => Returns a s.

Definition bind {S A B} (m : M S A) (k : A -> M S B) : M S B :=
  fun s =>
    match m s with
    | Returns a s' => k a s'
    | Throws e s' => Throws e s'
    | Unmodelled => Unmodelled
    end.

Definition throw {S A} (e : error) : M S A := fun s => Throws e s.
Definition unmodelled {S A} : M S A := fun _ => Unmodelled.
Definition get {S} : M S S := fun s => Returns s s.
Definition modify {S} (f : S -> S) : M S unit := fun s => Returns tt (f s).

(** [try { body } catch (error) { handler }] *)
Definition try_catch {S A} (body : M S A) (handler : error -> M S A) : M S A :=
  fun s =>
    match body s with
    | Throws e s' => handler e s'
    | r => r
    end.

(** A callback that reads its argument and either answers or throws. *)
Definition exc (A : Type) : Type := error + A.

Definition lift {S A} (x : exc A) : M S A :=
  match x with
  | inr a => ret a
  | inl e => throw e
  end.

(** [a.some(p)]: stops at the first element that satisfies [p]; a throw
    in [p] ends the scan. *)
Fixpoint some {A} (p : A -> exc bool) (a : list A) : exc bool :=
  match a with
  | [] => inr false
  | x :: a' =>
      match p x with
      | inl e => inl e
      | inr true => inr true
      | inr false => some p a'
      end
  end.

Declare Scope eff_scope.
Delimit Scope eff_scope with eff.
Notation "x <- m ;; k" := (bind m (fun x => k))
  (at level 61, m at next level, right associativity) : eff_scope.
Notation "m ;; k" := (bind m (fun _ => k))
  (at level 61, right associativity) : eff_scope.
Notation "'try' b 'catch' h" := (try_catch b h)
  (at level 60, b at level 61, h at level 200) : eff_scope.

End Eff.

(** ** The class *)

Module TodoApp.
Import JS Eff.
Local Open Scope eff_scope.

(** An element of [this.tasks] is always an object: the loader keeps an
    entry only when it has a string [text], which only an object can
    have, and [addTask] pushes an object literal. *)
Definition object : Type := list (string * value).

(** The instance, with the parts of the page and of the browser its
    methods read and write. *)
Record app : Type := mkApp {
  tasks : list object;          (* this.tasks *)
  currentFilter : string;       (* this.currentFilter *)
  editingTaskId : option Z;     (* this.editingTaskId; None is null *)
  taskIdCounter : value;        (* this.taskIdCounter *)
  inputError : string;          (* elements.inputError.textContent *)
  timers : list nat;            (* removals handed to setTimeout, oldest
                                   first, each with its captured index *)
  localStorage : option string; (* the item stored under 'todoApp' *)
  quota : nat;                  (* the longest text the store accepts *)
  console : list string         (* console.error lines, oldest first *)
}.

(** Field updates. *)
Definition with_tasks (x : list object) (s : app) : app :=
  mkApp x (currentFilter s) (editingTaskId s) (taskIdCounter s)
    (inputError s) (timers s) (localStorage s) (quota s) (console s).
Definition with_currentFilter (x : string) (s : app) : app :=
  mkApp (tasks s) x (editingTaskId s) (taskIdCounter s) (inputError s)
    (timers s) (localStorage s) (quota s) (console s).
Definition with_editingTaskId (x : option Z) (s : app) : app :=
  mkApp (tasks s) (currentFilter s) x (taskIdCounter s) (inputError s)
    (timers s) (localStorage s) (quota s) (console s).
Definition with_taskIdCounter (x : value) (s : app) : app :=
  mkApp (tasks s) (currentFilter s) (editingTaskId s) x (inputError s)
    (timers s) (localStorage s) (quota s) (console s).
Definition with_inputError (x : string) (s : app) : app :=
  mkApp (tasks s) (currentFilter s) (editingTaskId s) (taskIdCounter s) x
    (timers s) (localStorage s) (quota s) (console s).
Definition with_timers (x : list nat) (s : app) : app :=
  mkApp (tasks s) (currentFilter s) (editingTaskId s) (taskIdCounter s)
    (inputError s) x (localStorage s) (quota s) (console s).
Definition with_localStorage (x : option string) (s : app) : app :=
  mkApp (tasks s) (currentFilter s) (editingTaskId s) (taskIdCounter s)
    (inputError s) (timers s) x (quota s) (console s).
Definition with_console (x : list string) (s : app) : app :=
  mkApp (tasks s) (currentFilter s) (editingTaskId s) (taskIdCounter s)
    (inputError s) (timers s) (localStorage s) (quota s) x.

Definition set_tasks (x : list object) : M app unit := modify (with_tasks x).
Definition set_currentFilter (x : string) : M app unit :=
  modify (with_currentFilter x).
Definition set_editingTaskId (x : option Z) : M app unit :=
  modify (with_editingTaskId x).
Definition set_taskIdCounter (x : value) : M app unit :=
  modify (with_taskIdCounter x).
Definition set_inputError (x : string) : M app unit :=
  modify (with_inputError x).
Definition set_timers (x : list nat) : M app unit := modify (with_timers x).
Definition set_localStorage (x : option string) : M app unit :=
  modify (with_localStorage x).
Definition set_console (x : list string) : M app unit :=
  modify (with_console x).

(** *** The browser *)

(** [localStorage.getItem('todoApp')] *)
Definition localStorage_getItem : M app (option string) :=
  s <- get ;; ret (localStorage s).

(** [localStorage.setItem('todoApp', text)] *)
Definition localStorage_setItem (text : string) : M app unit :=
  s <- get ;;
  if (quota s <? String.length text)%nat
  then throw QuotaExceededError
  else set_localStorage (Some text).

(** [console.error(line, error)] *)
Definition console_error (line : string) : M app unit :=
  s <- get ;; set_console (console s ++ [line]).

(** [JSON.parse(text)] *)
Definition JSON_parse (text : string) : M app value :=
  match JSON.parse text with
  | JSON.Value v => ret v
  | JSON.Malformed => throw SyntaxError
  | JSON.Unsupported => unmodelled
  end.

(** [v.k], which throws when [v] is null. *)
Definition member (v : value) (k : string) : M app undefinable :=
  match v with
  | Null => throw TypeError
  | _ => ret (prop v k)
  end.

(** *** Reading a task *)

Definition id (t : object) : undefinable := lookup "id" t.
Definition text (t : object) : undefinable := lookup "text" t.
Definition completed (t : object) : undefinable := lookup "completed" t.
Definition completedAt (t : object) : undefinable := lookup "completedAt" t.
Definition deadline (t : object) : undefinable := lookup "deadline" t.

(** [t => t.id === taskId] *)
Definition has_id (taskId : Z) (t : object) : bool :=
  strict_eq_num (id t) taskId.

(** [task => task.completed], as a condition *)
Definition is_completed (t : object) : bool := truthy' (completed t).

(** [task.text.toLowerCase()]: a [text] that is not a string has no such
    method. *)
Definition lower_text (t : object) : exc string :=
  match text t with
  | Some (Str x) => inr (toLowerCase x)
  | _ => inl TypeError
  end.

(** *** Messages *)

Definition showError (message : string) : M app unit := set_inputError message.
Definition clearError : M app unit := set_inputError "".

(** *** Persistence *)

(** [saveTasks()]; [now] is what the clock reads during the call. *)
Definition saveTasks (now : string) : M app unit :=
  try (
    s <- get ;;
    let dataToSave :=
      Obj [("tasks", Arr (map Obj (tasks s)));
           ("taskIdCounter", taskIdCounter s);
           ("lastSaved", Str now)] in
    localStorage_setItem (JSON.stringify dataToSave)
  ) catch (fun error =>
    console_error "Failed to save tasks:" ;;
    showError "Failed to save tasks. Storage might be full."
  ).

(** The test of the loader's filter:
    [task && typeof task.text === 'string' && typeof task.id === 'number'] *)
Definition valid_entry (task : value) : bool :=
  truthy task
  && (typeof (prop task "text") =? "string")%string
  && (typeof (prop task "id") =? "number")%string.

(** The objects among some values. *)
Fixpoint objects (l : list value) : list object :=
  match l with
  | [] => []
  | Obj ms :: l' => ms :: objects l'
  | _ :: l' => objects l'
  end.

(** [loadTasks()].  The two assignments and the filter are one step here:
    when [data.tasks || []] is not an array, [filter] is not a function,
    the call throws, and the handler overwrites both fields anyway. *)
Definition loadTasks : M app unit :=
  try (
    savedData <- localStorage_getItem ;;
    match savedData with
    | None => ret tt
    | Some text =>
        if (text =? "")%string then ret tt
        else
          data <- JSON_parse text ;;
          data_tasks <- member data "tasks" ;;
          data_taskIdCounter <- member data "taskIdCounter" ;;
          match or_else data_tasks (Arr []) with
          | Arr entries =>
              set_taskIdCounter (or_else data_taskIdCounter (Num 0)) ;;
              set_tasks (objects (filter valid_entry entries))
          | _ => throw TypeError
          end
    end
  ) catch (fun error =>
    console_error "Failed to load tasks:" ;;
    set_tasks [] ;;
    set_taskIdCounter (Num 0)
  ).

(** *** Construction *)

(** The field initialisers of the constructor, over a given browser
    store. *)
Definition fields (storage : option string) (quota : nat) : app :=
  mkApp [] "all" None (Num 0) "" [] storage quota [].

(** [init()], less event binding, rendering and focus. *)
Definition init : M app unit := loadTasks.

(** *** Adding *)

(** [validateTaskInput(text)] *)
Definition validateTaskInput (text : string) : M app bool :=
  if negb (truthy (Str text)) then
    showError "Please enter a task description." ;;
    ret false
  else if (100 <? String.length text)%nat then
    showError "Task description must be 100 characters or less." ;;
    ret false
  else
    s <- get ;;
    duplicate <- lift (some (fun task =>
                     match lower_text task with
                     | inr l => inr (l =? toLowerCase text)%string
                     | inl e => inl e
                     end) (tasks s)) ;;
    if duplicate then
      showError "This task already exists." ;;
      ret false
    else ret true.

(** [++this.taskIdCounter], for a counter that holds a number.  The sum
    is the integer sum, which is the platform's while the counter is in
    [increments_exactly]. *)
Definition increment_taskIdCounter : M app Z :=
  s <- get ;;
  match taskIdCounter s with
  | Num n => set_taskIdCounter (Num (n + 1)) ;; ret (n + 1)
  | _ => unmodelled
  end.

(** [addTask()]; [input] and [deadline_input] are the values of the two
    input fields. *)
Definition addTask (input deadline_input now : string) : M app unit :=
  let text := trim input in
  let deadline := deadline_input in
  valid <- validateTaskInput text ;;
  if negb valid then ret tt
  else
    new_id <- increment_taskIdCounter ;;
    let task : object :=
      [("id", Num new_id);
       ("text", Str text);
       ("completed", Bool false);
       ("createdAt", Str now);
       ("completedAt", Null);
       ("deadline", or_else (Some (Str deadline)) Null)] in
    s <- get ;;
    set_tasks (tasks s ++ [task]) ;;
    clearError ;;
    saveTasks now.

(** *** Completing *)

(** The two assignments [toggleTask] makes to the task it found. *)
Definition toggle (now : string) (task : object) : object :=
  let task :=
    assign "completed" (Bool (negb (truthy' (completed task)))) task in
  assign "completedAt"
    (if truthy' (completed task) then Str now else Null) task.

(** [toggleTask(taskId)] *)
Definition toggleTask (taskId : Z) (now : string) : M app unit :=
  s <- get ;;
  match find (has_id taskId) (tasks s) with
  | Some _ =>
      set_tasks (update_first (has_id taskId) (toggle now) (tasks s)) ;;
      saveTasks now
  | None => ret tt
  end.

(** *** Deleting *)

(** What [deleteTask] does once the index is known, at once or from the
    timer. *)
Definition remove_at (taskIndex : nat) (now : string) : M app unit :=
  s <- get ;;
  set_tasks (splice1 taskIndex (tasks s)) ;;
  saveTasks now.

(** [deleteTask(taskId)]; [rendered] says whether the page holds an
    element for the task. *)
Definition deleteTask (taskId : Z) (rendered : bool) (now : string)
  : M app unit :=
  s <- get ;;
  let taskIndex := findIndex (has_id taskId) (tasks s) in
  if taskIndex >? -1 then
    if rendered then set_timers (timers s ++ [Z.to_nat taskIndex])
    else remove_at (Z.to_nat taskIndex) now
  else ret tt.

(** The oldest pending timer fires, 250 ms after [deleteTask] set it. *)
Definition timeout (now : string) : M app unit :=
  s <- get ;;
  match timers s with
  | [] => ret tt
  | taskIndex :: later => set_timers later ;; remove_at taskIndex now
  end.

(** *** Editing *)

(** [cancelEdit()] *)
Definition cancelEdit : M app unit :=
  set_editingTaskId None ;;
  clearError.

(** [editTask(taskId)] *)
Definition editTask (taskId : Z) : M app unit :=
  s <- get ;;
  (match editingTaskId s with
   | Some n => if n =? 0 then ret tt else cancelEdit
   | None => ret tt
   end) ;;
  set_editingTaskId (Some taskId).

(** [saveEdit(taskId)]; [editInput] is the value of the task's edit box,
    if the page has one. *)
Definition saveEdit (taskId : Z) (editInput : option string) (now : string)
  : M app unit :=
  match editInput with
  | None => ret tt
  | Some input =>
      let newText := trim input in
      if negb (truthy (Str newText)) then
        showError "Task description cannot be empty."
      else if (100 <? String.length newText)%nat then
        showError "Task description must be 100 characters or less."
      else
        s <- get ;;
        isDuplicate <- lift (some (fun task =>
                         if negb (has_id taskId task) then
                           match lower_text task with
                           | inr l => inr (l =? toLowerCase newText)%string
                           | inl e => inl e
                           end
                         else inr false) (tasks s)) ;;
        if isDuplicate then
          showError "This task already exists."
        else
          match find (has_id taskId) (tasks s) with
          | Some _ =>
              set_tasks (update_first (has_id taskId)
                           (assign "text" (Str newText)) (tasks s)) ;;
              set_editingTaskId None ;;
              clearError ;;
              saveTasks now
          | None => ret tt
          end
  end.

(** *** Filtering and clearing *)

(** [setFilter(filter)] *)
Definition setFilter (filter : string) : M app unit :=
  set_currentFilter filter.

(** [getFilteredTasks()] *)
Definition getFilteredTasks : M app (list object) :=
  s <- get ;;
  if (currentFilter s =? "active")%string then
    ret (filter (fun task => negb (is_completed task)) (tasks s))
  else if (currentFilter s =? "completed")%string then
    ret (filter (fun task => is_completed task) (tasks s))
  else ret (tasks s).

(** [clearCompleted()] *)
Definition clearCompleted (now : string) : M app unit :=
  s <- get ;;
  set_tasks (filter (fun task => negb (is_completed task)) (tasks s)) ;;
  saveTasks now.

(** [clearAll()] *)
Definition clearAll (now : string) : M app unit :=
  set_tasks [] ;;
  set_editingTaskId None ;;
  saveTasks now.

End TodoApp.

(** ** Sessions *)

(** What the page and its timers can ask of the instance between its
    construction and the end of the session. *)
Module Session.
Import JS Eff TodoApp.
Local Open Scope eff_scope.

Inductive call : Type :=
| AddTask (input deadline_input now : string)
| ToggleTask (taskId : Z) (now : string)
| DeleteTask (taskId : Z) (rendered : bool) (now : string)
| Timeout (now : string)
| EditTask (taskId : Z)
| SaveEdit (taskId : Z) (editInput : option string) (now : string)
| CancelEdit
| SetFilter (filter : string)
| ClearCompleted (now : string)
| ClearAll (now : string).

Definition perform (c : call) : M app unit :=
  match c with
  | AddTask input deadline_input now => addTask input deadline_input now
  | ToggleTask taskId now => toggleTask taskId now
  | DeleteTask taskId rendered now => deleteTask taskId rendered now
  | Timeout now => timeout now
  | EditTask taskId => editTask taskId
  | SaveEdit taskId editInput now => saveEdit taskId editInput now
  | CancelEdit => cancelEdit
  | SetFilter filter => setFilter filter
  | ClearCompleted now => clearCompleted now
  | ClearAll now => clearAll now
  end.

Fixpoint run (cs : list call) : M app unit :=
  match cs with
  | [] => ret tt
  | c :: cs' => perform c ;; run cs'
  end.

(** The numeric ids of some tasks. *)
Fixpoint ids (l : list object) : list Z :=
  match l with
  | [] => []
  | t :: l' =>
      match id t with
      | Some (Num n) => n :: ids l'
      | _ => ids l'
      end
  end.

(** The ids of the tasks a call added: those past the old end of the
    array when the call was an [addTask], none otherwise. *)
Definition added (c : call) (before after : app) : list Z :=
  match c with
  | AddTask _ _ _ => ids (skipn (List.length (tasks before)) (tasks after))
  | _ => []
  end.

(** Every id the instance hands out while it performs [cs] from [s]. *)
Fixpoint issued (cs : list call) (s : app) : list Z :=
  match cs with
  | [] => []
  | c :: cs' =>
      match perform c s with
      | Returns _ s' => added c s s' ++ issued cs' s'
      | _ => []
      end
  end.

(** The largest of some ids, 0 when there is none. *)
Definition max_id (l : list object) : Z := fold_right Z.max 0 (ids l).

End Session.

(** ** What the specification calls things *)

Module Spec.
Import JS Eff TodoApp.

(** The text [saveTasks] writes. *)
Definition blob (now : string) (s : app) : string :=
  JSON.stringify
    (Obj [("tasks", Arr (map Obj (tasks s)));
          ("taskIdCounter", taskIdCounter s);
          ("lastSaved", Str now)]).

(** The state [saveTasks] leaves: the text is in the browser store, or,
    past the quota, the failure is logged and shown. *)
Definition saved (now : string) (s : app) : app :=
  if (quota s <? String.length (blob now s))%nat
  then with_inputError "Failed to save tasks. Storage might be full."
         (with_console (console s ++ ["Failed to save tasks:"]) s)
  else with_localStorage (Some (blob now s)) s.

(** The state the handler of [loadTasks] leaves. *)
Definition recovered (s : app) : app :=
  with_taskIdCounter (Num 0)
    (with_tasks [] (with_console (console s ++ ["Failed to load tasks:"]) s)).

(** The state [loadTasks] leaves when the stored text parses to [data]. *)
Definition hydrated (data : value) (s : app) : app :=
  match data with
  | Null => recovered s
  | _ =>
      match or_else (prop data "tasks") (Arr []) with
      | Arr entries =>
          with_tasks (objects (filter valid_entry entries))
            (with_taskIdCounter (or_else (prop data "taskIdCounter") (Num 0)) s)
      | _ => recovered s
      end
  end.

(** An entry has a string [text] and a numeric [id]. *)
Definition usable (entry : value) : bool :=
  (typeof (prop entry "text") =? "string")%string
  && (typeof (prop entry "id") =? "number")%string.

(** The error kinds of the specification are the messages the program
    shows in its error line. *)
Definition EmptyText : string := "Please enter a task description.".
Definition TooLong : string :=
  "Task description must be 100 characters or less.".
Definition DuplicateText : string := "This task already exists.".

(** A call fails with a kind when it returns having shown that message
    and left the tasks, the counter and the browser store alone. *)
Definition fails_with (kind : string) (before : app) (r : outcome app unit)
  : Prop :=
  exists after,
    r = Returns tt after
    /\ inputError after = kind
    /\ tasks after = tasks before
    /\ taskIdCounter after = taskIdCounter before
    /\ localStorage after = localStorage before.

(** A task's text equals [x] up to letter case. *)
Definition same_text (x : string) (t : object) : bool :=
  match text t with
  | Some (Str y) => (toLowerCase y =? toLowerCase x)%string
  | _ => false
  end.

(** Two characters that are the same, or the same letter of A to Z in
    its two cases. *)
Definition same_letter (a b : ascii) : bool :=
  ((code a =? code b)
   || (65 <=? code a) && (code a <=? 90) && (code b =? code a + 32)
   || (65 <=? code b) && (code b <=? 90) && (code a =? code b + 32))%nat.

(** Two texts that differ at most in the case of such letters. *)
Fixpoint equal_up_to_case (x y : string) : bool :=
  match x, y with
  | EmptyString, EmptyString => true
  | String a x', String b y' => same_letter a b && equal_up_to_case x' y'
  | _, _ => false
  end.

(** [l'] is [l] restricted to the elements that satisfy [p], order
    kept. *)
Inductive selects {A} (p : A -> bool) : list A -> list A -> Prop :=
| selects_nil : selects p [] []
| selects_keep x l l' :
    p x = true -> selects p l l' -> selects p (x :: l) (x :: l')
| selects_drop x l l' :
    p x = false -> selects p l l' -> selects p (x :: l) l'.

(** The object [addTask] pushes. *)
Definition new_task (new_id : Z) (text now deadline : string) : object :=
  [("id", Num new_id);
   ("text", Str text);
   ("completed", Bool false);
   ("createdAt", Str now);
   ("completedAt", Null);
   ("deadline", or_else (Some (Str deadline)) Null)].

(** A task has a string text and a numeric id no larger than [c]. *)
Definition issued_by (c : Z) (t : object) : Prop :=
  exists n x, id t = Some (Num n) /\ n <= c /\ text t = Some (Str x).

(** The instance is in a state its own methods keep it in: the counter
    is a number, and every task has a string text and a numeric id that
    the counter has passed. *)
Definition well_formed (s : app) : Prop :=
  exists c, taskIdCounter s = Num c /\ Forall (issued_by c) (tasks s).

(** A task's text in lower case. *)
Definition lower (t : object) : option string :=
  match text t with
  | Some (Str x) => Some (toLowerCase x)
  | _ => None
  end.

(** The texts are what [addTask] and [saveEdit] let through: none is
    empty or longer than 100, and no two are equal up to letter case. *)
Definition tidy (l : list object) : Prop :=
  Forall (fun t => exists x, text t = Some (Str x)
                             /\ x <> "" /\ (String.length x <= 100)%nat) l
  /\ NoDup (map lower l).

(** How one call can change the counter and the array: from [c] and [l]
    to [c'] and [l']. *)
Inductive change (c : Z) (l : list object) : Z -> list object -> Prop :=
| change_none : change c l c l
| change_push text now deadline :
    text <> "" -> (String.length text <= 100)%nat ->
    existsb (same_text text) l = false ->
    change c l (c + 1) (l ++ [new_task (c + 1) text now deadline])
| change_toggle taskId now :
    change c l c (update_first (has_id taskId) (toggle now) l)
| change_remove i :
    change c l c (splice1 i l)
| change_text taskId text t :
    text <> "" -> (String.length text <= 100)%nat ->
    existsb (fun u => negb (has_id taskId u) && same_text text u) l = false ->
    find (has_id taskId) l = Some t ->
    change c l c (update_first (has_id taskId) (assign "text" (Str text)) l)
| change_filter p :
    change c l c (filter p l)
| change_clear :
    change c l c [].

(** What holds of every state the methods reach from an empty array. *)
Definition orderly (s : app) : Prop :=
  well_formed s /\ NoDup (map id (tasks s)) /\ tidy (tasks s).

End Spec.

(** ** Stored texts used as examples *)

Module Examples.
Import JS TodoApp.

(** A store whose counter, 4, is behind the id of its one task, 5. *)
Definition stale_blob : string :=
  JSON.stringify
    (Obj [("tasks", Arr [Obj [("id", Num 5); ("text", Str "Pay rent")]]);
          ("taskIdCounter", Num 4)]).

Fixpoint x_times (n : nat) : string :=
  match n with
  | O => EmptyString
  | S n' => String "x" (x_times n')
  end.

(** Four entries no call of [addTask] or [saveEdit] would leave side by
    side: an empty text, a text of 101 characters, and two texts equal
    up to case; then three entries the loader drops. *)
Definition untidy_entries : list value :=
  [Obj [("id", Num 1); ("text", Str "")];
   Obj [("id", Num 2); ("text", Str (x_times 101))];
   Obj [("id", Num 3); ("text", Str "Buy milk")];
   Obj [("id", Num 4); ("text", Str "buy MILK")];
   Obj [("id", Str "5"); ("text", Str "id is a string")];
   Obj [("id", Num 6)];
   Null].

Definition untidy_blob : string :=
  JSON.stringify
    (Obj [("tasks", Arr untidy_entries); ("taskIdCounter", Num 6)]).

(** A task that is completed. *)
Definition done_task : object :=
  [("id", Num 1); ("text", Str "Write report"); ("completed", Bool true);
   ("createdAt", Str "09:00"); ("completedAt", Str "09:05");
   ("deadline", Null)].

Definition open_task : object :=
  [("id", Num 2); ("text", Str "Send report"); ("completed", Bool false);
   ("createdAt", Str "09:01"); ("completedAt", Null);
   ("deadline", Null)].

(** An instance holding those two tasks. *)
Definition two_tasks : app :=
  with_taskIdCounter (Num 2)
    (with_tasks [done_task; open_task] (fields None 4096)).

End Examples.

(** ** The rest of the class: what the page shows *)

Module Views.
Import JS Eff TodoApp.
Local Open Scope eff_scope.

(** [isTaskVisible(task)], as the condition its caller makes of the
    result. *)
Definition isTaskVisible (task : object) : M app bool :=
  s <- get ;;
  if (currentFilter s =? "active")%string then ret (negb (is_completed task))
  else if (currentFilter s =? "completed")%string then ret (is_completed task)
  else ret true.

(** [`${remaining}`] for a count. *)
Definition count_text (n : nat) : string := JSON.number_to_string (Z.of_nat n).

(** [renderStats()]; the result is the text it writes into the counter
    element. *)
Definition renderStats : M app string :=
  s <- get ;;
  let total := List.length (tasks s) in
  let completed := List.length (filter (fun task => is_completed task) (tasks s)) in
  let remaining := (total - completed)%nat in
  ret (if (total =? 0)%nat then "No tasks"
       else if (remaining =? 0)%nat then "All tasks completed!"
       else if (remaining =? 1)%nat then "1 task remaining"
       else (count_text remaining ++ " tasks remaining")%string).

(** [renderActionButtons()]; the result is the pair of [disabled] flags it
    sets, of the clear-completed button and of the clear-all button. *)
Definition renderActionButtons : M app (bool * bool) :=
  s <- get ;;
  let hasCompleted := existsb (fun task => is_completed task) (tasks s) in
  let hasTasks := (0 <? List.length (tasks s))%nat in
  ret (negb hasCompleted, negb hasTasks).

(** The object [getStats] returns. *)
Record stats : Type := mkStats {
  total : nat;
  completed_count : nat;     (* the property named completed *)
  active : nat;
  completionRate : Z
}.

Section Stats.

(** [Math.round((completed / total) * 100)] is floating-point arithmetic
    and is taken as given. *)
Variable round_percent : nat -> nat -> Z.

(** [getStats()] *)
Definition getStats : M app stats :=
  s <- get ;;
  let total := List.length (tasks s) in
  let completed := List.length (filter (fun task => is_completed task) (tasks s)) in
  let active := (total - completed)%nat in
  ret (mkStats total completed active
         (if (0 <? total)%nat then round_percent completed total else 0)).

End Stats.

End Views.

(** ** The rest of the class: dialog and event handlers *)

Module Page.
Import JS Eff TodoApp.
Local Open Scope eff_scope.

(** *** [parseInt] *)

Fixpoint read_hex (s : string) (acc : option Z) : option Z :=
  match s with
  | EmptyString => acc
  | String c r =>
      match JSON.hex_value c with
      | Some d =>
          read_hex r
            (Some (16 * match acc with Some a => a | None => 0 end + Z.of_nat d))
      | None => acc
      end
  end.

Definition read_decimal (s : string) : option Z :=
  match NilZero.uint_of_string (fst (JSON.span_digits s)) with
  | Some u => Some (Z.of_N (N.of_uint u))
  | None => None
  end.

(** The digits after the sign: hexadecimal after [0x] or [0X], decimal
    otherwise. *)
Definition read_magnitude (r : string) : option Z :=
  match r with
  | String z (String x r') =>
      if ((code z =? 48) && ((code x =? 120) || (code x =? 88)))%nat
      then read_hex r' None
      else read_decimal r
  | _ => read_decimal r
  end.

(** What [parseInt] answers: NaN, an integer up to 2^53 in magnitude,
    which it reads exactly, or a larger one, which it rounds to a double
    the model does not compute. *)
Inductive parsed_int : Type :=
| NaN
| Exactly (n : Z)
| Large.

(** The number for a sign and the value of the digits, if there were
    any. *)
Definition signed (negative : bool) (magnitude : option Z) : parsed_int :=
  match magnitude with
  | None => NaN
  | Some m =>
      if m <=? 2 ^ 53 then Exactly (if negative then - m else m) else Large
  end.

(** [parseInt(u)] with no radix.  Leading white space, a sign, then the
    longest run of digits; [undefined] reads as the text [undefined],
    which has none. *)
Definition parseInt (u : option string) : parsed_int :=
  match u with
  | None => NaN
  | Some s =>
      match trimStart s with
      | EmptyString => NaN
      | String c r =>
          if (code c =? 45)%nat then signed true (read_magnitude r)
          else if (code c =? 43)%nat then signed false (read_magnitude r)
          else signed false (read_magnitude (String c r))
      end
  end.

(** *** The confirmation dialog *)

(** The three functions the class hands to [confirmAction]. *)
Inductive action : Type :=
| deleting (taskId : Z)       (* () => this.deleteTask(taskId) *)
| clearing_completed          (* () => this.clearCompleted() *)
| clearing_all.               (* () => this.clearAll() *)

(** The instance with its dialog: [this.pendingAction] and what the
    dialog's elements hold. *)
Record page : Type := mkPage {
  todoApp : app;
  modalShown : bool;                (* confirmModal has class 'show' *)
  modalTitle : string;              (* modalTitle.textContent *)
  modalMessage : string;            (* modalMessage.textContent *)
  pendingAction : option action     (* None is null *)
}.

Definition with_todoApp (x : app) (p : page) : page :=
  mkPage x (modalShown p) (modalTitle p) (modalMessage p) (pendingAction p).
Definition with_modalShown (x : bool) (p : page) : page :=
  mkPage (todoApp p) x (modalTitle p) (modalMessage p) (pendingAction p).
Definition with_modalText (title message : string) (p : page) : page :=
  mkPage (todoApp p) (modalShown p) title message (pendingAction p).
Definition with_pendingAction (x : option action) (p : page) : page :=
  mkPage (todoApp p) (modalShown p) (modalTitle p) (modalMessage p) x.

(** A method of the instance, run on the page. *)
Definition on_app {A} (m : M app A) : M page A :=
  fun p =>
    match m (todoApp p) with
    | Returns a s => Returns a (with_todoApp s p)
    | Throws e s => Throws e (with_todoApp s p)
    | Unmodelled => Unmodelled
    end.

(** [showModal()] *)
Definition showModal : M page unit := modify (with_modalShown true).

(** [hideModal()] *)
Definition hideModal : M page unit :=
  modify (with_modalShown false) ;;
  modify (with_pendingAction None).

(** [confirmAction(title, message, action)] *)
Definition confirmAction (title message : string) (a : action) : M page unit :=
  modify (with_modalText title message) ;;
  modify (with_pendingAction (Some a)) ;;
  showModal.

(** The body of the function held in [pendingAction]; [rendered] and
    [now] are what the page and the clock answer while it runs. *)
Definition action_body (a : action) (rendered : bool) (now : string)
  : M app unit :=
  match a with
  | deleting taskId => deleteTask taskId rendered now
  | clearing_completed => clearCompleted now
  | clearing_all => clearAll now
  end.

(** [this.pendingAction()] *)
Definition call_action (a : action) (rendered : bool) (now : string)
  : M page unit :=
  on_app (action_body a rendered now).

(** [executeConfirmedAction()] *)
Definition executeConfirmedAction (rendered : bool) (now : string)
  : M page unit :=
  p <- get ;;
  (match pendingAction p with
   | Some a =>
       call_action a rendered now ;;
       modify (with_pendingAction None)
   | None => ret tt
   end) ;;
  hideModal.

(** *** Handlers *)

(** What a handler reads of [e.target]: its classes, and the
    [data-task-id] of the closest task item, if there is such an item and
    if it has the attribute. *)
Record target : Type := mkTarget {
  classList : list string;
  closest_task_item : option (option string)
}.

Definition contains (t : target) (class : string) : bool :=
  existsb (String.eqb class) (classList t).

(** [handleGlobalKeydown(e)] *)
Definition handleGlobalKeydown (key : string) (ctrlKey metaKey : bool)
  : M page unit :=
  (if (key =? "Escape")%string then
     p <- get ;;
     if modalShown p then hideModal
     else
       match editingTaskId (todoApp p) with
       | Some n => if n =? 0 then ret tt else on_app cancelEdit
       | None => ret tt
       end
   else ret tt) ;;
  (if ((ctrlKey || metaKey) && (key =? "Enter")%string)%bool
   then ret tt   (* the input field takes the focus *)
   else ret tt).

(** A handler that needs the id as a number has no modelled meaning when
    [parseInt] answers NaN or a number above 2^53. *)
Definition with_number {A} (taskId : parsed_int) (k : Z -> M page A)
  : M page A :=
  match taskId with
  | Exactly n => k n
  | NaN | Large => unmodelled
  end.

(** [handleTaskClick(e)]; [detail] is [e.detail], [editInput] the value
    of the task's edit box if the page has one. *)
Definition handleTaskClick (t : target) (detail : Z)
    (editInput : option string) (now : string) : M page unit :=
  match closest_task_item t with
  | None => ret tt
  | Some data =>
      let taskId := parseInt data in
      if contains t "delete-btn" then
        with_number taskId (fun n =>
          confirmAction "Delete Task"
            "Are you sure you want to delete this task?" (deleting n))
      else if contains t "edit-btn" then
        with_number taskId (fun n => on_app (editTask n))
      else if contains t "save-btn" then
        with_number taskId (fun n => on_app (saveEdit n editInput now))
      else if contains t "cancel-btn" then
        on_app cancelEdit
      else if contains t "task-text" then
        if detail =? 2
        then with_number taskId (fun n => on_app (editTask n))
        else ret tt
      else ret tt
  end.

(** [e.target.closest('.task-item').dataset.taskId], which throws when
    there is no such item. *)
Definition closest_data (t : target) : M page (option string) :=
  match closest_task_item t with
  | Some data => ret data
  | None => throw TypeError
  end.

(** [handleTaskKeypress(e)] *)
Definition handleTaskKeypress (t : target) (key : string)
    (editInput : option string) (now : string) : M page unit :=
  if contains t "task-edit-input" then
    data <- closest_data t ;;
    let taskId := parseInt data in
    if (key =? "Enter")%string then
      with_number taskId (fun n => on_app (saveEdit n editInput now))
    else if (key =? "Escape")%string then on_app cancelEdit
    else ret tt
  else ret tt.

(** [handleTaskChange(e)] *)
Definition handleTaskChange (t : target) (now : string) : M page unit :=
  if contains t "task-checkbox" then
    data <- closest_data t ;;
    with_number (parseInt data) (fun n => on_app (toggleTask n now))
  else ret tt.

(** *** Events *)

(** The events [bindEvents] listens to, each with what the page answers
    while its listener runs, and the removal timer. *)
Inductive event : Type :=
| taskInput_keypress (key : string) (input deadline_input now : string)
| taskInput_input
| addBtn_click (input deadline_input now : string)
| taskList_click (t : target) (detail : Z) (editInput : option string)
    (now : string)
| taskList_keypress (t : target) (key : string) (editInput : option string)
    (now : string)
| taskList_change (t : target) (now : string)
| filterBtn_click (filter : option string)
| clearCompleted_click
| clearAll_click
| confirmYes_click (rendered : bool) (now : string)
| confirmNo_click
| confirmModal_click (on_modal_itself : bool)
| document_keydown (key : string) (ctrlKey metaKey : bool)
| removal_timer (now : string).

(** The listeners of [bindEvents]. *)
Definition listener (e : event) : M page unit :=
  match e with
  | taskInput_keypress key input deadline_input now =>
      if (key =? "Enter")%string
      then on_app (addTask input deadline_input now)
      else ret tt
  | taskInput_input => on_app clearError
  | addBtn_click input deadline_input now =>
      on_app (addTask input deadline_input now)
  | taskList_click t detail editInput now =>
      handleTaskClick t detail editInput now
  | taskList_keypress t key editInput now =>
      handleTaskKeypress t key editInput now
  | taskList_change t now => handleTaskChange t now
  | filterBtn_click filter =>
      match filter with
      | Some f => on_app (setFilter f)
      | None => unmodelled   (* the filter becomes undefined *)
      end
  | clearCompleted_click =>
      confirmAction "Clear Completed Tasks"
        "Are you sure you want to clear all completed tasks?"
        clearing_completed
  | clearAll_click =>
      confirmAction "Clear All Tasks"
        "Are you sure you want to clear all tasks? This action cannot be undone."
        clearing_all
  | confirmYes_click rendered now => executeConfirmedAction rendered now
  | confirmNo_click => hideModal
  | confirmModal_click on_modal_itself =>
      if on_modal_itself then hideModal else ret tt
  | document_keydown key ctrlKey metaKey =>
      handleGlobalKeydown key ctrlKey metaKey
  | removal_timer now => on_app (timeout now)
  end.

Fixpoint listen (es : list event) : M page unit :=
  match es with
  | [] => ret tt
  | e :: es' => listener e ;; listen es'
  end.

(** The page around a new instance: dialog hidden, nothing pending. *)
Definition opened (s : app) : page := mkPage s false "" "" None.

(** The state a computation ends in, when it ends. *)
Definition final {S A} (r : outcome S A) : option S :=
  match r with
  | Returns _ s => Some s
  | Throws _ s => Some s
  | Unmodelled => None
  end.

End Page.

(** ** Further terms *)

Module Terms.
Import JS Eff TodoApp Session Spec Page.

(** The messages [saveEdit] shows for an empty text and [saveTasks] for a
    failed write. *)
Definition EmptyEdit : string := "Task description cannot be empty.".
Definition SaveFailed : string := "Failed to save tasks. Storage might be full.".

(** Every text is a string, as the loader and [addTask] leave them. *)
Definition texts_are_strings (l : list object) : Prop :=
  Forall (fun t => exists y, text t = Some (Str y)) l.

(** [completed] and [completedAt] say the same: false with null, or true
    with a time. *)
Definition coherent (t : object) : Prop :=
  (completed t = Some (Bool false) /\ completedAt t = Some Null)
  \/ (completed t = Some (Bool true) /\ exists x, completedAt t = Some (Str x)).

(** The browser store holds what [saveTasks] writes for the tasks and
    the counter the instance has now. *)
Definition stored (s : app) : Prop :=
  exists now, localStorage s = Some (blob now s).

(** The calls that leave every task at its index. *)
Definition in_place (c : call) : bool :=
  match c with
  | AddTask _ _ _ | ToggleTask _ _ | EditTask _ | SaveEdit _ _ _
  | CancelEdit | SetFilter _ => true
  | DeleteTask _ _ _ | Timeout _ | ClearCompleted _ | ClearAll _ => false
  end.

(** The [k] numbers after [c]. *)
Definition following (c : Z) (k : nat) : list Z :=
  map (fun i => c + Z.of_nat i) (seq 1 k).

(** The events whose listeners can take a task out of the array. *)
Definition removing (e : event) : bool :=
  match e with
  | confirmYes_click _ _ | removal_timer _ => true
  | _ => false
  end.

(** The events that dismiss the dialog without running its action. *)
Definition dismissing (e : event) : bool :=
  match e with
  | confirmNo_click => true
  | confirmModal_click on_modal_itself => on_modal_itself
  | document_keydown key _ _ => (key =? "Escape")%string
  | _ => false
  end.

(** An instance on which an action is pending only while the dialog is
    shown. *)
Definition dialog_consistent (p : page) : Prop :=
  modalShown p = false -> pendingAction p = None.

(** A text of white space only. *)
Fixpoint blank (ws : string) : bool :=
  match ws with
  | EmptyString => true
  | String c r => is_space c && blank r
  end.

(** A text that does not go on with a digit, nor with the letter that
    after a lone 0 announces hexadecimal digits. *)
Definition stops_number (rest : string) : bool :=
  match rest with
  | EmptyString => true
  | String c _ =>
      negb (JSON.is_digit c) && negb ((code c =? 120) || (code c =? 88))%nat
  end.

(** A target inside the item rendered for the task with id [n], a safe
    integer: [renderTask] sets [dataset.taskId] to the id, which stores
    its text, and the text of a safe integer is its decimal digits. *)
Definition within_item (classes : list string) (n : Z) : target :=
  mkTarget classes (Some (Some (JSON.number_to_string n))).

End Terms.

(* ================================================================== *)
(** * Part II: properties *)
(* ================================================================== *)

(** ** The codec: parsing what [JSON.stringify] wrote *)

Module JSONFacts.
Import JS JSON.
Local Open Scope string_scope.

Lemma append_assoc (a b c : string) : (a ++ b) ++ c = a ++ (b ++ c).
Proof. induction a as [|x a IH]; simpl; [reflexivity | now rewrite IH]. Qed.

(** Strings *)

Lemma parse_string_escape (s rest : string) :
  parse_string (escape s ++ String dquote rest) = Ok s rest.
Proof.
  induction s as [|c s IH]; [reflexivity|].
  simpl escape. rewrite append_assoc.
  destruct c as [[] [] [] [] [] [] [] []]; cbn - [parse_string];
    simpl; rewrite IH; reflexivity.
Qed.

Lemma parse_quote (s rest : string) :
  exists body, quote s ++ rest = String dquote body
               /\ parse_string body = Ok s rest.
Proof.
  exists (escape s ++ String dquote rest). split.
  - unfold quote. simpl. now rewrite append_assoc.
  - apply parse_string_escape.
Qed.

(** Numbers *)

Lemma nzhead_no_D0 (d d' : Decimal.uint) : Decimal.nzhead d <> Decimal.D0 d'.
Proof. induction d; simpl; try discriminate; assumption. Qed.

Lemma to_uint_unorm (n : N) : Decimal.unorm (N.to_uint n) = N.to_uint n.
Proof.
  rewrite <- DecimalN.Unsigned.to_of. now rewrite DecimalN.Unsigned.of_to.
Qed.

Lemma to_uint_nonnil (n : N) : N.to_uint n <> Decimal.Nil.
Proof.
  rewrite <- to_uint_unorm. unfold Decimal.unorm.
  destruct (Decimal.nzhead (N.to_uint n)); discriminate.
Qed.

Lemma to_uint_D0 (n : N) (d : Decimal.uint) :
  N.to_uint n = Decimal.D0 d -> d = Decimal.Nil.
Proof.
  intros E. pose proof (to_uint_unorm n) as U. rewrite E in U.
  rewrite DecimalFacts.unorm_D0 in U. unfold Decimal.unorm in U.
  destruct (Decimal.nzhead d) eqn:H;
    try (exfalso; apply (nzhead_no_D0 d d); congruence).
  now injection U.
Qed.

Lemma span_digits_uint (d : Decimal.uint) (rest : string) :
  match rest with EmptyString => true | String c _ => negb (is_digit c) end = true ->
  span_digits (NilEmpty.string_of_uint d ++ rest) = (NilEmpty.string_of_uint d, rest).
Proof.
  intros H. induction d; simpl; try (rewrite IHd; reflexivity).
  destruct rest as [|c r]; [reflexivity|]. simpl.
  apply negb_true_iff in H. now rewrite H.
Qed.

Lemma parse_nat_digits (n : N) (rest : string) :
  ends_number rest = true ->
  parse_nat (digits n ++ rest) = Ok n rest.
Proof.
  intros H. unfold parse_nat, digits.
  pose proof (to_uint_nonnil n) as Hnil.
  pose proof (to_uint_D0 n) as Hzero.
  pose proof (DecimalN.Unsigned.of_to n) as Hof.
  pose proof (NilZero.usu (N.to_uint n) Hnil) as Husu.
  assert (Hc : continues_number rest = false).
  { destruct rest; [reflexivity|]. simpl in H.
    apply andb_true_iff in H. destruct H as [_ H].
    now apply negb_true_iff in H. }
  assert (Hd : match rest with EmptyString => true
               | String c _ => negb (is_digit c) end = true).
  { destruct rest; [reflexivity|]. simpl in H.
    apply andb_true_iff in H. now destruct H. }
  assert (Hs : NilZero.string_of_uint (N.to_uint n)
               = NilEmpty.string_of_uint (N.to_uint n)).
  { destruct (N.to_uint n); try reflexivity. now elim Hnil. }
  rewrite Hs in *. rewrite (span_digits_uint _ _ Hd).
  destruct (N.to_uint n) as [|d|d|d|d|d|d|d|d|d|d] eqn:E;
    try (now elim Hnil);
    try (cbn [NilEmpty.string_of_uint] in *; cbn - [NilZero.uint_of_string N.of_uint];
         rewrite Hc, Husu, Hof; reflexivity).
  rewrite (Hzero d eq_refl) in *.
  cbn - [N.of_uint]. rewrite Hc. now rewrite Hof.
Qed.

Lemma digits_head (n : N) :
  exists c r, digits n = String c r /\ is_digit c = true.
Proof.
  unfold digits. pose proof (to_uint_nonnil n) as Hnil.
  destruct (N.to_uint n); try (now elim Hnil);
    simpl; eexists; eexists; split; reflexivity.
Qed.

Lemma parse_number_string (z : Z) (rest : string) :
  ends_number rest = true ->
  parse_number (number_to_string z ++ rest) = Ok z rest.
Proof.
  intros H. unfold number_to_string.
  destruct (Z.ltb_spec z 0) as [Hz|Hz].
  - cbn [append parse_number]. change (code "-" =? 45)%nat with true. cbv iota.
    rewrite (parse_nat_digits _ _ H). unfold and_then. f_equal.
    rewrite N2Z.inj_abs_N. lia.
  - destruct (digits_head (Z.abs_N z)) as (c & r & E & Hc).
    assert (Hm : (code c =? 45)%nat = false).
    { unfold is_digit in Hc. apply andb_true_iff in Hc. destruct Hc as [Hc _].
      apply Nat.leb_le in Hc. apply Nat.eqb_neq. lia. }
    assert (Hp : parse_number (digits (Z.abs_N z) ++ rest)
                 = and_then (parse_nat (digits (Z.abs_N z) ++ rest))
                     (fun n => Ok (Z.of_N n))).
    { rewrite E. cbn [append]. unfold parse_number. now rewrite Hm. }
    rewrite Hp, (parse_nat_digits _ _ H). unfold and_then. f_equal.
    rewrite N2Z.inj_abs_N. lia.
Qed.

(** Values *)

Lemma stringify_Arr (x : value) (l : list value) :
  stringify (Arr (x :: l)) = "[" ++ stringify x ++ more_elements l.
Proof. reflexivity. Qed.

Lemma stringify_Obj (k : string) (x : value) (ms : list (string * value)) :
  stringify (Obj ((k, x) :: ms))
  = "{" ++ quote k ++ ":" ++ stringify x ++ more_members ms.
Proof. reflexivity. Qed.

Lemma size_Arr (l : list value) : size (Arr l) = S (size_elements l).
Proof. reflexivity. Qed.

Lemma size_Obj (ms : list (string * value)) : size (Obj ms) = S (size_members ms).
Proof. reflexivity. Qed.

Lemma size_pos (v : value) : (1 <= size v)%nat.
Proof. destruct v; simpl; lia. Qed.

Lemma digit_code (c : ascii) : is_digit c = true -> (48 <= code c <= 57)%nat.
Proof.
  unfold is_digit. intros H. apply andb_true_iff in H. destruct H as [H1 H2].
  apply Nat.leb_le in H1. apply Nat.leb_le in H2. lia.
Qed.

(** A number starts with a minus sign or a digit. *)
Lemma number_head (z : Z) :
  exists c r, number_to_string z = String c r
              /\ (code c = 45 \/ 48 <= code c <= 57)%nat.
Proof.
  unfold number_to_string. destruct (z <? 0)%Z.
  - eexists; eexists; split; [reflexivity | left; reflexivity].
  - destruct (digits_head (Z.abs_N z)) as (c & r & E & Hc).
    exists c, r. split; [exact E | right; now apply digit_code].
Qed.

Ltac code_tests H :=
  repeat match goal with
         | |- context [(?n =? ?k)%nat] =>
             let E := fresh in
             assert (E : (n =? k)%nat = false) by (apply Nat.eqb_neq; lia);
             rewrite E; clear E
         end.

Lemma parse_value_number (fuel : nat) (z : Z) (rest : string) :
  ends_number rest = true ->
  parse_value (S fuel) (number_to_string z ++ rest) = Ok (Num z) rest.
Proof.
  intros H. pose proof (parse_number_string z rest H) as P.
  destruct (number_head z) as (c & r & E & Hc). rewrite E in *.
  cbn [append] in *. cbn [parse_value skip_ws].
  assert (W : is_ws c = false).
  { unfold is_ws. destruct Hc as [Hc|Hc]; code_tests Hc; reflexivity. }
  rewrite W. cbv zeta.
  assert (D : ((code c =? 45)%nat || is_digit c) = true).
  { unfold is_digit. destruct Hc as [Hc|Hc].
    - rewrite Hc. reflexivity.
    - apply orb_true_iff. right. apply andb_true_iff.
      split; apply Nat.leb_le; lia. }
  assert (T : forall k, (k = 110 \/ k = 116 \/ k = 102 \/ k = 34 \/ k = 91 \/ k = 123)%nat ->
                        (code c =? k)%nat = false).
  { intros k Hk. apply Nat.eqb_neq. lia. }
  rewrite !T by tauto. rewrite D, P. reflexivity.
Qed.

(** A value's text starts with a character that is neither white space
    nor a closing bracket. *)
Lemma stringify_head (v : value) (rest : string) :
  exists c r, stringify v ++ rest = String c r
              /\ is_ws c = false /\ (code c =? 93)%nat = false.
Proof.
  destruct v as [|[]|z|s|[|x l]|[|[k x] ms]];
    try (eexists; eexists; split; [reflexivity | split; reflexivity]).
  destruct (number_head z) as (c & r & E & Hc).
  exists c, (r ++ rest). simpl stringify. rewrite E. split; [reflexivity|].
  unfold is_ws. split; destruct Hc as [Hc|Hc]; code_tests Hc; reflexivity.
Qed.

Lemma ends_number_more_elements (l : list value) (rest : string) :
  ends_number (more_elements l ++ rest) = true.
Proof. destruct l; reflexivity. Qed.

Lemma ends_number_more_members (ms : list (string * value)) (rest : string) :
  ends_number (more_members ms ++ rest) = true.
Proof. destruct ms as [|[k x] ms]; reflexivity. Qed.

(** With fuel for its size, the parser reads back what [stringify]
    wrote and stops where the text stops. *)
Lemma parse_stringify_fuel (fuel : nat) :
  (forall v rest,
      (size v <= fuel)%nat -> ends_number rest = true ->
      parse_value fuel (stringify v ++ rest) = Ok v rest)
  /\ (forall x l rest,
        (size_elements (x :: l) <= fuel)%nat ->
        parse_elements fuel (stringify x ++ more_elements l ++ rest)
        = Ok (x :: l) rest)
  /\ (forall k x ms rest,
        (size_members ((k, x) :: ms) <= fuel)%nat ->
        parse_members fuel (quote k ++ ":" ++ stringify x ++ more_members ms ++ rest)
        = Ok ((k, x) :: ms) rest).
Proof.
  induction fuel as [|fuel (IHv & IHe & IHm)].
  { repeat split; intros.
    - pose proof (size_pos v). lia.
    - simpl in H. lia.
    - simpl in H. lia. }
  repeat split.
  - intros v rest Hs Hr.
    destruct v as [|[]|z|s|[|x l]|[|[k x] ms]]; try reflexivity.
    + now apply parse_value_number.
    + destruct (parse_quote s rest) as (body & E & P).
      simpl stringify. rewrite E. cbn [parse_value skip_ws].
      change (is_ws dquote) with false. cbv iota zeta.
      change (code dquote) with 34%nat. cbn [Nat.eqb]. now rewrite P.
    + rewrite size_Arr in Hs. rewrite stringify_Arr, !append_assoc.
      cbn [append parse_value skip_ws].
      change (is_ws "[") with false. cbv iota zeta.
      change (code "[") with 91%nat. cbn [Nat.eqb].
      destruct (stringify_head x (more_elements l ++ rest)) as (c & r & E & W & C).
      rewrite E. cbn [skip_ws]. rewrite W, C, <- E.
      rewrite IHe by lia. reflexivity.
    + rewrite size_Obj in Hs. rewrite stringify_Obj, !append_assoc.
      destruct (parse_quote k (":" ++ stringify x ++ more_members ms ++ rest))
        as (body & E & P).
      pose proof (IHm k x ms rest) as Q. rewrite E in *.
      cbn [append parse_value skip_ws].
      change (is_ws "{") with false. cbv iota zeta.
      change (code "{") with 123%nat. cbn [Nat.eqb].
      cbn [skip_ws]. change (is_ws dquote) with false. cbv iota.
      change (code dquote) with 34%nat. cbn [Nat.eqb].
      rewrite Q by lia. reflexivity.
  - intros x l rest Hs. simpl in Hs. cbn [parse_elements].
    rewrite IHv by (lia || apply ends_number_more_elements).
    unfold and_then at 1. destruct l as [|y l].
    + reflexivity.
    + cbn [more_elements]. rewrite !append_assoc.
      unfold more_or_close. cbn [append skip_ws].
      change (is_ws ",") with false. cbv iota.
      change (code ",") with 44%nat. cbn [Nat.eqb].
      rewrite IHe by (simpl; simpl in Hs; lia). reflexivity.
  - intros k x ms rest Hs. simpl in Hs. cbn [parse_members].
    destruct (parse_quote k (":" ++ stringify x ++ more_members ms ++ rest))
      as (body & E & P).
    rewrite E. cbn [skip_ws]. change (is_ws dquote) with false. cbv iota.
    change (code dquote) with 34%nat. cbn [Nat.eqb]. rewrite P.
    unfold and_then at 1. cbn [append skip_ws].
    change (is_ws ":") with false. cbv iota.
    change (code ":") with 58%nat. cbn [Nat.eqb].
    rewrite IHv by (lia || apply ends_number_more_members).
    unfold and_then at 1. destruct ms as [|[k' y] ms].
    + reflexivity.
    + assert (Q : parse_members fuel
                      (quote k' ++ ":" ++ stringify y ++ more_members ms ++ rest)
                    = Ok ((k', y) :: ms) rest)
        by (apply IHm; simpl; simpl in Hs; lia).
      cbn [more_members]. rewrite !append_assoc.
      unfold more_or_close. cbn [append skip_ws] in *.
      change (is_ws ",") with false. cbv iota.
      change (code ",") with 44%nat. cbn [Nat.eqb].
      rewrite Q. reflexivity.
Qed.

(** Induction on a value, through its elements and members. *)
Lemma value_induction (P : value -> Prop) :
  P Null ->
  (forall b, P (Bool b)) ->
  (forall n, P (Num n)) ->
  (forall s, P (Str s)) ->
  (forall l, Forall P l -> P (Arr l)) ->
  (forall ms, Forall (fun m => P (snd m)) ms -> P (Obj ms)) ->
  forall v, P v.
Proof.
  intros HN HB HZ HS HA HO. fix IH 1.
  intros [|b|n|s|l|ms];
    [exact HN | apply HB | apply HZ | apply HS | | ].
  - apply HA. induction l as [|x l IHl]; constructor; [apply IH | exact IHl].
  - apply HO. induction ms as [|[k x] ms IHms]; constructor; [apply IH | exact IHms].
Qed.

Lemma length_append (a b : string) :
  String.length (a ++ b) = (String.length a + String.length b)%nat.
Proof. induction a as [|c a IH]; simpl; [reflexivity | now rewrite IH]. Qed.

Lemma append_empty (a : string) : a ++ "" = a.
Proof. induction a as [|c a IH]; simpl; [reflexivity | now rewrite IH]. Qed.

(** The text of a value is at least as long as the value is big. *)
Lemma size_le_length (v : value) : (size v <= String.length (stringify v))%nat.
Proof.
  induction v as [|b|z|s|l IH|ms IH] using value_induction.
  - simpl. lia.
  - destruct b; simpl; lia.
  - destruct (number_head z) as (c & r & E & _). simpl. rewrite E. simpl. lia.
  - simpl. lia.
  - destruct l as [|x l]; [simpl; lia|].
    rewrite size_Arr, stringify_Arr. inversion IH as [|? ? Hx Hl]; subst.
    cbv beta in Hx.
    assert (H : (size_elements l + 1 <= String.length (more_elements l))%nat).
    { clear Hx IH. induction Hl as [|y l Hy Hl IHl]; simpl; [lia|].
      rewrite length_append. cbv beta in Hy. clear Hl. lia. }
    simpl size_elements. rewrite !length_append. simpl String.length.
    clear IH Hl. lia.
  - destruct ms as [|[k x] ms]; [simpl; lia|].
    rewrite size_Obj, stringify_Obj. inversion IH as [|? ? Hx Hl]; subst.
    simpl in Hx.
    assert (H : (size_members ms + 1 <= String.length (more_members ms))%nat).
    { clear Hx IH. induction Hl as [|[k' y] ms Hy Hl IHl]; simpl; [lia|].
      rewrite !length_append. simpl String.length. rewrite !length_append.
      simpl in Hy. clear Hl. lia. }
    simpl size_members. rewrite !length_append. simpl String.length.
    rewrite !length_append. clear IH Hl. lia.
Qed.

(** [JSON.parse(JSON.stringify(v))] is [v]. *)
Lemma parse_stringify (v : value) : parse (stringify v) = Value v.
Proof.
  unfold parse.
  destruct (parse_stringify_fuel (S (2 * String.length (stringify v)))) as (H & _).
  specialize (H v ""). rewrite append_empty in H.
  rewrite H; [reflexivity | | reflexivity].
  pose proof (size_le_length v). lia.
Qed.

End JSONFacts.

(** ** The parser decides every text of the fragment *)

Module ParserFacts.
Import JS JSON.
Local Open Scope string_scope.

Lemma within_refl (s : string) : within s s.
Proof. split; [lia | tauto]. Qed.

(** Past a character that is not a quote. *)
Lemma shorter_tail (c : ascii) (r : string) :
  (code c =? 34)%nat = false -> shorter r (String c r).
Proof.
  intros Hq. split; [simpl; lia|]. unfold in_fragment. simpl. rewrite Hq.
  intros H. apply andb_true_iff in H. tauto.
Qed.

Lemma shorter_within (a b c : string) : shorter a b -> within b c -> shorter a c.
Proof. intros (L1 & F1) (L2 & F2). split; [lia | tauto]. Qed.

Lemma within_shorter (a b c : string) : within a b -> shorter b c -> shorter a c.
Proof. intros (L1 & F1) (L2 & F2). split; [lia | tauto]. Qed.

Lemma shorter_trans (a b c : string) : shorter a b -> shorter b c -> shorter a c.
Proof. intros (L1 & F1) (L2 & F2). split; [lia | tauto]. Qed.

Lemma shorter_is_within (a b : string) : shorter a b -> within a b.
Proof. intros (L & F). split; [lia | exact F]. Qed.

Lemma ws_not_quote (c : ascii) : is_ws c = true -> (code c =? 34)%nat = false.
Proof.
  unfold is_ws. cbv zeta. intros H. apply Nat.eqb_neq. intros E.
  rewrite E in H. discriminate H.
Qed.

Lemma digit_not_quote (c : ascii) : is_digit c = true -> (code c =? 34)%nat = false.
Proof.
  unfold is_digit. cbv zeta. intros H. apply Nat.eqb_neq. intros E.
  rewrite E in H. discriminate H.
Qed.

Lemma skip_ws_within (s : string) : within (skip_ws s) s.
Proof.
  induction s as [|c r IH]; [apply within_refl|]. simpl.
  destruct (is_ws c) eqn:Hc; [|apply within_refl].
  apply shorter_is_within.
  apply (within_shorter _ r); [exact IH | now apply shorter_tail, ws_not_quote].
Qed.

Lemma hex_value_zero (h : ascii) : (code h =? 48)%nat = true -> hex_value h = Some 0%nat.
Proof.
  intros H. apply Nat.eqb_eq in H. unfold hex_value. cbv zeta. now rewrite H.
Qed.

(** A hex digit is an ordinary character of a string literal. *)
Lemma hex_ordinary (h : ascii) (d : nat) (r : string) :
  hex_value h = Some d ->
  in_fragment_from true (String h r) = in_fragment_from true r.
Proof.
  unfold hex_value. cbv zeta. intros H. cbn [in_fragment_from].
  destruct (Nat.eqb_spec (code h) 92) as [E|_];
    [rewrite E in H; discriminate H|].
  destruct (Nat.eqb_spec (code h) 34) as [E|_];
    [rewrite E in H; discriminate H | reflexivity].
Qed.

(** String literals, from after the opening quote. *)
Lemma parse_string_decides (n : nat) (s : string) :
  (String.length s <= n)%nat ->
  (in_fragment_from true s = true -> parse_string s <> Beyond)
  /\ (forall x rest, parse_string s = Ok x rest ->
        (String.length rest < String.length s)%nat
        /\ (in_fragment_from true s = true -> in_fragment rest = true)).
Proof.
  revert s. induction n as [|n IH]; intros s Hn.
  { destruct s; [|simpl in Hn; lia]. split; discriminate. }
  destruct s as [|c r]; [split; discriminate|].
  simpl in Hn. cbn [parse_string in_fragment_from].
  destruct (code c =? 34)%nat eqn:Hq.
  { assert (Hb : (code c =? 92)%nat = false).
    { apply Nat.eqb_eq in Hq. apply Nat.eqb_neq. lia. }
    rewrite Hb. split; [discriminate|]. intros x rest [= <- <-].
    split; [simpl; lia | tauto]. }
  destruct (code c =? 92)%nat eqn:Hc.
  - destruct r as [|e r']; [split; discriminate|].
    simpl in Hn.
    destruct (simple_escape e).
    + destruct (IH r') as (B & K); [lia|].
      unfold and_then. destruct (parse_string r') as [x rest| |] eqn:P.
      * split; [discriminate|]. intros y rest' [= <- <-].
        destruct (K x rest eq_refl) as (L & F).
        split; [simpl; lia|]. intros G. apply F.
        apply andb_true_iff in G. tauto.
      * split; discriminate.
      * split; [|discriminate]. intros G. exfalso. apply B; [|reflexivity].
        apply andb_true_iff in G. tauto.
    + destruct (code e =? 117)%nat eqn:He; [|split; discriminate].
      destruct r' as [|h1 [|h2 [|h3 [|h4 r'']]]]; try (split; discriminate).
      simpl in Hn.
      destruct (IH r'') as (B & K); [lia|].
      unfold and_then.
      destruct (unicode_escape h1 h2 h3 h4) as [x w| |] eqn:U.
      * assert (G4 : in_fragment_from true
                       (String h1 (String h2 (String h3 (String h4 r''))))
                     = in_fragment_from true r'').
        { unfold unicode_escape in U.
          destruct (hex_value h1) eqn:H1; [|discriminate].
          destruct (hex_value h2) eqn:H2; [|discriminate].
          destruct (hex_value h3) eqn:H3; [|discriminate].
          destruct (hex_value h4) eqn:H4; [|discriminate].
          now rewrite (hex_ordinary h1 _ _ H1), (hex_ordinary h2 _ _ H2),
            (hex_ordinary h3 _ _ H3), (hex_ordinary h4 _ _ H4). }
        destruct (parse_string r'') as [y rest| |] eqn:P.
        -- split; [discriminate|]. intros z rest' [= <- <-].
           destruct (K y rest eq_refl) as (L & F).
           split; [simpl; lia|]. intros G. apply F. rewrite <- G4.
           apply andb_true_iff in G. tauto.
        -- split; discriminate.
        -- split; [|discriminate]. intros G. exfalso. apply B; [|reflexivity].
           rewrite <- G4. apply andb_true_iff in G. tauto.
      * split; discriminate.
      * split; [|discriminate]. intros G. exfalso.
        apply andb_true_iff in G. destruct G as (G & _).
        cbn [escape_beyond] in G. rewrite He in G. simpl andb in G.
        apply negb_true_iff, negb_false_iff in G.
        apply andb_true_iff in G. destruct G as (F1 & F2).
        unfold unicode_escape in U.
        rewrite (hex_value_zero _ F1), (hex_value_zero _ F2) in U.
        destruct (hex_value h3); [|discriminate].
        destruct (hex_value h4); discriminate.
  - destruct (code c <? 32)%nat; [split; discriminate|].
    destruct (IH r) as (B & K); [lia|].
    unfold and_then. destruct (parse_string r) as [x rest| |] eqn:P.
    + split; [discriminate|]. intros y rest' [= <- <-].
      destruct (K x rest eq_refl) as (L & F). split; [simpl; lia | exact F].
    + split; discriminate.
    + split; [|discriminate]. intros G. exfalso. now apply B.
Qed.

(** A literal that follows a quote outside string literals. *)
Lemma parse_literal (q : ascii) (r : string) :
  (code q =? 34)%nat = true ->
  (in_fragment (String q r) = true -> parse_string r <> Beyond)
  /\ (forall x rest, parse_string r = Ok x rest -> shorter rest (String q r)).
Proof.
  intros Hq. destruct (parse_string_decides _ r (le_n _)) as (B & K).
  unfold shorter, in_fragment. cbn [in_fragment_from]. rewrite Hq.
  split; [exact B|]. intros x rest P. destruct (K x rest P) as (L & F).
  split; [simpl; lia | exact F].
Qed.

(** Numbers *)
Lemma span_digits_spec (s d rest : string) :
  span_digits s = (d, rest) ->
  within rest s
  /\ (d <> "" -> shorter rest s)
  /\ (d <> "" -> in_fragment s = true -> continues_number rest = false).
Proof.
  revert d rest. induction s as [|c r IH]; intros d rest; cbn [span_digits].
  { intros [= <- <-]. split; [apply within_refl|]. split; intros H; now elim H. }
  destruct (is_digit c) eqn:Hc.
  - pose proof (digit_not_quote c Hc) as Hq.
    destruct (span_digits r) as (d', rest') eqn:E. intros [= <- <-].
    destruct (IH d' rest' eq_refl) as (W & S & C).
    assert (Sh : shorter rest' (String c r)).
    { apply (within_shorter _ r); [exact W | now apply shorter_tail]. }
    split; [now apply shorter_is_within|]. split; [intros _; exact Sh|].
    intros _ F. unfold in_fragment in F. cbn [in_fragment_from] in F.
    rewrite Hq, Hc in F. cbn [andb] in F.
    apply andb_true_iff in F. destruct F as (F1 & F2).
    destruct d' as [|c' d''].
    + assert (rest' = r) as ->.
      { destruct r as [|c2 r2]; [now injection E|]. simpl in E.
        destruct (is_digit c2); [|now injection E].
        destruct (span_digits r2). discriminate E. }
      now apply negb_true_iff in F1.
    + apply C; [discriminate | exact F2].
  - intros [= <- <-]. split; [apply within_refl|].
    split; intros H; now elim H.
Qed.

Lemma parse_nat_decides (s : string) :
  (in_fragment s = true -> parse_nat s <> Beyond)
  /\ (forall n rest, parse_nat s = Ok n rest -> shorter rest s).
Proof.
  unfold parse_nat. destruct (span_digits s) as (d, rest) eqn:E.
  destruct (span_digits_spec s d rest E) as (W & S & C).
  destruct d as [|c d']; [split; discriminate|].
  destruct (_ && _); [split; discriminate|].
  destruct (continues_number rest) eqn:K.
  - split; [|discriminate].
    intros F. assert (K' : true = false)
      by (apply C; [discriminate | exact F]).
    discriminate K'.
  - destruct (NilZero.uint_of_string (String c d')); [|split; discriminate].
    split; [discriminate|]. intros n rest' [= <- <-]. now apply S.
Qed.

Lemma parse_number_decides (s : string) :
  (in_fragment s = true -> parse_number s <> Beyond)
  /\ (forall z rest, parse_number s = Ok z rest -> shorter rest s).
Proof.
  destruct s as [|c r]; [split; discriminate|]. cbn [parse_number].
  destruct (code c =? 45)%nat eqn:Hm.
  - assert (Hq : (code c =? 34)%nat = false).
    { apply Nat.eqb_eq in Hm. apply Nat.eqb_neq. lia. }
    destruct (parse_nat_decides r) as (B & K). unfold and_then.
    destruct (parse_nat r) as [n rest| |] eqn:P.
    + split; [discriminate|]. intros z rest' [= <- <-].
      apply (shorter_trans _ r); [now apply (K n) | now apply shorter_tail].
    + split; discriminate.
    + split; [|discriminate]. intros F. exfalso. apply B; [|reflexivity].
      now apply (shorter_tail c r).
  - destruct (parse_nat_decides (String c r)) as (B & K). unfold and_then.
    destruct (parse_nat (String c r)) as [n rest| |] eqn:P.
    + split; [discriminate|]. intros z rest' [= <- <-]. now apply (K n).
    + split; discriminate.
    + split; [|discriminate]. intros F. exfalso. now apply (B F).
Qed.

(** Keywords *)
Lemma expect_within (w s rest : string) :
  no_quote w = true -> expect w s = Some rest -> within rest s.
Proof.
  revert s. induction w as [|a w IH]; intros s Hw; simpl.
  - intros [= <-]. apply within_refl.
  - simpl in Hw. apply andb_true_iff in Hw. destruct Hw as (Ha & Hw).
    apply negb_true_iff in Ha.
    destruct s as [|b s']; [discriminate|].
    destruct (Ascii.eqb_spec a b) as [<-|]; [|discriminate]. intros H.
    apply shorter_is_within.
    apply (within_shorter _ s'); [now apply IH | now apply shorter_tail].
Qed.

Lemma keyword_decides (w : string) (v : value) (s : string) :
  no_quote w = true ->
  keyword w v s <> Beyond
  /\ (forall x rest, keyword w v s = Ok x rest -> within rest s).
Proof.
  intros Hw. unfold keyword. destruct (expect w s) as [rest|] eqn:E.
  - split; [discriminate|]. intros x rest' [= <- <-]. now apply (expect_within w).
  - split; discriminate.
Qed.

(** Values *)
Ltac head_of H :=
  match type of H with
  | skip_ws ?s = String ?c ?r =>
      let W := fresh "W" in
      pose proof (skip_ws_within s) as W; rewrite H in W
  end.

Ltac not_quote :=
  apply Nat.eqb_neq;
  repeat match goal with
         | H : (_ =? _)%nat = true |- _ => apply Nat.eqb_eq in H
         | H : (_ =? _)%nat = false |- _ => apply Nat.eqb_neq in H
         end; lia.

Lemma more_or_close_shorter {A} (close : nat) (s : string)
    (more : string -> step (list A)) (l : list A) (rest : string) :
  close <> 34%nat ->
  (forall r l' rest', more r = Ok l' rest' -> shorter rest' r) ->
  more_or_close close s more = Ok l rest -> shorter rest s.
Proof.
  intros Hk Hm. unfold more_or_close.
  destruct (skip_ws s) as [|c r] eqn:E; [discriminate|]. head_of E.
  destruct (code c =? 44)%nat eqn:H1.
  - assert (S : shorter r s).
    { apply (shorter_within _ (String c r)); [|exact W].
      apply shorter_tail. not_quote. }
    intros H. apply (shorter_trans _ r); [now apply (Hm r l) | exact S].
  - destruct (code c =? close)%nat eqn:H2; [|discriminate].
    intros [= <- <-].
    apply (shorter_within _ (String c r)); [|exact W].
    apply shorter_tail. not_quote.
Qed.

Lemma parse_shorter (fuel : nat) :
  (forall s v rest, parse_value fuel s = Ok v rest -> shorter rest s)
  /\ (forall s l rest, parse_elements fuel s = Ok l rest -> shorter rest s)
  /\ (forall s ms rest, parse_members fuel s = Ok ms rest -> shorter rest s).
Proof.
  induction fuel as [|fuel (IHv & IHe & IHm)];
    [repeat split; intros; discriminate|].
  assert (V : forall s v rest, parse_value (S fuel) s = Ok v rest -> shorter rest s).
  { intros s v rest. cbn [parse_value].
    destruct (skip_ws s) as [|c r] eqn:E; [discriminate|]. head_of E.
    cbv zeta.
    destruct (code c =? 110)%nat eqn:T1.
    { intros H. destruct (keyword_decides "ull" Null r eq_refl) as (_ & K).
      apply (within_shorter _ r); [now apply (K v)|].
      apply (shorter_within _ (String c r)); [|exact W].
      apply shorter_tail. not_quote. }
    destruct (code c =? 116)%nat eqn:T2.
    { intros H. destruct (keyword_decides "rue" (Bool true) r eq_refl) as (_ & K).
      apply (within_shorter _ r); [now apply (K v)|].
      apply (shorter_within _ (String c r)); [|exact W].
      apply shorter_tail. not_quote. }
    destruct (code c =? 102)%nat eqn:T3.
    { intros H. destruct (keyword_decides "alse" (Bool false) r eq_refl) as (_ & K).
      apply (within_shorter _ r); [now apply (K v)|].
      apply (shorter_within _ (String c r)); [|exact W].
      apply shorter_tail. not_quote. }
    destruct (code c =? 34)%nat eqn:T4.
    { unfold and_then. destruct (parse_string r) as [x rest'| |] eqn:P;
        try discriminate.
      intros [= <- <-]. destruct (parse_literal c r T4) as (_ & K).
      apply (shorter_within _ (String c r)); [now apply (K x) | exact W]. }
    assert (Sr : shorter r s).
    { apply (shorter_within _ (String c r)); [|exact W].
      now apply shorter_tail. }
    destruct (code c =? 91)%nat eqn:T5.
    { destruct (skip_ws r) as [|c1 r1] eqn:E1; [discriminate|]. head_of E1.
      destruct (code c1 =? 93)%nat eqn:U.
      + intros [= <- <-]. apply (shorter_trans _ r); [|exact Sr].
        apply (shorter_within _ (String c1 r1)); [|exact W0].
        apply shorter_tail. not_quote.
      + unfold and_then.
        destruct (parse_elements fuel (String c1 r1)) as [l rest'| |] eqn:P;
          try discriminate.
        intros [= <- <-]. apply (shorter_trans _ r); [|exact Sr].
        apply (shorter_within _ (String c1 r1)); [now apply (IHe _ l) | exact W0]. }
    destruct (code c =? 123)%nat eqn:T6.
    { destruct (skip_ws r) as [|c1 r1] eqn:E1; [discriminate|]. head_of E1.
      destruct (code c1 =? 125)%nat eqn:U.
      + intros [= <- <-]. apply (shorter_trans _ r); [|exact Sr].
        apply (shorter_within _ (String c1 r1)); [|exact W0].
        apply shorter_tail. not_quote.
      + unfold and_then.
        destruct (parse_members fuel (String c1 r1)) as [l rest'| |] eqn:P;
          try discriminate.
        intros [= <- <-]. apply (shorter_trans _ r); [|exact Sr].
        apply (shorter_within _ (String c1 r1)); [now apply (IHm _ l) | exact W0]. }
    destruct (_ || _); [|discriminate]. unfold and_then.
    destruct (parse_number (String c r)) as [z rest'| |] eqn:P;
      try discriminate.
    intros [= <- <-].
    destruct (parse_number_decides (String c r)) as (_ & K).
    apply (shorter_within _ (String c r)); [now apply (K z) | exact W]. }
  split; [exact V|]. split.
  - intros s l rest. cbn [parse_elements]. unfold and_then.
    destruct (parse_value fuel s) as [x r| |] eqn:P; try discriminate.
    destruct (more_or_close 93 r (parse_elements fuel)) as [l' rest'| |] eqn:Q;
      try discriminate.
    intros [= <- <-].
    apply (shorter_trans _ r); [|now apply (IHv _ x)].
    apply (more_or_close_shorter 93 r (parse_elements fuel) l');
      [lia | exact IHe | exact Q].
  - intros s ms rest. cbn [parse_members].
    destruct (skip_ws s) as [|q r] eqn:E; [discriminate|]. head_of E.
    destruct (code q =? 34)%nat eqn:Hq; [|discriminate]. unfold and_then.
    destruct (parse_string r) as [k r1| |] eqn:P; try discriminate.
    destruct (parse_literal q r Hq) as (_ & K).
    pose proof (K k r1 P) as S1.
    destruct (skip_ws r1) as [|c r2] eqn:E1; [discriminate|]. head_of E1.
    destruct (code c =? 58)%nat eqn:Hc; [|discriminate].
    destruct (parse_value fuel r2) as [x r3| |] eqn:Pv; try discriminate.
    destruct (more_or_close 125 r3 (parse_members fuel)) as [ms' rest'| |] eqn:Q;
      try discriminate.
    intros [= <- <-].
    apply (shorter_trans _ r3);
      [apply (more_or_close_shorter 125 r3 (parse_members fuel) ms');
       [lia | exact IHm | exact Q]|].
    apply (shorter_trans _ r2); [now apply (IHv _ x)|].
    apply (shorter_trans _ r1);
      [apply (shorter_within _ (String c r2)); [|exact W0];
       apply shorter_tail; not_quote|].
    apply (shorter_within _ (String q r)); [exact S1 | exact W].
Qed.

Lemma more_or_close_decides {A} (close : nat) (s : string)
    (more : string -> step (list A)) :
  in_fragment s = true ->
  (forall r, shorter r s -> in_fragment r = true -> more r <> Beyond) ->
  more_or_close close s more <> Beyond.
Proof.
  intros F Hm. unfold more_or_close.
  destruct (skip_ws s) as [|c r] eqn:E; [discriminate|]. head_of E.
  destruct (code c =? 44)%nat eqn:H1.
  - assert (S : shorter r s).
    { apply (shorter_within _ (String c r)); [|exact W].
      apply shorter_tail. not_quote. }
    apply Hm; [exact S | now apply S].
  - destruct (code c =? close)%nat; discriminate.
Qed.

(** With fuel for twice its length, a text of the fragment is parsed to
    the end or rejected. *)
Lemma parse_decides (fuel : nat) :
  (forall s, (2 * String.length s < fuel)%nat -> in_fragment s = true ->
             parse_value fuel s <> Beyond)
  /\ (forall s, (2 * String.length s + 1 < fuel)%nat -> in_fragment s = true ->
                parse_elements fuel s <> Beyond)
  /\ (forall s, (2 * String.length s + 1 < fuel)%nat -> in_fragment s = true ->
                parse_members fuel s <> Beyond).
Proof.
  induction fuel as [|fuel (IHv & IHe & IHm)];
    [repeat split; intros; lia|].
  destruct (parse_shorter fuel) as (Sv & Se & Sm).
  split; [|split].
  - intros s Hf F. cbn [parse_value].
    destruct (skip_ws s) as [|c r] eqn:E; [discriminate|]. head_of E.
    pose proof (proj2 W F) as Fc. destruct W as (Lc & _). simpl in Lc.
    cbv zeta.
    destruct (code c =? 110)%nat eqn:T1; [now apply keyword_decides|].
    destruct (code c =? 116)%nat eqn:T2; [now apply keyword_decides|].
    destruct (code c =? 102)%nat eqn:T3; [now apply keyword_decides|].
    destruct (code c =? 34)%nat eqn:T4.
    { unfold and_then. destruct (parse_literal c r T4) as (B & _).
      destruct (parse_string r); [discriminate | discriminate | now elim B]. }
    pose proof (proj2 (shorter_tail c r T4) Fc) as Fr.
    destruct (code c =? 91)%nat eqn:T5.
    { destruct (skip_ws r) as [|c1 r1] eqn:E1; [discriminate|]. head_of E1.
      destruct (code c1 =? 93)%nat; [discriminate|]. unfold and_then.
      pose proof (IHe (String c1 r1)) as B.
      destruct (parse_elements fuel (String c1 r1));
        [discriminate | discriminate|].
      elim B; [|now apply W|reflexivity].
      destruct W as (L0 & _). lia. }
    destruct (code c =? 123)%nat eqn:T6.
    { destruct (skip_ws r) as [|c1 r1] eqn:E1; [discriminate|]. head_of E1.
      destruct (code c1 =? 125)%nat; [discriminate|]. unfold and_then.
      pose proof (IHm (String c1 r1)) as B.
      destruct (parse_members fuel (String c1 r1));
        [discriminate | discriminate|].
      elim B; [|now apply W|reflexivity].
      destruct W as (L0 & _). lia. }
    destruct (_ || _); [|discriminate]. unfold and_then.
    destruct (parse_number_decides (String c r)) as (B & _).
    destruct (parse_number (String c r));
      [discriminate | discriminate | now elim B].
  - intros s Hf F. cbn [parse_elements]. unfold and_then.
    pose proof (IHv s) as B.
    destruct (parse_value fuel s) as [x r| |] eqn:P;
      [|discriminate|elim B; [lia | exact F | reflexivity]].
    destruct (Sv _ _ _ P) as (Lr & Fr).
    assert (Q : more_or_close 93 r (parse_elements fuel) <> Beyond).
    { apply more_or_close_decides; [now apply Fr|].
      intros r' (L' & _) F'. apply IHe; [lia | exact F']. }
    destruct (more_or_close 93 r (parse_elements fuel));
      [discriminate | discriminate | now elim Q].
  - intros s Hf F. cbn [parse_members].
    destruct (skip_ws s) as [|q r] eqn:E; [discriminate|]. head_of E.
    pose proof (proj2 W F) as Fq. destruct W as (Lq & _). simpl in Lq.
    destruct (code q =? 34)%nat eqn:Hq; [|discriminate]. unfold and_then.
    destruct (parse_literal q r Hq) as (B & K).
    destruct (parse_string r) as [k r1| |] eqn:P;
      [|discriminate|now elim B].
    destruct (K k r1 eq_refl) as (L1 & F1). simpl in L1.
    destruct (skip_ws r1) as [|c r2] eqn:E1; [discriminate|]. head_of E1.
    destruct (code c =? 58)%nat eqn:Hc; [|discriminate].
    assert (S2 : shorter r2 r1).
    { apply (shorter_within _ (String c r2)); [|exact W].
      apply shorter_tail. not_quote. }
    destruct S2 as (L2 & F2).
    pose proof (IHv r2) as Bv.
    destruct (parse_value fuel r2) as [x r3| |] eqn:Pv;
      [|discriminate|elim Bv; [lia | tauto | reflexivity]].
    destruct (Sv _ _ _ Pv) as (L3 & F3).
    assert (Q : more_or_close 125 r3 (parse_members fuel) <> Beyond).
    { apply more_or_close_decides; [tauto|].
      intros r' (L' & _) F'. apply IHm; [lia | exact F']. }
    destruct (more_or_close 125 r3 (parse_members fuel));
      [discriminate | discriminate | now elim Q].
Qed.

Lemma parse_in_fragment (text : string) :
  in_fragment text = true -> parse text <> Unsupported.
Proof.
  intros F. unfold parse.
  destruct (parse_decides (S (2 * String.length text))) as (B & _).
  specialize (B text (Nat.lt_succ_diag_r _) F).
  destruct (parse_value _ text) as [v rest| |];
    [destruct (skip_ws rest); discriminate | discriminate | now elim B].
Qed.

End ParserFacts.

(** ** The parser rejects what the grammar rejects *)

Module GrammarFacts.
Import JS JSON.
Local Open Scope string_scope.

Lemma parse_string_scan (n : nat) (s : string) :
  (String.length s <= n)%nat ->
  agrees (parse_string s) (found (scan_string s)).
Proof.
  revert s. induction n as [|n IH]; intros s Hn.
  { destruct s; [reflexivity | simpl in Hn; lia]. }
  destruct s as [|c r]; [reflexivity|].
  simpl in Hn. cbn [parse_string scan_string].
  destruct (code c =? 34)%nat; [reflexivity|].
  destruct (code c =? 92)%nat.
  - destruct r as [|e r']; [reflexivity|]. simpl in Hn.
    destruct (simple_escape e).
    + assert (H : agrees (parse_string r') (found (scan_string r')))
        by (apply IH; lia).
      unfold and_then. destruct (parse_string r'); exact H.
    + destruct (code e =? 117)%nat; [|reflexivity].
      destruct r' as [|h1 [|h2 [|h3 [|h4 r'']]]]; try reflexivity.
      simpl in Hn.
      assert (H : agrees (parse_string r'') (found (scan_string r'')))
        by (apply IH; lia).
      unfold unicode_escape.
      destruct (hex_value h1); [|reflexivity].
      destruct (hex_value h2); [|reflexivity].
      destruct (hex_value h3); [|reflexivity].
      destruct (hex_value h4); [|reflexivity].
      destruct (_ && _)%nat; [|exact I].
      unfold and_then. destruct (parse_string r''); exact H.
  - destruct (code c <? 32)%nat; [reflexivity|].
    assert (H : agrees (parse_string r) (found (scan_string r)))
      by (apply IH; lia).
    unfold and_then. destruct (parse_string r); exact H.
Qed.

Lemma uint_of_digits (s d rest : string) :
  span_digits s = (d, rest) -> NilEmpty.uint_of_string d <> None.
Proof.
  revert d rest. induction s as [|c r IH]; intros d rest; cbn [span_digits].
  { intros [= <- <-]. discriminate. }
  destruct (is_digit c) eqn:Hc; [|intros [= <- <-]; discriminate].
  destruct (span_digits r) as (d', rest') eqn:E. intros [= <- <-].
  specialize (IH d' rest' eq_refl).
  cbn [NilEmpty.uint_of_string].
  destruct (NilEmpty.uint_of_string d') as [u|]; [|now elim IH].
  clear - Hc.
  destruct c as [[] [] [] [] [] [] [] []]; try discriminate Hc; discriminate.
Qed.

Lemma parse_nat_scan (s : string) :
  match parse_nat s with
  | Ok _ rest => scan_integer s = Some rest /\ continues_number rest = false
  | Bad => scan_integer s = None
  | Beyond => True
  end.
Proof.
  unfold parse_nat, scan_integer.
  destruct (span_digits s) as (d, rest) eqn:E.
  pose proof (uint_of_digits s d rest E) as U.
  destruct d as [|c d']; [reflexivity|].
  destruct (_ && _); [reflexivity|].
  destruct (continues_number rest) eqn:K; [exact I|].
  unfold NilZero.uint_of_string.
  destruct (NilEmpty.uint_of_string (String c d'));
    [split; [reflexivity | exact K] | now elim U].
Qed.

Lemma scan_past_integer (rest : string) :
  continues_number rest = false ->
  scan_fraction rest = Some rest /\ scan_exponent rest = Some rest.
Proof.
  destruct rest as [|c r]; [now split|]. unfold continues_number.
  cbv zeta. intros H.
  apply orb_false_iff in H. destruct H as (H & H3).
  apply orb_false_iff in H. destruct H as (H1 & H2).
  unfold scan_fraction, scan_exponent. now rewrite H1, H2, H3.
Qed.

Lemma parse_number_scan (s : string) :
  agrees (parse_number s) (found (scan_number s)).
Proof.
  unfold parse_number, scan_number.
  destruct s as [|c r]; [reflexivity|].
  destruct (code c =? 45)%nat.
  - pose proof (parse_nat_scan r) as H. unfold and_then.
    destruct (parse_nat r) as [n rest| |].
    + destruct H as (-> & K).
      destruct (scan_past_integer rest K) as (-> & ->). reflexivity.
    + now rewrite H.
    + exact I.
  - pose proof (parse_nat_scan (String c r)) as H. unfold and_then.
    destruct (parse_nat (String c r)) as [n rest| |].
    + destruct H as (-> & K).
      destruct (scan_past_integer rest K) as (-> & ->). reflexivity.
    + now rewrite H.
    + exact I.
Qed.

Lemma keyword_scan (w : string) (v : value) (s : string) :
  agrees (keyword w v s) (found (expect w s)).
Proof. unfold keyword. destruct (expect w s); reflexivity. Qed.

Lemma more_or_close_scan {A} (close : nat) (s : string)
    (more : string -> step (list A)) (scan_more : string -> step unit) :
  (forall r, agrees (more r) (scan_more r)) ->
  agrees (more_or_close close s more) (scan_more_or_close close s scan_more).
Proof.
  intros H. unfold more_or_close, scan_more_or_close.
  destruct (skip_ws s) as [|c r]; [reflexivity|].
  destruct (code c =? 44)%nat; [apply H|].
  destruct (code c =? close)%nat; reflexivity.
Qed.

Lemma agrees_then {A B} (p : step A) (g : step unit)
    (k : A -> string -> step B) (j : unit -> string -> step unit) :
  agrees p g ->
  (forall a rest, agrees (k a rest) (j tt rest)) ->
  agrees (and_then p k) (and_then g j).
Proof.
  intros H K. destruct p as [a rest| |]; simpl in H;
    [subst g; apply K | subst g; reflexivity | exact I].
Qed.

Lemma parse_scan (fuel : nat) :
  (forall s, agrees (parse_value fuel s) (scan_value fuel s))
  /\ (forall s, agrees (parse_elements fuel s) (scan_elements fuel s))
  /\ (forall s, agrees (parse_members fuel s) (scan_members fuel s)).
Proof.
  induction fuel as [|fuel (IHv & IHe & IHm)]; [now repeat split|].
  split; [|split]; intros s.
  - cbn [parse_value scan_value].
    destruct (skip_ws s) as [|c r]; [reflexivity|]. cbv zeta.
    destruct (code c =? 110)%nat; [apply keyword_scan|].
    destruct (code c =? 116)%nat; [apply keyword_scan|].
    destruct (code c =? 102)%nat; [apply keyword_scan|].
    destruct (code c =? 34)%nat.
    { pose proof (parse_string_scan _ r (Nat.le_refl _)) as H.
      unfold and_then. destruct (parse_string r); exact H. }
    destruct (code c =? 91)%nat.
    { destruct (skip_ws r) as [|c1 r1]; [reflexivity|].
      destruct (code c1 =? 93)%nat; [reflexivity|].
      pose proof (IHe (String c1 r1)) as H. unfold and_then.
      destruct (parse_elements fuel (String c1 r1)); exact H. }
    destruct (code c =? 123)%nat.
    { destruct (skip_ws r) as [|c1 r1]; [reflexivity|].
      destruct (code c1 =? 125)%nat; [reflexivity|].
      pose proof (IHm (String c1 r1)) as H. unfold and_then.
      destruct (parse_members fuel (String c1 r1)); exact H. }
    destruct (_ || _); [|reflexivity].
    pose proof (parse_number_scan (String c r)) as H.
    unfold and_then. destruct (parse_number (String c r)); exact H.
  - cbn [parse_elements scan_elements].
    apply agrees_then; [apply IHv|]. intros x r.
    pose proof (more_or_close_scan 93 r (parse_elements fuel)
                  (scan_elements fuel) IHe) as H.
    unfold and_then.
    destruct (more_or_close 93 r (parse_elements fuel)); exact H.
  - cbn [parse_members scan_members].
    destruct (skip_ws s) as [|q r]; [reflexivity|].
    destruct (code q =? 34)%nat; [|reflexivity].
    apply agrees_then; [apply (parse_string_scan _ r (Nat.le_refl _))|].
    intros k r1.
    destruct (skip_ws r1) as [|c r2]; [reflexivity|].
    destruct (code c =? 58)%nat; [|reflexivity].
    apply agrees_then; [apply IHv|]. intros x r3.
    pose proof (more_or_close_scan 125 r3 (parse_members fuel)
                  (scan_members fuel) IHm) as H.
    unfold and_then.
    destruct (more_or_close 125 r3 (parse_members fuel)); exact H.
Qed.

(** [JSON.parse] throws exactly on the texts that are not JSON texts. *)
Lemma parse_malformed (text : string) :
  parse text = Malformed <-> grammatical text = false.
Proof.
  unfold parse.
  destruct (parse_scan (S (2 * String.length text))) as (H & _).
  specialize (H text). unfold agrees in H.
  destruct (parse_value _ text) as [v rest| |].
  - unfold grammatical. rewrite H.
    destruct (skip_ws rest); split; (discriminate || reflexivity).
  - unfold grammatical. rewrite H. now split.
  - destruct (grammatical text); split; (discriminate || reflexivity).
Qed.

Lemma parse_value_grammatical (text : string) (v : value) :
  parse text = Value v -> grammatical text = true.
Proof.
  intros H. destruct (grammatical text) eqn:G; [reflexivity|].
  apply parse_malformed in G. rewrite G in H. discriminate.
Qed.

End GrammarFacts.

(** ** Objects and arrays *)

Module JSFacts.
Import JS.

Lemma lookup_app_last (k k' : string) (v : value) (ms : list (string * value)) :
  lookup k' (ms ++ [(k, v)])
  = if (k =? k')%string then Some v else lookup k' ms.
Proof.
  induction ms as [|[k0 v0] ms IH]; simpl.
  - reflexivity.
  - rewrite IH. destruct (k =? k')%string; reflexivity.
Qed.

Lemma lookup_replace (k k' : string) (v : value) (ms : list (string * value)) :
  lookup k' (map (fun m => if (fst m =? k)%string then (k, v) else m) ms)
  = if (k =? k')%string
    then (if has_key k ms then Some v else None)
    else lookup k' ms.
Proof.
  induction ms as [|[k0 v0] ms IH]; simpl.
  - destruct (k =? k')%string; reflexivity.
  - rewrite IH. destruct (String.eqb_spec k k') as [->|Hk].
    + destruct (String.eqb_spec k0 k') as [->|Hk0]; simpl.
      * rewrite String.eqb_refl. destruct (has_key k' ms); reflexivity.
      * destruct (has_key k' ms); [reflexivity|].
        apply String.eqb_neq in Hk0. now rewrite Hk0.
    + destruct (String.eqb_spec k0 k) as [->|Hk0]; simpl.
      * apply String.eqb_neq in Hk. now rewrite Hk.
      * reflexivity.
Qed.

(** Reading back what was assigned. *)
Lemma lookup_assign_same (k : string) (v : value) (ms : list (string * value)) :
  lookup k (assign k v ms) = Some v.
Proof.
  unfold assign. destruct (has_key k ms) eqn:H.
  - rewrite lookup_replace, String.eqb_refl, H. reflexivity.
  - rewrite lookup_app_last, String.eqb_refl. reflexivity.
Qed.

(** An assignment leaves the other properties alone. *)
Lemma lookup_assign_other (k k' : string) (v : value) (ms : list (string * value)) :
  k <> k' -> lookup k' (assign k v ms) = lookup k' ms.
Proof.
  intros Hk. apply String.eqb_neq in Hk. unfold assign.
  destruct (has_key k ms).
  - now rewrite lookup_replace, Hk.
  - now rewrite lookup_app_last, Hk.
Qed.

Lemma findIndex_absent {A} (p : A -> bool) (a : list A) :
  (forall x, In x a -> p x = false) -> findIndex p a = -1.
Proof.
  induction a as [|x a IH]; simpl; [reflexivity|]. intros H.
  rewrite (H x) by now left. rewrite IH by (intros; apply H; now right).
  reflexivity.
Qed.

(** The index [findIndex] answers is that of the first element that
    passes. *)
Lemma findIndex_first {A} (p : A -> bool) (before after : list A) (x : A) :
  (forall y, In y before -> p y = false) -> p x = true ->
  findIndex p (before ++ x :: after) = Z.of_nat (List.length before).
Proof.
  intros Hb Hx. induction before as [|y before IH]; simpl.
  - now rewrite Hx.
  - rewrite (Hb y) by now left. rewrite IH by (intros; apply Hb; now right).
    destruct (Z.ltb_spec (Z.of_nat (List.length before)) 0); lia.
Qed.

Lemma splice1_middle {A} (before after : list A) (x : A) :
  splice1 (List.length before) (before ++ x :: after) = before ++ after.
Proof. induction before as [|y before IH]; simpl; [reflexivity | now rewrite IH]. Qed.

Lemma find_first {A} (p : A -> bool) (before after : list A) (x : A) :
  (forall y, In y before -> p y = false) -> p x = true ->
  find p (before ++ x :: after) = Some x.
Proof.
  intros Hb Hx. induction before as [|y before IH]; simpl.
  - now rewrite Hx.
  - rewrite (Hb y) by now left. apply IH. intros; apply Hb; now right.
Qed.

(** Where [find] found its element. *)
Lemma find_split {A} (p : A -> bool) (a : list A) (x : A) :
  find p a = Some x ->
  exists before after,
    a = before ++ x :: after /\ p x = true
    /\ (forall y, In y before -> p y = false).
Proof.
  induction a as [|y a IH]; simpl; [discriminate|].
  destruct (p y) eqn:Hy.
  - intros [= ->]. exists [], a. repeat split; [assumption | intros ? []].
  - intros H. destruct (IH H) as (before & after & -> & Hx & Hb).
    exists (y :: before), after. repeat split; [assumption|].
    intros z [<-|Hz]; [assumption | now apply Hb].
Qed.

Lemma update_first_first {A} (p : A -> bool) (f : A -> A)
    (before after : list A) (x : A) :
  (forall y, In y before -> p y = false) -> p x = true ->
  update_first p f (before ++ x :: after) = before ++ f x :: after.
Proof.
  intros Hb Hx. induction before as [|y before IH]; simpl.
  - now rewrite Hx.
  - rewrite (Hb y) by now left. rewrite IH by (intros; apply Hb; now right).
    reflexivity.
Qed.

End JSFacts.

(** ** The methods, one at a time *)

Module AppFacts.
Import JS Eff TodoApp Session Spec JSFacts.
Local Open Scope eff_scope.

(** Unfolds the monad and the field writes under a method body. *)
Ltac eff :=
  repeat (progress
    (unfold bind, ret, get, modify, throw, unmodelled, try_catch, lift,
       set_tasks, set_currentFilter, set_editingTaskId, set_taskIdCounter,
       set_inputError, set_timers, set_localStorage, set_console,
       showError, clearError, console_error,
       localStorage_getItem, localStorage_setItem, member;
     cbn [negb]; cbv beta iota zeta)).

Lemma saveTasks_saved (now : string) (s : app) :
  saveTasks now s = Returns tt (saved now s).
Proof.
  unfold saveTasks, saved, blob. eff.
  destruct (quota s <? _)%nat; reflexivity.
Qed.

Lemma saved_tasks now s : tasks (saved now s) = tasks s.
Proof. unfold saved. destruct (_ <? _)%nat; reflexivity. Qed.

Lemma saved_taskIdCounter now s : taskIdCounter (saved now s) = taskIdCounter s.
Proof. unfold saved. destruct (_ <? _)%nat; reflexivity. Qed.

Lemma saved_currentFilter now s : currentFilter (saved now s) = currentFilter s.
Proof. unfold saved. destruct (_ <? _)%nat; reflexivity. Qed.

Lemma saved_editingTaskId now s : editingTaskId (saved now s) = editingTaskId s.
Proof. unfold saved. destruct (_ <? _)%nat; reflexivity. Qed.

Lemma saved_timers now s : timers (saved now s) = timers s.
Proof. unfold saved. destruct (_ <? _)%nat; reflexivity. Qed.

Lemma saved_quota now s : quota (saved now s) = quota s.
Proof. unfold saved. destruct (_ <? _)%nat; reflexivity. Qed.


Create Rewrite HintDb saved.
#[global] Hint Rewrite saved_tasks saved_taskIdCounter saved_currentFilter
  saved_editingTaskId saved_timers saved_quota : saved.

(** *** Filtering *)

Lemma existsb_none {A} (p : A -> bool) (l : list A) :
  (forall x, In x l -> p x = false) -> existsb p l = false.
Proof.
  intros H. destruct (existsb p l) eqn:E; [|reflexivity].
  apply existsb_exists in E. destruct E as (x & Hx & Hp).
  rewrite (H x Hx) in Hp. discriminate.
Qed.

Lemma existsb_some {A} (p : A -> bool) (l : list A) :
  (exists x, In x l /\ p x = true) -> existsb p l = true.
Proof. intros H. now apply existsb_exists. Qed.

Lemma filter_selects {A} (p : A -> bool) (l : list A) : selects p l (filter p l).
Proof.
  induction l as [|x l IH]; simpl; [constructor|].
  destruct (p x) eqn:H; now constructor.
Qed.

(** What [selects] pins down: membership and order. *)
Lemma selects_filter {A} (p : A -> bool) (l l' : list A) :
  selects p l l' -> l' = filter p l.
Proof.
  induction 1 as [|x l l' Hx _ IH|x l l' Hx _ IH]; simpl;
    rewrite ?Hx; congruence.
Qed.

(** *** Completing *)

Lemma toggle_completed (now : string) (t : object) :
  completed (toggle now t) = Some (Bool (negb (is_completed t))).
Proof.
  unfold toggle, completed, is_completed.
  rewrite lookup_assign_other by discriminate.
  apply lookup_assign_same.
Qed.

Lemma toggle_completedAt (now : string) (t : object) :
  completedAt (toggle now t)
  = Some (if is_completed t then Null else Str now).
Proof.
  unfold toggle, completedAt, is_completed, completed.
  rewrite lookup_assign_same, lookup_assign_same. simpl.
  destruct (truthy' (lookup "completed" t)); reflexivity.
Qed.

Lemma toggle_id (now : string) (t : object) : id (toggle now t) = id t.
Proof.
  unfold toggle, id. now rewrite !lookup_assign_other by discriminate.
Qed.

Lemma toggle_text (now : string) (t : object) : text (toggle now t) = text t.
Proof.
  unfold toggle, text. now rewrite !lookup_assign_other by discriminate.
Qed.


Lemma toggleTask_found (taskId : Z) (now : string) (s : app) (t : object) :
  find (has_id taskId) (tasks s) = Some t ->
  toggleTask taskId now s
  = Returns tt (saved now (with_tasks
                  (update_first (has_id taskId) (toggle now) (tasks s)) s)).
Proof.
  intros H. unfold toggleTask. eff. rewrite H. eff.
  apply saveTasks_saved.
Qed.

Lemma toggleTask_absent (taskId : Z) (now : string) (s : app) :
  find (has_id taskId) (tasks s) = None ->
  toggleTask taskId now s = Returns tt s.
Proof. intros H. unfold toggleTask. eff. now rewrite H. Qed.

Lemma find_update_first {A} (p : A -> bool) (f : A -> A) (l : list A) (x : A) :
  find p l = Some x -> p (f x) = true ->
  find p (update_first p f l) = Some (f x).
Proof.
  intros H Hf. destruct (find_split p l x H) as (before & after & -> & Hx & Hb).
  rewrite update_first_first by assumption. now apply find_first.
Qed.

(** *** Deleting *)

Lemma remove_at_eq (taskIndex : nat) (now : string) (s : app) :
  remove_at taskIndex now s
  = Returns tt (saved now (with_tasks (splice1 taskIndex (tasks s)) s)).
Proof. unfold remove_at. eff. apply saveTasks_saved. Qed.

Lemma deleteTask_absent (taskId : Z) (rendered : bool) (now : string) (s : app) :
  (forall t, In t (tasks s) -> has_id taskId t = false) ->
  deleteTask taskId rendered now s = Returns tt s.
Proof.
  intros H. unfold deleteTask. eff.
  now rewrite (findIndex_absent _ _ H).
Qed.

Lemma deleteTask_now (taskId : Z) (now : string) (s : app)
    (before after : list object) (t : object) :
  tasks s = before ++ t :: after ->
  has_id taskId t = true ->
  (forall u, In u before -> has_id taskId u = false) ->
  deleteTask taskId false now s
  = Returns tt (saved now (with_tasks (before ++ after) s)).
Proof.
  intros E Ht Hb. unfold deleteTask. eff.
  rewrite E, (findIndex_first _ _ _ _ Hb Ht).
  destruct (Z.gtb_spec (Z.of_nat (List.length before)) (-1)); [|lia].
  rewrite Nat2Z.id, remove_at_eq, E, splice1_middle. reflexivity.
Qed.

Lemma deleteTask_later (taskId : Z) (now : string) (s : app)
    (before after : list object) (t : object) :
  tasks s = before ++ t :: after ->
  has_id taskId t = true ->
  (forall u, In u before -> has_id taskId u = false) ->
  deleteTask taskId true now s
  = Returns tt (with_timers (timers s ++ [List.length before]) s).
Proof.
  intros E Ht Hb. unfold deleteTask. eff.
  rewrite E, (findIndex_first _ _ _ _ Hb Ht).
  destruct (Z.gtb_spec (Z.of_nat (List.length before)) (-1)); [|lia].
  now rewrite Nat2Z.id.
Qed.

Lemma timeout_eq (now : string) (s : app) :
  timeout now s
  = Returns tt
      match timers s with
      | [] => s
      | taskIndex :: later =>
          saved now (with_tasks (splice1 taskIndex (tasks s)) (with_timers later s))
      end.
Proof.
  unfold timeout. eff. destruct (timers s); [reflexivity|].
  eff. now rewrite remove_at_eq.
Qed.

(** *** Loading *)

Lemma loadTasks_missing (s : app) :
  localStorage s = None -> loadTasks s = Returns tt s.
Proof. intros H. unfold loadTasks. eff. now rewrite H. Qed.

Lemma loadTasks_empty (s : app) :
  localStorage s = Some "" -> loadTasks s = Returns tt s.
Proof. intros H. unfold loadTasks. eff. now rewrite H. Qed.

Lemma loadTasks_malformed (s : app) (text : string) :
  localStorage s = Some text -> JSON.parse text = JSON.Malformed ->
  text <> "" ->
  loadTasks s = Returns tt (recovered s).
Proof.
  intros H P E. apply String.eqb_neq in E.
  unfold loadTasks, JSON_parse. eff. rewrite H, E, P. reflexivity.
Qed.

Lemma loadTasks_unsupported (s : app) (text : string) :
  localStorage s = Some text -> JSON.parse text = JSON.Unsupported ->
  text <> "" ->
  loadTasks s = Unmodelled.
Proof.
  intros H P E. apply String.eqb_neq in E.
  unfold loadTasks, JSON_parse. eff. rewrite H, E, P. reflexivity.
Qed.

Lemma loadTasks_value (s : app) (text : string) (data : value) :
  localStorage s = Some text -> JSON.parse text = JSON.Value data ->
  loadTasks s = Returns tt (hydrated data s).
Proof.
  intros H P.
  assert (E : (text =? "")%string = false).
  { apply String.eqb_neq. intros ->. discriminate P. }
  unfold loadTasks, JSON_parse, hydrated. eff. rewrite H, E, P.
  destruct data; try reflexivity;
    eff; destruct (or_else _ _); reflexivity.
Qed.

(** [loadTasks] lets no exception out. *)
Lemma loadTasks_catches (s : app) (e : error) (s' : app) :
  loadTasks s <> Throws e s'.
Proof.
  destruct (localStorage s) as [text|] eqn:H;
    [|now rewrite loadTasks_missing].
  destruct (String.eqb_spec text "") as [->|E];
    [now rewrite loadTasks_empty|].
  destruct (JSON.parse text) as [data| |] eqn:P.
  - now rewrite (loadTasks_value s text data).
  - now rewrite (loadTasks_malformed s text).
  - now rewrite (loadTasks_unsupported s text).
Qed.

(** The truth test of the filter adds nothing: an entry with a string
    [text] is an object. *)
Lemma valid_entry_usable (entry : value) : valid_entry entry = usable entry.
Proof.
  destruct entry; unfold valid_entry, usable; simpl;
    rewrite ?andb_false_r; reflexivity.
Qed.

Lemma objects_usable (entries : list value) :
  map Obj (objects (filter valid_entry entries)) = filter usable entries.
Proof.
  induction entries as [|e entries IH]; [reflexivity|].
  simpl. rewrite <- valid_entry_usable.
  destruct e as [|b|n|x|l|ms];
    try (replace (valid_entry _) with false
           by (unfold valid_entry; simpl; now rewrite ?andb_false_r);
         exact IH).
  destruct (valid_entry (Obj ms)); simpl; [now rewrite IH | exact IH].
Qed.

Lemma objects_map_Obj (l : list object) : objects (map Obj l) = l.
Proof. induction l as [|t l IH]; simpl; [reflexivity | now rewrite IH]. Qed.

Lemma filter_all {A} (p : A -> bool) (l : list A) :
  Forall (fun x => p x = true) l -> filter p l = l.
Proof.
  induction 1 as [|x l Hx _ IH]; simpl; [reflexivity|]. now rewrite Hx, IH.
Qed.

(** *** Adding *)

Lemma empty_test (x : string) :
  negb (truthy (Str x)) = (x =? "")%string.
Proof. simpl. apply negb_involutive. Qed.

(** Over tasks whose texts are strings, the duplicate scan does not
    throw and amounts to a search. *)
Lemma some_same_text (x : string) (l : list object) :
  Forall (fun t => exists y, text t = Some (Str y)) l ->
  some (fun task =>
          match lower_text task with
          | inr l => inr (l =? toLowerCase x)%string
          | inl e => inl e
          end) l
  = inr (existsb (same_text x) l).
Proof.
  induction 1 as [|t l (y & Hy) _ IH]; simpl; [reflexivity|].
  unfold lower_text, same_text. rewrite Hy.
  destruct (toLowerCase y =? toLowerCase x)%string; [reflexivity | exact IH].
Qed.

Lemma addTask_empty (input deadline now : string) (s : app) :
  trim input = "" ->
  addTask input deadline now s = Returns tt (with_inputError EmptyText s).
Proof.
  intros E. unfold addTask, validateTaskInput. eff.
  rewrite empty_test, E. reflexivity.
Qed.

Lemma addTask_long (input deadline now : string) (s : app) :
  trim input <> "" -> (100 < String.length (trim input))%nat ->
  addTask input deadline now s = Returns tt (with_inputError TooLong s).
Proof.
  intros E L. apply String.eqb_neq in E. apply Nat.ltb_lt in L.
  unfold addTask, validateTaskInput. eff.
  rewrite empty_test, E, L. reflexivity.
Qed.

Lemma addTask_duplicate (input deadline now : string) (s : app) :
  trim input <> "" -> (String.length (trim input) <= 100)%nat ->
  Forall (fun t => exists y, text t = Some (Str y)) (tasks s) ->
  existsb (same_text (trim input)) (tasks s) = true ->
  addTask input deadline now s = Returns tt (with_inputError DuplicateText s).
Proof.
  intros E L Ht D. apply String.eqb_neq in E. apply Nat.ltb_ge in L.
  unfold addTask, validateTaskInput. eff.
  rewrite empty_test, E, L, (some_same_text _ _ Ht), D. reflexivity.
Qed.

Lemma addTask_pushes (input deadline now : string) (s : app) (c : Z) :
  trim input <> "" -> (String.length (trim input) <= 100)%nat ->
  Forall (fun t => exists y, text t = Some (Str y)) (tasks s) ->
  existsb (same_text (trim input)) (tasks s) = false ->
  taskIdCounter s = Num c ->
  addTask input deadline now s
  = Returns tt
      (saved now
         (with_inputError ""
            (with_tasks (tasks s ++ [new_task (c + 1) (trim input) now deadline])
               (with_taskIdCounter (Num (c + 1)) s)))).
Proof.
  intros E L Ht D Hc. apply String.eqb_neq in E. apply Nat.ltb_ge in L.
  unfold addTask, validateTaskInput, increment_taskIdCounter. eff.
  rewrite empty_test, E, L, (some_same_text _ _ Ht), D. eff.
  rewrite Hc. eff. simpl tasks. apply saveTasks_saved.
Qed.

(** *** Editing and clearing *)

Lemma editTask_eq (taskId : Z) (s : app) :
  exists message,
    editTask taskId s
    = Returns tt (with_editingTaskId (Some taskId) (with_inputError message s)).
Proof.
  unfold editTask, cancelEdit. eff.
  destruct s as [l f [n|] c m tm st q cs]; simpl.
  - destruct (n =? 0); eexists; reflexivity.
  - eexists; reflexivity.
Qed.

Lemma clearCompleted_eq (now : string) (s : app) :
  clearCompleted now s
  = Returns tt
      (saved now (with_tasks (filter (fun t => negb (is_completed t)) (tasks s)) s)).
Proof. unfold clearCompleted. eff. apply saveTasks_saved. Qed.

Lemma clearAll_eq (now : string) (s : app) :
  clearAll now s
  = Returns tt (saved now (with_editingTaskId None (with_tasks [] s))).
Proof. unfold clearAll. eff. apply saveTasks_saved. Qed.

Lemma some_other_text (taskId : Z) (x : string) (l : list object) :
  Forall (fun t => exists y, text t = Some (Str y)) l ->
  some (fun task =>
          if negb (has_id taskId task) then
            match lower_text task with
            | inr l => inr (l =? toLowerCase x)%string
            | inl e => inl e
            end
          else inr false) l
  = inr (existsb (fun t => negb (has_id taskId t) && same_text x t) l).
Proof.
  induction 1 as [|t l (y & Hy) _ IH]; simpl; [reflexivity|].
  unfold lower_text, same_text. rewrite Hy.
  destruct (has_id taskId t); simpl; [exact IH|].
  destruct (toLowerCase y =? toLowerCase x)%string; [reflexivity | exact IH].
Qed.

(** The states [saveEdit] can leave: the one it was called in, with or
    without a message, or the one with the new text in place. *)
Lemma saveEdit_eq (taskId : Z) (editInput : option string) (now : string) (s : app) :
  Forall (fun t => exists y, text t = Some (Str y)) (tasks s) ->
  (exists message, saveEdit taskId editInput now s
                   = Returns tt (with_inputError message s))
  \/ (exists input t,
        editInput = Some input
        /\ trim input <> "" /\ (String.length (trim input) <= 100)%nat
        /\ existsb (fun t => negb (has_id taskId t) && same_text (trim input) t)
             (tasks s) = false
        /\ find (has_id taskId) (tasks s) = Some t
        /\ saveEdit taskId editInput now s
           = Returns tt
               (saved now
                  (with_inputError ""
                     (with_editingTaskId None
                        (with_tasks
                           (update_first (has_id taskId)
                              (assign "text" (Str (trim input))) (tasks s)) s))))).
Proof.
  intros Ht. unfold saveEdit. destruct editInput as [input|].
  - eff. rewrite empty_test.
    destruct (String.eqb_spec (trim input) "") as [E|E];
      [left; eexists; reflexivity|].
    destruct (Nat.ltb_spec 100 (String.length (trim input))) as [L|L];
      [left; eexists; reflexivity|].
    rewrite (some_other_text _ _ _ Ht). eff.
    destruct (existsb _ (tasks s)) eqn:D; [left; eexists; reflexivity|].
    destruct (find (has_id taskId) (tasks s)) as [t|] eqn:F.
    + right. exists input, t. repeat split; try assumption.
      eff. simpl. now rewrite saveTasks_saved.
    + left. exists (inputError s). destruct s; reflexivity.
  - left. exists (inputError s). destruct s; reflexivity.
Qed.

(** *** What a call changes *)

Lemma ids_skipn_same (l : list object) : ids (skipn (List.length l) l) = [].
Proof. now rewrite skipn_all. Qed.

Lemma ids_skipn_push (l : list object) (t : object) :
  ids (skipn (List.length l) (l ++ [t])) = ids [t].
Proof.
  rewrite skipn_app, skipn_all, Nat.sub_diag. reflexivity.
Qed.

Lemma issued_by_text (c : Z) (l : list object) :
  Forall (issued_by c) l -> Forall (fun t => exists y, text t = Some (Str y)) l.
Proof.
  apply Forall_impl. intros t (n & x & _ & _ & H). now exists x.
Qed.

(** Under a numeric counter and string texts, every call returns, and
    its effect on the counter and the array is one of the changes. *)
Lemma perform_change (call : call) (s : app) (c : Z) :
  taskIdCounter s = Num c ->
  Forall (fun t => exists y, text t = Some (Str y)) (tasks s) ->
  exists s' c',
    perform call s = Returns tt s'
    /\ taskIdCounter s' = Num c'
    /\ change c (tasks s) c' (tasks s')
    /\ (added call s s' = [] \/ added call s s' = [c + 1] /\ c' = c + 1).
Proof.
  intros Hc Ht.
  destruct call as [input deadline now|taskId now|taskId rendered now|now
                   |taskId|taskId editInput now| |filter|now|now];
    simpl perform.
  - (* addTask *)
    destruct (String.eqb_spec (trim input) "") as [E|E].
    { rewrite (addTask_empty _ _ _ _ E). exists (with_inputError EmptyText s), c.
      repeat split; [assumption | constructor | left; apply ids_skipn_same]. }
    destruct (Nat.ltb_spec 100 (String.length (trim input))) as [L|L].
    { rewrite (addTask_long _ _ _ _ E L). exists (with_inputError TooLong s), c.
      repeat split; [assumption | constructor | left; apply ids_skipn_same]. }
    destruct (existsb (same_text (trim input)) (tasks s)) eqn:D.
    { rewrite (addTask_duplicate _ _ _ _ E L Ht D).
      exists (with_inputError DuplicateText s), c.
      repeat split; [assumption | constructor | left; apply ids_skipn_same]. }
    rewrite (addTask_pushes _ _ _ _ c E L Ht D Hc).
    eexists. exists (c + 1). split; [reflexivity|].
    autorewrite with saved. simpl.
    repeat split; [now constructor|]. right.
    split; [|reflexivity]. unfold added. rewrite saved_tasks. simpl tasks.
    now rewrite ids_skipn_push.
  - (* toggleTask *)
    destruct (find (has_id taskId) (tasks s)) as [t|] eqn:F.
    + rewrite (toggleTask_found _ _ _ t F). eexists. exists c.
      split; [reflexivity|]. autorewrite with saved. simpl.
      repeat split; [assumption | constructor | now left].
    + rewrite (toggleTask_absent _ _ _ F). exists s, c.
      repeat split; [assumption | constructor | now left].
  - (* deleteTask *)
    unfold deleteTask. eff. destruct (_ >? _).
    + destruct rendered.
      * eexists. exists c. split; [reflexivity|].
        repeat split; [assumption | constructor | now left].
      * rewrite remove_at_eq. eexists. exists c. split; [reflexivity|].
        autorewrite with saved. simpl.
        repeat split; [assumption | constructor | now left].
    + exists s, c. repeat split; [assumption | constructor | now left].
  - (* the timer *)
    rewrite timeout_eq. eexists. exists c. split; [reflexivity|].
    destruct (timers s).
    + repeat split; [assumption | constructor | now left].
    + autorewrite with saved. simpl.
      repeat split; [assumption | constructor | now left].
  - (* editTask *)
    destruct (editTask_eq taskId s) as (m & ->). eexists. exists c.
    split; [reflexivity|]. repeat split; [assumption | constructor | now left].
  - (* saveEdit *)
    destruct (saveEdit_eq taskId editInput now s Ht)
      as [(m & ->)|(input & t & -> & E & L & D & F & ->)].
    + eexists. exists c. split; [reflexivity|].
      repeat split; [assumption | constructor | now left].
    + eexists. exists c. split; [reflexivity|].
      autorewrite with saved. simpl.
      repeat split; [assumption | now apply (change_text _ _ _ _ t) | now left].
  - (* cancelEdit *)
    eexists. exists c. split; [reflexivity|].
    repeat split; [assumption | constructor | now left].
  - (* setFilter *)
    eexists. exists c. split; [reflexivity|].
    repeat split; [assumption | constructor | now left].
  - (* clearCompleted *)
    rewrite clearCompleted_eq. eexists. exists c. split; [reflexivity|].
    autorewrite with saved. simpl.
    repeat split; [assumption | constructor | now left].
  - (* clearAll *)
    rewrite clearAll_eq. eexists. exists c. split; [reflexivity|].
    autorewrite with saved. simpl.
    repeat split; [assumption | constructor | now left].
Qed.

Lemma usable_Obj (t : object) :
  usable (Obj t) = true ->
  exists n x, id t = Some (Num n) /\ text t = Some (Str x).
Proof.
  unfold usable, id, text. simpl. intros H.
  apply andb_true_iff in H. destruct H as [Hx Hn].
  destruct (lookup "text" t) as [[]|]; try discriminate.
  destruct (lookup "id" t) as [[]|]; try discriminate.
  eexists. eexists. split; reflexivity.
Qed.

(** The tasks a reload leaves all passed the test. *)
Lemma hydrated_usable (entries : list value) (l : list object) :
  map Obj l = filter usable entries ->
  Forall (fun t => usable (Obj t) = true) l.
Proof.
  intros H. apply Forall_forall. intros t Ht.
  apply (in_map Obj) in Ht. rewrite H in Ht.
  apply filter_In in Ht. tauto.
Qed.

(** When the stored [tasks] is an array, the reload keeps its usable
    entries and takes the stored counter, and says nothing. *)
Lemma hydrated_array (data : value) (entries : list value) (s : app) :
  prop data "tasks" = Some (Arr entries) ->
  map Obj (tasks (hydrated data s)) = filter usable entries
  /\ taskIdCounter (hydrated data s) = or_else (prop data "taskIdCounter") (Num 0)
  /\ inputError (hydrated data s) = inputError s
  /\ console (hydrated data s) = console s.
Proof.
  intros Ht. unfold hydrated. destruct data; try discriminate Ht.
  rewrite Ht. simpl. split; [apply objects_usable|]. now repeat split.
Qed.

End AppFacts.

(** ** What the methods preserve *)

Module Invariants.
Import JS Eff TodoApp Session Spec JSFacts AppFacts.

(** Lists *)

Lemma Forall_splice1 {A} (P : A -> Prop) (i : nat) (l : list A) :
  Forall P l -> Forall P (splice1 i l).
Proof.
  intros H. revert i. induction H as [|x l Hx Hl IH]; intros [|i]; simpl;
    try constructor; auto.
Qed.

Lemma Forall_filter' {A} (P : A -> Prop) (p : A -> bool) (l : list A) :
  Forall P l -> Forall P (filter p l).
Proof.
  induction 1 as [|x l Hx Hl IH]; simpl; [constructor|].
  destruct (p x); [now constructor | exact IH].
Qed.

Lemma Forall_update_first {A} (P : A -> Prop) (p : A -> bool) (f : A -> A)
    (l : list A) :
  (forall x, P x -> P (f x)) -> Forall P l -> Forall P (update_first p f l).
Proof.
  intros Hf. induction 1 as [|x l Hx Hl IH]; simpl; [constructor|].
  destruct (p x); constructor; auto.
Qed.

Lemma map_update_first {A B} (g : A -> B) (p : A -> bool) (f : A -> A)
    (l : list A) :
  (forall x, g (f x) = g x) -> map g (update_first p f l) = map g l.
Proof.
  intros Hf. induction l as [|x l IH]; simpl; [reflexivity|].
  destruct (p x); simpl; now rewrite ?Hf, ?IH.
Qed.

Lemma In_map_splice1 {A B} (g : A -> B) (i : nat) (l : list A) (y : B) :
  In y (map g (splice1 i l)) -> In y (map g l).
Proof.
  revert i. induction l as [|x l IH]; intros [|i]; simpl; auto.
  intros [H|H]; [now left | right; now apply (IH i)].
Qed.

Lemma NoDup_map_splice1 {A B} (g : A -> B) (i : nat) (l : list A) :
  NoDup (map g l) -> NoDup (map g (splice1 i l)).
Proof.
  revert i. induction l as [|x l IH]; intros i H; [destruct i; exact H|].
  simpl in H. inversion H as [|? ? Hx Hl]; subst.
  destruct i as [|i]; simpl; [exact Hl|].
  constructor; [|now apply IH].
  intros Hin. apply Hx. now apply (In_map_splice1 g i).
Qed.

Lemma NoDup_map_filter {A B} (g : A -> B) (p : A -> bool) (l : list A) :
  NoDup (map g l) -> NoDup (map g (filter p l)).
Proof.
  induction l as [|x l IH]; simpl; intros H; [exact H|].
  inversion H as [|? ? Hx Hl]; subst.
  destruct (p x); simpl; [|now apply IH].
  constructor; [|now apply IH].
  intros Hin. apply Hx. apply in_map_iff in Hin.
  destruct Hin as (u & <- & Hu). apply in_map.
  apply filter_In in Hu. tauto.
Qed.

Lemma NoDup_insert {A} (a b : list A) (x : A) :
  NoDup (a ++ b) -> ~ In x (a ++ b) -> NoDup (a ++ x :: b).
Proof.
  induction a as [|y a IH]; simpl; intros H Hx; [now constructor|].
  inversion H as [|? ? Hy Ha]; subst. constructor.
  - intros Hin. apply in_app_or in Hin. destruct Hin as [Hin|[->|Hin]].
    + apply Hy. apply in_or_app. now left.
    + apply Hx. now left.
    + apply Hy. apply in_or_app. now right.
  - apply IH; [exact Ha|]. intros Hin. apply Hx. now right.
Qed.

(** Tasks *)

Lemma has_id_id (taskId : Z) (t : object) :
  has_id taskId t = true -> id t = Some (Num taskId).
Proof.
  unfold has_id, strict_eq_num. destruct (id t) as [[]|]; try discriminate.
  intros H. apply Z.eqb_eq in H. now subst.
Qed.

Lemma issued_by_le (c c' : Z) (t : object) :
  c <= c' -> issued_by c t -> issued_by c' t.
Proof.
  intros Hc (n & x & Hn & Hle & Hx). exists n, x.
  split; [exact Hn | split; [lia | exact Hx]].
Qed.

Lemma issued_by_toggle (c : Z) (now : string) (t : object) :
  issued_by c t -> issued_by c (toggle now t).
Proof.
  intros (n & x & Hn & Hle & Hx). exists n, x.
  now rewrite toggle_id, toggle_text.
Qed.

Lemma assign_text_id (x : string) (t : object) :
  id (assign "text" (Str x) t) = id t.
Proof. unfold id. now rewrite lookup_assign_other by discriminate. Qed.

Lemma assign_text_text (x : string) (t : object) :
  text (assign "text" (Str x) t) = Some (Str x).
Proof. unfold text. apply lookup_assign_same. Qed.

Lemma issued_by_assign_text (c : Z) (x : string) (t : object) :
  issued_by c t -> issued_by c (assign "text" (Str x) t).
Proof.
  intros (n & y & Hn & Hle & Hy). exists n, x.
  now rewrite assign_text_id, assign_text_text.
Qed.

Lemma issued_by_new_task (c : Z) (text now deadline : string) :
  issued_by (c + 1) (new_task (c + 1) text now deadline).
Proof.
  exists (c + 1), text. split; [reflexivity | split; [lia | reflexivity]].
Qed.

(** An id the counter has not reached is no task's id. *)
Lemma issued_by_fresh (c : Z) (l : list object) :
  Forall (issued_by c) l -> ~ In (Some (Num (c + 1))) (map id l).
Proof.
  intros H Hin. apply in_map_iff in Hin. destruct Hin as (t & Ht & Hin).
  rewrite Forall_forall in H. destruct (H t Hin) as (n & x & Hn & Hle & _).
  rewrite Hn in Ht. injection Ht as ->. lia.
Qed.

Lemma lower_same_text (x : string) (l : list object) :
  existsb (same_text x) l = false -> ~ In (Some (toLowerCase x)) (map lower l).
Proof.
  intros H Hin. apply in_map_iff in Hin. destruct Hin as (t & Ht & Hin).
  assert (E : existsb (same_text x) l = true).
  { apply existsb_exists. exists t. split; [exact Hin|].
    unfold lower in Ht. unfold same_text.
    destruct (text t) as [[]|]; try discriminate.
    injection Ht as ->. apply String.eqb_refl. }
  congruence.
Qed.

(** The counter and the array after a call *)

Section Change.

Variables (c : Z) (l : list object).
Hypothesis numbered : Forall (issued_by c) l.
Hypothesis distinct : NoDup (map id l).

Lemma change_issued (c' : Z) (l' : list object) :
  change c l c' l' -> c <= c' /\ Forall (issued_by c') l'.
Proof using numbered.
  pose proof numbered as H.
  intros [ |text now deadline E L D|taskId now|i|taskId text t E L D F|p| ];
    (split; [clear; lia|]).
  - exact H.
  - apply Forall_app. split.
    + assert (Hle : c <= c + 1) by (clear; lia).
      apply (Forall_impl _ (fun t => issued_by_le c (c + 1) t Hle) H).
    + constructor; [apply issued_by_new_task | constructor].
  - apply Forall_update_first; [apply issued_by_toggle | exact H].
  - now apply Forall_splice1.
  - apply Forall_update_first; [apply issued_by_assign_text | exact H].
  - now apply Forall_filter'.
  - constructor.
Qed.

Lemma change_ids (c' : Z) (l' : list object) :
  change c l c' l' -> NoDup (map id l').
Proof using numbered distinct.
  pose proof numbered as H. pose proof distinct as N.
  intros [ |text now deadline E L D|taskId now|i|taskId text t E L D F|p| ].
  - exact N.
  - rewrite map_app. simpl map.
    apply NoDup_insert; rewrite List.app_nil_r; [exact N|].
    now apply issued_by_fresh.
  - rewrite map_update_first; [exact N | apply toggle_id].
  - now apply NoDup_map_splice1.
  - rewrite map_update_first; [exact N | apply assign_text_id].
  - now apply NoDup_map_filter.
  - constructor.
Qed.

Lemma lower_toggle (now : string) (t : object) : lower (toggle now t) = lower t.
Proof. unfold lower. now rewrite toggle_text. Qed.

Lemma change_tidy (c' : Z) (l' : list object) :
  change c l c' l' -> tidy l -> tidy l'.
Proof using distinct.
  pose proof distinct as N. clear numbered.
  intros [ |text now deadline E L D|taskId now|i|taskId text t E L D F|p| ]
    (T & U).
  - now split.
  - split.
    + apply Forall_app. split; [exact T|].
      constructor; [|constructor]. exists text. now repeat split.
    + rewrite map_app. simpl map.
      apply NoDup_insert; rewrite List.app_nil_r; [exact U|].
      now apply lower_same_text.
  - split.
    + apply Forall_update_first; [|exact T].
      intros u (x & Hx & Hn & Hl). exists x. now rewrite toggle_text.
    + rewrite map_update_first; [exact U | apply lower_toggle].
  - split; [now apply Forall_splice1 | now apply NoDup_map_splice1].
  - destruct (find_split _ _ _ F) as (before & after & -> & Ht & Hb).
    rewrite update_first_first by assumption.
    assert (Ha : forall u, In u after -> has_id taskId u = false).
    { intros u Hu. destruct (has_id taskId u) eqn:Hid; [exfalso|reflexivity].
      rewrite map_app in N. simpl in N. apply NoDup_remove_2 in N. apply N.
      apply in_or_app. right. rewrite (has_id_id _ _ Ht), <- (has_id_id _ _ Hid).
      now apply in_map. }
    assert (Hd : existsb (same_text text) (before ++ after) = false).
    { destruct (existsb (same_text text) (before ++ after)) eqn:X; [|reflexivity].
      apply existsb_exists in X. destruct X as (u & Hu & Hs).
      assert (X : existsb (fun u => negb (has_id taskId u) && same_text text u)
                    (before ++ t :: after) = true).
      { apply existsb_exists. exists u. split.
        - apply in_app_or in Hu. apply in_or_app.
          destruct Hu; [now left | right; now right].
        - apply in_app_or in Hu.
          destruct Hu as [Hu|Hu]; [rewrite (Hb u Hu) | rewrite (Ha u Hu)];
            now rewrite Hs. }
      congruence. }
    split.
    + apply Forall_app in T. destruct T as (Tb & Ta).
      inversion Ta as [|? ? _ Ta']; subst.
      apply Forall_app. split; [exact Tb|]. constructor; [|exact Ta'].
      exists text. rewrite assign_text_text. now repeat split.
    + rewrite map_app in *. simpl map in *.
      replace (lower (assign "text" (Str text) t)) with (Some (toLowerCase text))
        by (unfold lower; now rewrite assign_text_text).
      apply NoDup_insert; [now apply NoDup_remove_1 in U|].
      rewrite <- map_app. now apply lower_same_text.
  - split; [now apply Forall_filter' | now apply NoDup_map_filter].
  - split; constructor.
Qed.

End Change.

(** Every call keeps the instance orderly. *)
Lemma perform_orderly (call : call) (s : app) :
  orderly s ->
  exists s', perform call s = Returns tt s' /\ orderly s'.
Proof.
  intros ((c & Hc & Hi) & N & T).
  destruct (perform_change call s c Hc (issued_by_text c _ Hi))
    as (s' & c' & E & Hc' & Ch & _).
  exists s'. split; [exact E|]. repeat split.
  - exists c'. split; [exact Hc' | apply (change_issued c _ Hi c' _ Ch)].
  - apply (change_ids c _ Hi N c' _ Ch).
  - apply (change_tidy c _ N c' _ Ch T).
  - apply (change_tidy c _ N c' _ Ch T).
Qed.

Lemma run_orderly (calls : list call) (s : app) :
  orderly s ->
  exists s', run calls s = Returns tt s' /\ orderly s'.
Proof.
  revert s. induction calls as [|call calls IH]; intros s H; simpl.
  - exists s. now split.
  - destruct (perform_orderly call s H) as (s1 & E & H1).
    destruct (IH s1 H1) as (s' & E' & H').
    exists s'. split; [|exact H']. unfold bind. now rewrite E.
Qed.


Lemma ids_issued_by (c : Z) (l : list object) (n : Z) :
  Forall (issued_by c) l -> In n (ids l) -> n <= c.
Proof.
  induction 1 as [|t l (m & x & Hm & Hle & _) _ IH]; simpl; [tauto|].
  rewrite Hm. intros [<-|H]; [exact Hle | now apply IH].
Qed.


(** *** Letter case *)

Lemma code_inj (a b : ascii) : code a = code b -> a = b.
Proof.
  unfold code. intros H. apply (f_equal ascii_of_nat) in H.
  now rewrite !ascii_nat_embedding in H.
Qed.

Lemma lower_char_upper (a b : ascii) :
  (65 <= code a)%nat -> (code a <= 90)%nat -> code b = (code a + 32)%nat ->
  lower_char a = lower_char b.
Proof.
  intros L U E. unfold lower_char. cbv zeta. rewrite E.
  rewrite (proj2 (Nat.leb_le 65 (code a)) L), (proj2 (Nat.leb_le _ 90) U).
  cbn [andb].
  rewrite (proj2 (Nat.leb_gt (code a + 32) 90)) by lia.
  rewrite andb_false_r.
  rewrite (proj2 (Nat.leb_gt 192 (code a + 32))) by lia.
  cbn [andb].
  rewrite <- E. unfold code. now rewrite ascii_nat_embedding.
Qed.

Lemma same_letter_lower (a b : ascii) :
  same_letter a b = true -> lower_char a = lower_char b.
Proof.
  unfold same_letter. intros H.
  apply orb_true_iff in H. destruct H as [H|H];
    [apply orb_true_iff in H; destruct H as [H|H]|].
  - apply Nat.eqb_eq, code_inj in H. now subst.
  - apply andb_true_iff in H. destruct H as (H & E).
    apply andb_true_iff in H. destruct H as (L & U).
    apply Nat.leb_le in L, U. apply Nat.eqb_eq in E.
    now apply lower_char_upper.
  - apply andb_true_iff in H. destruct H as (H & E).
    apply andb_true_iff in H. destruct H as (L & U).
    apply Nat.leb_le in L, U. apply Nat.eqb_eq in E.
    symmetry. now apply lower_char_upper.
Qed.

Lemma equal_up_to_case_lower (x y : string) :
  equal_up_to_case x y = true -> toLowerCase x = toLowerCase y.
Proof.
  revert y. induction x as [|a x IH]; intros [|b y]; simpl; try discriminate;
    [reflexivity|].
  intros H. apply andb_true_iff in H. destruct H as (H1 & H2).
  now rewrite (same_letter_lower a b H1), (IH y H2).
Qed.

Lemma equal_up_to_case_same_text (x y : string) (t : object) :
  text t = Some (Str y) -> equal_up_to_case y x = true -> same_text x t = true.
Proof.
  intros Ht H. unfold same_text. rewrite Ht.
  rewrite (equal_up_to_case_lower y x H). apply String.eqb_refl.
Qed.

(** *** Counters that stay exact *)

Lemma ids_below_fresh (c : Z) (l : list object) :
  (forall n, In n (ids l) -> n <= c) -> ~ In (Some (Num (c + 1))) (map id l).
Proof.
  induction l as [|t l IH]; simpl; [tauto|].
  intros H [E|Hin].
  - rewrite E in H. specialize (H (c + 1) (or_introl eq_refl)). lia.
  - apply IH; [|exact Hin]. intros n Hn. apply H.
    destruct (id t) as [[| | m| | |]|]; try assumption. now right.
Qed.

Lemma change_texts (c c' : Z) (l l' : list object) :
  change c l c' l' ->
  Forall (fun t => exists y, text t = Some (Str y)) l ->
  (c' = c \/ c' = c + 1)
  /\ Forall (fun t => exists y, text t = Some (Str y)) l'.
Proof.
  intros [ |text now deadline E L D|taskId now|i|taskId text t E L D F|p| ] H;
    (split; [auto|]).
  - exact H.
  - apply Forall_app. split; [exact H|].
    constructor; [now exists text | constructor].
  - apply Forall_update_first; [|exact H].
    intros u (y & Hy). exists y. now rewrite toggle_text.
  - now apply Forall_splice1.
  - apply Forall_update_first; [|exact H].
    intros u _. exists text. apply assign_text_text.
  - now apply Forall_filter'.
  - constructor.
Qed.

Lemma run_counted (calls : list call) (s : app) (c : Z) :
  taskIdCounter s = Num c ->
  Forall (fun t => exists y, text t = Some (Str y)) (tasks s) ->
  exists s' c',
    run calls s = Returns tt s'
    /\ taskIdCounter s' = Num c'
    /\ Forall (fun t => exists y, text t = Some (Str y)) (tasks s')
    /\ c <= c' <= c + Z.of_nat (List.length calls)
    /\ (forall n, In n (issued calls s) -> c < n <= c').
Proof.
  revert s c. induction calls as [|call calls IH]; intros s c Hc Ht.
  - exists s, c. simpl. repeat split; try assumption; try lia; tauto.
  - destruct (perform_change call s c Hc Ht)
      as (s1 & c1 & E1 & Hc1 & Ch & Ad).
    destruct (change_texts c c1 _ _ Ch Ht) as (Hk & Ht1).
    destruct (IH s1 c1 Hc1 Ht1) as (s' & c' & E' & Hc' & Ht' & Hle' & Ha').
    exists s', c'. simpl run. simpl issued. unfold bind. rewrite E1.
    split; [exact E'|]. split; [exact Hc'|]. split; [exact Ht'|].
    split; [simpl List.length; lia|].
    intros n Hn. apply in_app_or in Hn. destruct Hn as [Hn|Hn].
    + destruct Ad as [Ad|(Ad & ->)]; rewrite Ad in Hn; simpl in Hn;
        [tauto|]. destruct Hn as [<-|[]]. lia.
    + apply Ha' in Hn. lia.
Qed.

End Invariants.

(** ** The claims *)

Import JS Eff TodoApp Session Spec JSFacts AppFacts Invariants.

(** *** Filter selection *)

(** C2, as the program has it: [setFilter] takes every value.  It returns
    normally, the current filter becomes that value, nothing else changes
    and no error is shown; a value other than [active] and [completed]
    makes the filtered view the whole array, as [all] does. *)
Theorem setFilter_accepts_every_value (filter : string) (s : app) :
  exists s',
    setFilter filter s = Returns tt s'
    /\ currentFilter s' = filter
    /\ tasks s' = tasks s
    /\ inputError s' = inputError s
    /\ console s' = console s
    /\ (filter <> "active" -> filter <> "completed" ->
        getFilteredTasks s' = Returns (tasks s) s').
Proof.
  exists (with_currentFilter filter s). repeat split.
  intros Ha Hc. unfold getFilteredTasks. eff. simpl.
  apply String.eqb_neq in Ha, Hc. now rewrite Ha, Hc.
Qed.

Lemma setFilter_accepts_every_value_witness :
  exists s',
    setFilter "urgent" (fields None 0) = Returns tt s'
    /\ currentFilter s' = "urgent"
    /\ getFilteredTasks s' = Returns [] s'.
Proof.
  destruct (setFilter_accepts_every_value "urgent" (fields None 0))
    as (s' & H1 & H2 & _ & _ & _ & H3).
  exists s'. repeat split; try assumption.
  apply H3; discriminate.
Defined.

(** C2, as stated, fails: a value outside the three names is not
    rejected.  On a new instance, whose filter is [all], [setFilter] with
    [urgent] returns with the filter changed to [urgent] and with no
    error shown. *)
Lemma setFilter_rejects_nothing :
  currentFilter (fields None 0) = "all"
  /\ exists s',
       setFilter "urgent" (fields None 0) = Returns tt s'
       /\ currentFilter s' = "urgent"
       /\ currentFilter s' <> currentFilter (fields None 0)
       /\ inputError s' = "".
Proof.
  split; [reflexivity|]. eexists. repeat split. discriminate.
Qed.

(** C6: [getFilteredTasks] returns without changing the instance; under
    [active] its result is the tasks that are not completed, under
    [completed] those that are, in both cases in the order of the array,
    and under [all] it is the array itself.  A task counts as completed
    by the truth value of its [completed] property, so for a boolean
    property by the property itself. *)
Theorem getFilteredTasks_selects (s : app) :
  exists view,
    getFilteredTasks s = Returns view s
    /\ (currentFilter s = "active" ->
        selects (fun t => negb (is_completed t)) (tasks s) view)
    /\ (currentFilter s = "completed" ->
        selects is_completed (tasks s) view)
    /\ (currentFilter s = "all" -> view = tasks s)
    /\ (forall t b, completed t = Some (Bool b) -> is_completed t = b).
Proof.
  unfold getFilteredTasks. eff.
  destruct (String.eqb_spec (currentFilter s) "active") as [Ea|Ea];
    [|destruct (String.eqb_spec (currentFilter s) "completed") as [Ec|Ec]];
    eexists; (split; [reflexivity|]); repeat split;
    try (intros E; rewrite E in *; discriminate || congruence);
    try (intros _; apply filter_selects);
    try (intros t b E; unfold is_completed; now rewrite E).
Qed.

Lemma getFilteredTasks_selects_witness :
  exists view,
    getFilteredTasks (with_currentFilter "active" Examples.two_tasks)
    = Returns view (with_currentFilter "active" Examples.two_tasks)
    /\ view = [Examples.open_task].
Proof.
  destruct (getFilteredTasks_selects
              (with_currentFilter "active" Examples.two_tasks))
    as (view & E & Ha & _).
  exists view. split; [exact E|].
  now rewrite (selects_filter _ _ _ (Ha eq_refl)).
Defined.

(** *** Completion *)




(** *** Deletion *)

(** C3, as the program has it: [deleteTask] looks for the first task with
    the id.  When no task has it, the call returns with the instance
    untouched and reports nothing, and so does a second call once the
    only task with the id is gone.  When the page has no element for the
    task, the task is removed at once and the others keep their order.
    When the page has one, the call removes nothing: it queues the index
    at which it found the task, and the timer, when it fires, removes
    whatever task is at that index then.  So the task is the one removed
    when no other removal was pending and the array is as it was when the
    timer fires. *)
Theorem deleteTask_removes_first_match (taskId : Z) (now : string) (s : app) :
  ((forall t, In t (tasks s) -> has_id taskId t = false) ->
   forall rendered, deleteTask taskId rendered now s = Returns tt s)
  /\
  (forall before t after,
      tasks s = before ++ t :: after ->
      has_id taskId t = true ->
      (forall u, In u before -> has_id taskId u = false) ->
      (exists s',
          deleteTask taskId false now s = Returns tt s'
          /\ tasks s' = before ++ after
          /\ timers s' = timers s
          /\ ((forall u, In u after -> has_id taskId u = false) ->
              forall rendered now',
                deleteTask taskId rendered now' s' = Returns tt s'))
      /\
      (exists s1,
         deleteTask taskId true now s = Returns tt s1
         /\ tasks s1 = tasks s
         /\ localStorage s1 = localStorage s
         /\ timers s1 = timers s ++ [List.length before]
         /\ (timers s = [] ->
             forall now', exists s',
               timeout now' s1 = Returns tt s'
               /\ tasks s' = before ++ after
               /\ timers s' = [])))
  /\
  (forall taskIndex later now',
      timers s = taskIndex :: later ->
      exists s',
        timeout now' s = Returns tt s'
        /\ tasks s' = splice1 taskIndex (tasks s)
        /\ timers s' = later).
Proof.
  split; [|split].
  - intros H rendered. now apply deleteTask_absent.
  - intros before t after E Ht Hb. split.
    + eexists. split; [now apply (deleteTask_now _ _ _ before after t)|].
      rewrite saved_tasks, saved_timers. split; [reflexivity|].
      split; [reflexivity|].
      intros Ha rendered now'. apply deleteTask_absent.
      rewrite saved_tasks. simpl. intros u Hu.
      apply in_app_or in Hu. destruct Hu; [now apply Hb | now apply Ha].
    + eexists.
      split; [now apply (deleteTask_later _ _ _ before after t)|].
      split; [reflexivity|]. split; [reflexivity|]. split; [reflexivity|].
      intros Htm now'. eexists. rewrite timeout_eq. simpl. rewrite Htm. simpl.
      split; [reflexivity|].
      rewrite saved_tasks, saved_timers. simpl. rewrite E.
      split; [apply splice1_middle | reflexivity].
  - intros taskIndex later now' Htm. eexists. rewrite timeout_eq, Htm.
    split; [reflexivity|]. rewrite saved_tasks, saved_timers. now split.
Qed.

Lemma deleteTask_removes_first_match_witness :
  (exists s',
     deleteTask 1 false "10:00" Examples.two_tasks = Returns tt s'
     /\ tasks s' = [Examples.open_task]
     /\ deleteTask 1 false "10:01" s' = Returns tt s')
  /\ (exists s1 s',
        deleteTask 1 true "10:00" Examples.two_tasks = Returns tt s1
        /\ tasks s1 = [Examples.done_task; Examples.open_task]
        /\ timers s1 = [0%nat]
        /\ timeout "10:01" s1 = Returns tt s'
        /\ tasks s' = [Examples.open_task]
        /\ deleteTask 1 true "10:02" s' = Returns tt s')
  /\ deleteTask 7 true "10:00" Examples.two_tasks
     = Returns tt Examples.two_tasks.
Proof.
  destruct (deleteTask_removes_first_match 1 "10:00" Examples.two_tasks)
    as (_ & H & _).
  destruct (H [] Examples.done_task [Examples.open_task] eq_refl eq_refl)
    as ((s' & E & Ht & _ & Hn) & (s1 & E1 & Ht1 & _ & Hm1 & Hf));
    [intros u []|].
  split; [|split].
  - exists s'. repeat split; try assumption.
    apply Hn. intros u [<-|[]]. reflexivity.
  - destruct (Hf eq_refl "10:01") as (s2 & E2 & Ht2 & Hm2).
    exists s1, s2. repeat split; try assumption.
    destruct (deleteTask_removes_first_match 1 "10:02" s2) as (Ha & _).
    apply Ha. rewrite Ht2. intros u [<-|[]]. reflexivity.
  - destruct (deleteTask_removes_first_match 7 "10:00" Examples.two_tasks)
      as (Ha & _).
    apply Ha. intros u [<-|[<-|[]]]; reflexivity.
Defined.

(** C3, as stated, fails where it promises a failure: [deleteTask] with
    an id no task has returns like any other call, with the instance as
    it was and no message of any kind shown, and so does a second
    [deleteTask] with the id of a task the first one removed. *)
Lemma deleteTask_reports_no_failure :
  deleteTask 7 false "10:00" (fields None 4096) = Returns tt (fields None 4096)
  /\ ~ (exists kind,
          kind <> ""
          /\ fails_with kind (fields None 4096)
               (deleteTask 7 false "10:00" (fields None 4096)))
  /\ exists s1,
       deleteTask 1 false "10:00" Examples.two_tasks = Returns tt s1
       /\ deleteTask 1 false "10:01" s1 = Returns tt s1
       /\ inputError s1 = "".
Proof.
  split; [reflexivity|]. split.
  - intros (kind & Hk & after & E & He & _).
    injection E as <-. apply Hk. now rewrite <- He.
  - eexists. split; [vm_compute; reflexivity|]. split; reflexivity.
Qed.

(** The removal timer keeps the index [deleteTask] found, not the id.  Two
    calls for the same rendered task before the timer fires queue the
    same index twice, and the second removal takes the task that has
    moved into that place. *)
Remark deleteTask_twice_before_timeout :
  exists s',
    run [DeleteTask 1 true "10:00"; DeleteTask 1 true "10:00";
         Timeout "10:01"; Timeout "10:01"] Examples.two_tasks
    = Returns tt s'
    /\ tasks Examples.two_tasks = [Examples.done_task; Examples.open_task]
    /\ tasks s' = [].
Proof.
  eexists. split; [vm_compute; reflexivity|]. split; reflexivity.
Qed.

(** *** Persistence *)



(** C7: constructing an instance over a stored text of the modelled
    fragment returns, whatever the text: no exception leaves the
    constructor.  Text that is not a JSON text (an unclosed bracket, a
    point with no digit after it, a stray word) makes [JSON.parse] throw,
    and leaves no tasks and the counter 0; when the text parses to an
    object whose [tasks] is an array, the tasks loaded are the entries
    with a string [text] and a numeric [id], in their order, the others
    being dropped without a log line or a message; when it parses to
    anything else, no task is loaded; and the text written for any value
    whose [tasks] is an array is read back so. *)
Theorem loadTasks_tolerates (storage : option string) (q : nat) :
  ((forall text, storage = Some text -> JSON.in_fragment text = true) ->
   exists s', init (fields storage q) = Returns tt s')
  /\ (forall text,
        storage = Some text -> JSON.grammatical text = false ->
        JSON.parse text = JSON.Malformed
        /\ exists s',
             init (fields storage q) = Returns tt s'
             /\ tasks s' = [] /\ taskIdCounter s' = Num 0)
  /\ (forall text data entries,
        storage = Some text -> JSON.parse text = JSON.Value data ->
        prop data "tasks" = Some (Arr entries) ->
        exists s',
          init (fields storage q) = Returns tt s'
          /\ map Obj (tasks s') = filter usable entries
          /\ inputError s' = "" /\ console s' = [])
  /\ (forall text data,
        storage = Some text -> JSON.parse text = JSON.Value data ->
        (forall entries, prop data "tasks" <> Some (Arr entries)) ->
        exists s', init (fields storage q) = Returns tt s' /\ tasks s' = [])
  /\ (forall data entries,
        storage = Some (JSON.stringify data) ->
        prop data "tasks" = Some (Arr entries) ->
        exists s',
          init (fields storage q) = Returns tt s'
          /\ map Obj (tasks s') = filter usable entries
          /\ taskIdCounter s' = or_else (prop data "taskIdCounter") (Num 0)).
Proof.
  unfold init. split; [|split; [|split; [|split]]].
  - intros H. destruct storage as [text|];
      [|eexists; now apply loadTasks_missing].
    destruct (String.eqb_spec text "") as [->|E];
      [eexists; now apply loadTasks_empty|].
    pose proof (ParserFacts.parse_in_fragment text (H text eq_refl)) as U.
    destruct (JSON.parse text) as [data| |] eqn:P; [| |now elim U].
    + eexists. now apply (loadTasks_value _ text data).
    + eexists. now apply (loadTasks_malformed _ text).
  - intros text -> G. apply GrammarFacts.parse_malformed in G.
    split; [exact G|].
    destruct (String.eqb_spec text "") as [->|E].
    + eexists. split; [now apply loadTasks_empty|]. split; reflexivity.
    + eexists. split; [now apply (loadTasks_malformed _ text)|].
      split; reflexivity.
  - intros text data entries -> P Ht.
    eexists. split; [now apply (loadTasks_value _ text data)|].
    destruct (hydrated_array data entries (fields (Some text) q) Ht)
      as (Hl & _ & He & Hk).
    now repeat split.
  - intros text data -> P Ht.
    eexists. split; [now apply (loadTasks_value _ text data)|].
    unfold hydrated. destruct data as [|b|n|x|l|ms]; try reflexivity.
    destruct (prop (Obj ms) "tasks") as [[|b|n|x|l|ms']|] eqn:E; simpl;
      try reflexivity.
    + destruct b; reflexivity.
    + destruct (n =? 0); reflexivity.
    + destruct (x =? "")%string; reflexivity.
    + now elim (Ht l).
  - intros data entries -> Ht.
    eexists.
    split; [apply (loadTasks_value _ (JSON.stringify data) data);
             [reflexivity | apply JSONFacts.parse_stringify]|].
    destruct (hydrated_array data entries
                (fields (Some (JSON.stringify data)) q) Ht)
      as (Hl & Hc & _).
    now split.
Qed.

Lemma loadTasks_tolerates_witness :
  (exists s', init (fields (Some "[[[") 4096) = Returns tt s')
  /\ (exists s',
        init (fields (Some "[[[") 4096) = Returns tt s'
        /\ tasks s' = [] /\ taskIdCounter s' = Num 0)
  /\ (exists s',
        init (fields (Some "1.") 4096) = Returns tt s'
        /\ tasks s' = [] /\ taskIdCounter s' = Num 0)
  /\ (exists s',
        init (fields (Some "[1.5") 4096) = Returns tt s'
        /\ tasks s' = [] /\ taskIdCounter s' = Num 0)
  /\ (exists s',
        init (fields (Some "{oops") 4096) = Returns tt s'
        /\ tasks s' = [] /\ taskIdCounter s' = Num 0)
  /\ (exists s',
        init (fields (Some Examples.untidy_blob) 4096) = Returns tt s'
        /\ map Obj (tasks s') = firstn 4 Examples.untidy_entries
        /\ taskIdCounter s' = Num 6).
Proof.
  split.
  { destruct (loadTasks_tolerates (Some "[[[") 4096) as (H & _).
    apply H. intros text E. injection E as <-. reflexivity. }
  split.
  { destruct (loadTasks_tolerates (Some "[[[") 4096) as (_ & H & _).
    apply (H "[[[" eq_refl). reflexivity. }
  split.
  { destruct (loadTasks_tolerates (Some "1.") 4096) as (_ & H & _).
    apply (H "1." eq_refl). reflexivity. }
  split.
  { destruct (loadTasks_tolerates (Some "[1.5") 4096) as (_ & H & _).
    apply (H "[1.5" eq_refl). reflexivity. }
  split.
  { destruct (loadTasks_tolerates (Some "{oops") 4096) as (_ & H & _).
    apply (H "{oops" eq_refl). reflexivity. }
  destruct (loadTasks_tolerates (Some Examples.untidy_blob) 4096)
    as (_ & _ & _ & _ & H).
  apply (H _ Examples.untidy_entries eq_refl). reflexivity.
Defined.

(** *** Creation *)

(** C5, as stated, fails on the id: [addTask] gives the new task the
    counter plus one and looks at no id.  In the instance constructed
    over a store whose counter, 4, is behind the id of its task, 5, a
    valid text is appended with id 5, the id the other task has. *)
Lemma addTask_repeats_an_id :
  exists s s' loaded added,
    init (fields (Some Examples.stale_blob) 4096) = Returns tt s
    /\ tasks s = [loaded]
    /\ addTask "Call bank" "" "09:00" s = Returns tt s'
    /\ tasks s' = [loaded; added]
    /\ id added = Some (Num 5)
    /\ In (id added) (map id (tasks s)).
Proof.
  eexists. eexists. eexists. eexists.
  split; [vm_compute; reflexivity|].
  split; [reflexivity|].
  split; [vm_compute; reflexivity|].
  split; [reflexivity|].
  split; [reflexivity|].
  left. reflexivity.
Qed.

(** C5, as the program has it: where the counter is a number and every
    task has a string text, [addTask] on an input whose trimmed text is
    empty shows the empty-text message, on one longer than 100 the length
    message, on one whose lower-case form is that of the text of a task
    (so on one that differs from it in the case of letters only) the
    duplicate message, and each time leaves the tasks, the counter and
    the browser store as they were.  Otherwise, the counter being in the
    range where adding one is exact, it appends one task whose id is the
    counter plus one, which becomes the counter, with the trimmed text,
    [completed] false, [completedAt] null and the deadline given, or null
    when none was; no task had that id if no id was above the counter. *)
Theorem addTask_validates_and_appends
    (input deadline_input now : string) (s : app) (c : Z) :
  taskIdCounter s = Num c ->
  Terms.texts_are_strings (tasks s) ->
  (trim input = "" ->
   fails_with EmptyText s (addTask input deadline_input now s))
  /\ (trim input <> "" -> (100 < String.length (trim input))%nat ->
      fails_with TooLong s (addTask input deadline_input now s))
  /\ (trim input <> "" -> (String.length (trim input) <= 100)%nat ->
      (exists t, In t (tasks s) /\ same_text (trim input) t = true) ->
      fails_with DuplicateText s (addTask input deadline_input now s))
  /\ (trim input <> "" -> (String.length (trim input) <= 100)%nat ->
      (exists t y,
          In t (tasks s) /\ text t = Some (Str y)
          /\ equal_up_to_case y (trim input) = true) ->
      fails_with DuplicateText s (addTask input deadline_input now s))
  /\ (trim input <> "" -> (String.length (trim input) <= 100)%nat ->
      (forall t, In t (tasks s) -> same_text (trim input) t = false) ->
      increments_exactly c ->
      exists s' task,
        addTask input deadline_input now s = Returns tt s'
        /\ tasks s' = tasks s ++ [task]
        /\ taskIdCounter s' = Num (c + 1)
        /\ id task = Some (Num (c + 1))
        /\ text task = Some (Str (trim input))
        /\ completed task = Some (Bool false)
        /\ completedAt task = Some Null
        /\ deadline task
           = Some (if (deadline_input =? "")%string then Null
                   else Str deadline_input)
        /\ ((forall n, In n (ids (tasks s)) -> n <= c) ->
            ~ In (Some (Num (c + 1))) (map id (tasks s)))).
Proof.
  intros Hc Ht. repeat split.
  - intros E. rewrite (addTask_empty _ _ _ _ E). eexists. now repeat split.
  - intros E L. rewrite (addTask_long _ _ _ _ E L). eexists. now repeat split.
  - intros E L D. apply existsb_some in D.
    rewrite (addTask_duplicate _ _ _ _ E L Ht D). eexists. now repeat split.
  - intros E L (t & y & Hin & Hy & D).
    assert (D' : existsb (same_text (trim input)) (tasks s) = true).
    { apply existsb_some. exists t. split; [exact Hin|].
      now apply (equal_up_to_case_same_text _ y). }
    rewrite (addTask_duplicate _ _ _ _ E L Ht D'). eexists. now repeat split.
  - intros E L D _. apply existsb_none in D.
    rewrite (addTask_pushes _ _ _ _ c E L Ht D Hc).
    eexists. eexists. split; [reflexivity|].
    autorewrite with saved. simpl.
    repeat split; try reflexivity.
    + unfold deadline, new_task. simpl.
      destruct (deadline_input =? "")%string; reflexivity.
    + apply ids_below_fresh.
Qed.

Lemma addTask_validates_and_appends_witness :
  fails_with EmptyText Examples.two_tasks
    (addTask "   " "" "09:10" Examples.two_tasks)
  /\ fails_with TooLong Examples.two_tasks
       (addTask (Examples.x_times 101) "" "09:10" Examples.two_tasks)
  /\ fails_with DuplicateText Examples.two_tasks
       (addTask " WRITE REPORT " "" "09:10" Examples.two_tasks)
  /\ fails_with DuplicateText Examples.two_tasks
       (addTask "send Report" "" "09:10" Examples.two_tasks)
  /\ exists s' task,
       addTask " Buy milk " "2025-01-01" "09:10" Examples.two_tasks
       = Returns tt s'
       /\ tasks s' = [Examples.done_task; Examples.open_task; task]
       /\ taskIdCounter s' = Num 3
       /\ id task = Some (Num 3)
       /\ text task = Some (Str "Buy milk")
       /\ deadline task = Some (Str "2025-01-01")
       /\ ~ In (id task) (map id (tasks Examples.two_tasks)).
Proof.
  assert (Ht : Terms.texts_are_strings (tasks Examples.two_tasks)).
  { repeat constructor; eexists; reflexivity. }
  split.
  { apply (addTask_validates_and_appends "   " "" "09:10" Examples.two_tasks 2
             eq_refl Ht). reflexivity. }
  split.
  { destruct (addTask_validates_and_appends (Examples.x_times 101) "" "09:10"
                Examples.two_tasks 2 eq_refl Ht) as (_ & H & _).
    apply H; [vm_compute; discriminate | vm_compute; lia]. }
  split.
  { destruct (addTask_validates_and_appends " WRITE REPORT " "" "09:10"
                Examples.two_tasks 2 eq_refl Ht) as (_ & _ & H & _).
    apply H; [vm_compute; discriminate | apply Nat.leb_le; reflexivity|].
    exists Examples.done_task. split; [now left | reflexivity]. }
  split.
  { destruct (addTask_validates_and_appends "send Report" "" "09:10"
                Examples.two_tasks 2 eq_refl Ht) as (_ & _ & _ & H & _).
    apply H; [vm_compute; discriminate | apply Nat.leb_le; reflexivity|].
    exists Examples.open_task, "Send report".
    split; [right; now left | split; reflexivity]. }
  destruct (addTask_validates_and_appends " Buy milk " "2025-01-01" "09:10"
              Examples.two_tasks 2 eq_refl Ht) as (_ & _ & _ & _ & H).
  destruct H as (s' & task & H1 & H2 & H3 & H4 & H5 & _ & _ & H6 & H7).
  - vm_compute. discriminate.
  - apply Nat.leb_le. reflexivity.
  - intros t [<-|[<-|[]]]; reflexivity.
  - unfold increments_exactly. lia.
  - exists s', task. rewrite H4. repeat split; try assumption.
    apply H7. intros n [<-|[<-|[]]]; lia.
Defined.

(** *** The id sequence *)

(** C9, as stated, fails for the ids handed out before the instance was
    constructed: [clearAll] keeps the counter, and the counter need not
    have passed them.  Over a store whose counter, 4, is behind the id of
    its task, 5, the task added after [clearAll] gets id 5 again. *)
Lemma clearAll_then_addTask_repeats_an_id :
  exists s0 s1 s2 loaded added,
    init (fields (Some Examples.stale_blob) 4096) = Returns tt s0
    /\ tasks s0 = [loaded]
    /\ id loaded = Some (Num 5)
    /\ clearAll "09:00" s0 = Returns tt s1
    /\ tasks s1 = []
    /\ taskIdCounter s1 = taskIdCounter s0
    /\ addTask "Call bank" "" "09:01" s1 = Returns tt s2
    /\ tasks s2 = [added]
    /\ id added = Some (Num 5).
Proof.
  eexists. eexists. eexists. eexists. eexists.
  split; [vm_compute; reflexivity|].
  split; [reflexivity|].
  split; [reflexivity|].
  split; [vm_compute; reflexivity|].
  split; [reflexivity|].
  split; [reflexivity|].
  split; [vm_compute; reflexivity|].
  split; reflexivity.
Qed.

(** C9, as the program has it: where the counter is a number and every
    task has a string text, every sequence of calls returns, and
    [clearAll] after it empties the array, clears the edit marker and
    leaves the counter.  While the counter stays in the range where
    adding one is exact, the next task added, the only one in the array,
    has the counter plus one as its id, above every id handed out by
    those calls, and above every id the instance started with if the
    counter it started with had passed them. *)
Theorem clearAll_keeps_counter (calls : list call) (s0 : app) (c0 : Z) (now : string) :
  taskIdCounter s0 = Num c0 ->
  Terms.texts_are_strings (tasks s0) ->
  - 2 ^ 53 <= c0 ->
  c0 + Z.of_nat (List.length calls) < 2 ^ 53 ->
  exists s1 s2 c,
    run calls s0 = Returns tt s1
    /\ clearAll now s1 = Returns tt s2
    /\ tasks s2 = []
    /\ editingTaskId s2 = None
    /\ taskIdCounter s1 = Num c
    /\ taskIdCounter s2 = Num c
    /\ increments_exactly c
    /\ forall input deadline_input now',
         trim input <> "" -> (String.length (trim input) <= 100)%nat ->
         exists s3 task,
           addTask input deadline_input now' s2 = Returns tt s3
           /\ tasks s3 = [task]
           /\ id task = Some (Num (c + 1))
           /\ (forall n, In n (issued calls s0) -> n < c + 1)
           /\ ((forall n, In n (ids (tasks s0)) -> n <= c0) ->
               forall n, In n (ids (tasks s0)) -> n < c + 1).
Proof.
  intros Hc Ht Hlo Hhi.
  destruct (run_counted calls s0 c0 Hc Ht) as (s1 & c & E & Hc1 & _ & Hle & Ha).
  exists s1. eexists. exists c. split; [exact E|].
  split; [apply clearAll_eq|].
  autorewrite with saved. simpl.
  split; [reflexivity|]. split; [reflexivity|].
  split; [exact Hc1|]. split; [exact Hc1|].
  split; [unfold increments_exactly; lia|].
  intros input deadline_input now' En Ln.
  rewrite (addTask_pushes input deadline_input now' _ c En Ln);
    [| rewrite saved_tasks; constructor
     | rewrite saved_tasks; reflexivity
     | rewrite saved_taskIdCounter; exact Hc1].
  eexists. eexists. split; [reflexivity|].
  rewrite !saved_tasks. simpl. repeat split.
  - intros n Hn. apply Ha in Hn. lia.
  - intros Hi n Hn. apply Hi in Hn. lia.
Qed.

Lemma clearAll_keeps_counter_witness :
  exists s1 s2 s3 task,
    run [AddTask "a" "" "09:10"; DeleteTask 1 true "09:11"; Timeout "09:12";
         AddTask "b" "" "09:13"] Examples.two_tasks = Returns tt s1
    /\ issued [AddTask "a" "" "09:10"; DeleteTask 1 true "09:11";
               Timeout "09:12"; AddTask "b" "" "09:13"] Examples.two_tasks
       = [3; 4]
    /\ clearAll "09:14" s1 = Returns tt s2
    /\ tasks s2 = []
    /\ taskIdCounter s2 = Num 4
    /\ addTask "task" "" "09:15" s2 = Returns tt s3
    /\ tasks s3 = [task]
    /\ id task = Some (Num 5).
Proof.
  assert (Ht : Terms.texts_are_strings (tasks Examples.two_tasks)).
  { repeat constructor; eexists; reflexivity. }
  destruct (clearAll_keeps_counter
              [AddTask "a" "" "09:10"; DeleteTask 1 true "09:11";
               Timeout "09:12"; AddTask "b" "" "09:13"]
              Examples.two_tasks 2 "09:14" eq_refl Ht)
    as (s1 & s2 & c & E1 & E2 & Ht2 & _ & Hc1 & Hc2 & _ & H);
    [lia | simpl; lia |].
  assert (Hc : c = 4).
  { vm_compute in E1. injection E1 as <-. now injection Hc1 as <-. }
  subst c.
  destruct (H "task" "" "09:15") as (s3 & task & E3 & Ht3 & Hid & _);
    [vm_compute; discriminate | apply Nat.leb_le; reflexivity |].
  exists s1, s2, s3, task.
  split; [exact E1|]. split; [vm_compute; reflexivity|].
  repeat split; assumption.
Defined.

(** *** The counter after a reload *)

(** C1, as stated, fails: the loader does not raise the counter to the
    largest loaded id.  Over a store whose counter is 4 and whose one task
    has id 5, the new instance has counter 4, not 5, and the next task
    added gets id 5, the id of the loaded task. *)
Lemma loadTasks_keeps_stale_counter :
  exists s1 s2 loaded added,
    init (fields (Some Examples.stale_blob) 4096) = Returns tt s1
    /\ tasks s1 = [loaded]
    /\ id loaded = Some (Num 5)
    /\ taskIdCounter s1 = Num 4
    /\ taskIdCounter s1 <> Num (Z.max 4 (max_id (tasks s1)))
    /\ addTask "Call bank" "" "09:00" s1 = Returns tt s2
    /\ tasks s2 = [loaded; added]
    /\ id added = id loaded.
Proof.
  eexists. eexists. eexists. eexists.
  split; [vm_compute; reflexivity|].
  split; [reflexivity|].
  split; [reflexivity|].
  split; [reflexivity|].
  split; [vm_compute; discriminate|].
  split; [vm_compute; reflexivity|].
  split; reflexivity.
Qed.

(** C1, as the program has it: after a reload the counter is the stored
    [taskIdCounter] when that is truthy and 0 otherwise, whatever the ids
    of the loaded tasks.  When that counter is a number in the range
    where adding one is exact and no loaded id is above it, a task added
    next gets the counter plus one, an id no loaded task has. *)
Theorem loadTasks_trusts_stored_counter
    (stored : string) (q : nat) (data : value) (entries : list value) :
  JSON.parse stored = JSON.Value data ->
  prop data "tasks" = Some (Arr entries) ->
  exists s1,
    init (fields (Some stored) q) = Returns tt s1
    /\ taskIdCounter s1 = or_else (prop data "taskIdCounter") (Num 0)
    /\ map Obj (tasks s1) = filter usable entries
    /\ forall c input deadline_input now,
         taskIdCounter s1 = Num c ->
         increments_exactly c ->
         (forall n, In n (ids (tasks s1)) -> n <= c) ->
         trim input <> "" -> (String.length (trim input) <= 100)%nat ->
         (forall t, In t (tasks s1) -> same_text (trim input) t = false) ->
         exists s2 task,
           addTask input deadline_input now s1 = Returns tt s2
           /\ tasks s2 = tasks s1 ++ [task]
           /\ id task = Some (Num (c + 1))
           /\ ~ In (c + 1) (ids (tasks s1)).
Proof.
  intros P Ht. exists (hydrated data (fields (Some stored) q)).
  split; [now apply (loadTasks_value _ stored data)|].
  destruct (hydrated_array data entries (fields (Some stored) q) Ht)
    as (Hl & Hc & _).
  split; [exact Hc|]. split; [exact Hl|].
  intros c input deadline_input now Hn _ Hle E L D.
  assert (Hs : Forall (fun t => exists y, text t = Some (Str y))
                 (tasks (hydrated data (fields (Some stored) q)))).
  { apply (Forall_impl _ (P := fun t => usable (Obj t) = true)).
    - intros t H. destruct (usable_Obj t H) as (n & x & _ & Hx). now exists x.
    - now apply (hydrated_usable entries). }
  apply existsb_none in D.
  rewrite (addTask_pushes input deadline_input now _ c E L Hs D Hn).
  eexists. eexists. split; [reflexivity|].
  rewrite saved_tasks. simpl. repeat split.
  intros Hin. apply Hle in Hin. lia.
Qed.

Lemma loadTasks_trusts_stored_counter_witness :
  exists s1 s2 task,
    init (fields (Some (blob "09:00" Examples.two_tasks)) 4096) = Returns tt s1
    /\ taskIdCounter s1 = Num 2
    /\ addTask "Call bank" "" "09:10" s1 = Returns tt s2
    /\ tasks s2 = tasks s1 ++ [task]
    /\ id task = Some (Num 3).
Proof.
  destruct (loadTasks_trusts_stored_counter
              (blob "09:00" Examples.two_tasks) 4096 _ _
              (JSONFacts.parse_stringify _) eq_refl)
    as (s1 & E1 & Hc & Ht & H).
  assert (Hl : tasks s1 = [Examples.done_task; Examples.open_task]).
  { apply (f_equal objects) in Ht. rewrite objects_map_Obj in Ht.
    rewrite Ht. vm_compute. reflexivity. }
  destruct (H 2 "Call bank" "" "09:10") as (s2 & task & E2 & Hp & Hid & _).
  - exact Hc.
  - unfold increments_exactly. lia.
  - rewrite Hl. intros n Hn. cbn in Hn. destruct Hn as [<-|[<-|[]]]; lia.
  - vm_compute. discriminate.
  - apply Nat.leb_le. reflexivity.
  - rewrite Hl. intros t [<-|[<-|[]]]; reflexivity.
  - exists s1, s2, task. repeat split; assumption.
Defined.

(** *** What the loader lets in *)

(** C10: the loader keeps an entry exactly when its [text] is a string
    and its [id] a number, and looks at nothing else.  Every such entry
    of the stored array is a task of the new instance.  So a stored text
    can put side by side an empty text, a text of 101 characters and two
    texts equal up to case, which no sequence of calls on an instance
    that started empty ever does. *)
Theorem loadTasks_checks_types_only :
  (forall stored q data entries,
      JSON.parse stored = JSON.Value data ->
      prop data "tasks" = Some (Arr entries) ->
      exists s',
        init (fields (Some stored) q) = Returns tt s'
        /\ (forall t, In t (tasks s') <-> In (Obj t) entries /\ usable (Obj t) = true)
        /\ (forall e, In e entries -> usable e = true ->
                      exists t, e = Obj t /\ In t (tasks s')))
  /\ (forall q, exists s',
        init (fields (Some Examples.untidy_blob) q) = Returns tt s'
        /\ map text (tasks s')
           = [Some (Str ""); Some (Str (Examples.x_times 101));
              Some (Str "Buy milk"); Some (Str "buy MILK")]
        /\ ~ tidy (tasks s'))
  /\ (forall q calls, exists s',
        run calls (fields None q) = Returns tt s' /\ tidy (tasks s')).
Proof.
  split; [|split].
  - intros stored q data entries P Ht.
    exists (hydrated data (fields (Some stored) q)).
    split; [now apply (loadTasks_value _ stored data)|].
    destruct (hydrated_array data entries (fields (Some stored) q) Ht)
      as (Hl & _).
    set (s' := hydrated data _) in *. split.
    + intros t. rewrite <- filter_In, <- Hl. split.
      * apply in_map.
      * intros Hin. apply in_map_iff in Hin.
        destruct Hin as (u & [= ->] & Hu). exact Hu.
    + intros e He Hu.
      assert (Hin : In e (map Obj (tasks s')))
        by (rewrite Hl; apply filter_In; now split).
      apply in_map_iff in Hin. destruct Hin as (t & <- & Hin). now exists t.
  - intros q. eexists.
    split; [apply (loadTasks_value _ Examples.untidy_blob);
            [reflexivity | apply JSONFacts.parse_stringify]|].
    split; [vm_compute; reflexivity|].
    intros (T & _). vm_compute in T. inversion T as [|? ? (x & Hx & Hn & _) _].
    injection Hx as <-. now apply Hn.
  - intros q calls.
    destruct (run_orderly calls (fields None q)) as (s' & E & _ & _ & T).
    + repeat split; try constructor.
      exists 0. split; [reflexivity | constructor].
    + now exists s'.
Qed.

Lemma loadTasks_checks_types_only_witness :
  exists s' t,
    init (fields (Some Examples.untidy_blob) 4096) = Returns tt s'
    /\ text t = Some (Str "")
    /\ In t (tasks s').
Proof.
  destruct loadTasks_checks_types_only as (H & _).
  destruct (H Examples.untidy_blob 4096%nat _ Examples.untidy_entries
              (JSONFacts.parse_stringify _) eq_refl)
    as (s' & E & _ & Hin).
  destruct (Hin (Obj [("id", Num 1); ("text", Str "")])) as (t & Ht & Hl).
  - left. reflexivity.
  - reflexivity.
  - exists s', t. injection Ht as <-. repeat split; assumption.
Defined.

(* ================================================================== *)
(** * Part III: further properties *)
(* ================================================================== *)

(** ** What a call leaves behind *)

Module CallFacts.
Import JS Eff TodoApp Session Spec Page Terms JSFacts AppFacts Invariants.
Local Open Scope eff_scope.

(** Splits on the innermost test the goal still has. *)
Ltac split_innermost :=
  match goal with
  | |- context [match ?x with _ => _ end] =>
      lazymatch x with
      | match _ with _ => _ end => fail
      | (match _ with _ => _ end) _ => fail
      | _ => destruct x eqn:?
      end
  end.

(** Runs a method body down to the states it can end in. *)
Ltac run_body :=
  unfold perform, addTask, validateTaskInput, increment_taskIdCounter,
    toggleTask, deleteTask, timeout, remove_at, editTask, cancelEdit,
    saveEdit, setFilter, clearCompleted, clearAll;
  eff;
  repeat (rewrite ?saveTasks_saved; cbv beta iota; split_innermost);
  rewrite ?saveTasks_saved; cbv beta iota.

(** *** Saving *)

Lemma console_saved (now : string) (s : app) :
  exists extra, console (saved now s) = console s ++ extra.
Proof.
  unfold saved. destruct (_ <? _)%nat; simpl.
  - now exists ["Failed to save tasks:"].
  - exists []. now rewrite List.app_nil_r.
Qed.

Lemma app_same {A} (l extra : list A) : l ++ extra = l -> extra = [].
Proof.
  intros H. apply (f_equal (@List.length A)) in H.
  rewrite length_app in H. destruct extra; [reflexivity | simpl in H; lia].
Qed.

(** A save that logs nothing has written the store. *)
Lemma saved_stored (now : string) (s : app) :
  console (saved now s) = console s -> stored (saved now s).
Proof.
  unfold saved. destruct (_ <? _)%nat; simpl; intros H.
  - apply app_same in H. discriminate.
  - exists now. reflexivity.
Qed.

(** A save that logs something has left the store alone and shows the
    message. *)
Lemma saved_failed (now : string) (s : app) :
  console (saved now s) <> console s ->
  localStorage (saved now s) = localStorage s
  /\ inputError (saved now s) = SaveFailed
  /\ console (saved now s) = console s ++ ["Failed to save tasks:"].
Proof.
  unfold saved. destruct (_ <? _)%nat; simpl; intros H.
  - now repeat split.
  - now elim H.
Qed.

(** A call either leaves the tasks, the counter, the store and the
    console alone, or ends with a save. *)
Lemma perform_saves (c : call) (s s' : app) :
  perform c s = Returns tt s' ->
  (tasks s' = tasks s /\ taskIdCounter s' = taskIdCounter s
   /\ localStorage s' = localStorage s /\ console s' = console s)
  \/ (exists now s1,
        s' = saved now s1
        /\ console s1 = console s /\ localStorage s1 = localStorage s).
Proof.
  destruct c; run_body; try discriminate; intros [= <-];
    try (left; repeat split; reflexivity);
    right; eexists; eexists; (split; [reflexivity | split; reflexivity]).
Qed.

Lemma perform_console (c : call) (s s' : app) :
  perform c s = Returns tt s' ->
  exists extra, console s' = console s ++ extra.
Proof.
  intros H. destruct (perform_saves c s s' H)
    as [(_ & _ & _ & ->)|(now & s1 & -> & <- & _)].
  - exists []. now rewrite List.app_nil_r.
  - apply console_saved.
Qed.

Lemma run_step (c : call) (calls : list call) (s s' : app) :
  run (c :: calls) s = Returns tt s' ->
  exists s1, perform c s = Returns tt s1 /\ run calls s1 = Returns tt s'.
Proof.
  simpl. unfold bind. destruct (perform c s) as [[] s1| |]; try discriminate.
  intros H. now exists s1.
Qed.

Lemma run_console (calls : list call) (s s' : app) :
  run calls s = Returns tt s' ->
  exists extra, console s' = console s ++ extra.
Proof.
  revert s. induction calls as [|c calls IH]; intros s H.
  - injection H as <-. exists []. now rewrite List.app_nil_r.
  - destruct (run_step _ _ _ _ H) as (s1 & H1 & H2).
    destruct (perform_console _ _ _ H1) as (e1 & E1).
    destruct (IH _ H2) as (e2 & E2).
    exists (e1 ++ e2). now rewrite E2, E1, app_assoc.
Qed.

Lemma stored_same (s s' : app) :
  stored s -> tasks s' = tasks s -> taskIdCounter s' = taskIdCounter s ->
  localStorage s' = localStorage s -> stored s'.
Proof.
  intros (now & H) Ht Hc Hs. exists now. unfold blob in *.
  now rewrite Hs, Ht, Hc.
Qed.

(** *** Places *)

(** A call that works in place leaves the timers alone and the ids at
    their indices, whatever way it ends. *)
Lemma in_place_keeps (c : call) (s s' : app) :
  in_place c = true ->
  final (perform c s) = Some s' ->
  timers s' = timers s
  /\ exists extra, map id (tasks s') = map id (tasks s) ++ extra.
Proof.
  destruct c; try discriminate; intros _; run_body; simpl final;
    try discriminate; intros [= <-];
    autorewrite with saved; simpl; (split; [reflexivity|]);
    rewrite ?map_app, ?(map_update_first id _ _ _ (toggle_id _)),
      ?(map_update_first id _ _ _ (assign_text_id _));
    try (exists []; now rewrite List.app_nil_r);
    eexists; reflexivity.
Qed.



(** *** Completion *)

Lemma coherent_toggle (now : string) (t : object) : coherent (toggle now t).
Proof.
  unfold coherent. rewrite toggle_completed, toggle_completedAt.
  destruct (is_completed t); simpl; [left | right]; split; try reflexivity.
  now exists now.
Qed.

Lemma coherent_assign_text (x : string) (t : object) :
  coherent t -> coherent (assign "text" (Str x) t).
Proof.
  unfold coherent, completed, completedAt.
  now rewrite !lookup_assign_other by discriminate.
Qed.

Lemma change_coherent (c c' : Z) (l l' : list object) :
  change c l c' l' -> Forall coherent l -> Forall coherent l'.
Proof.
  intros [ |text now deadline E L D|taskId now|i|taskId text t E L D F|p| ] H.
  - exact H.
  - apply Forall_app. split; [exact H|].
    constructor; [|constructor]. left. split; reflexivity.
  - apply Forall_forall. intros u Hu.
    assert (G : Forall (fun u => coherent u \/ exists t, u = toggle now t)
                  (update_first (has_id taskId) (toggle now) l)).
    { clear Hu. induction H as [|x l Hx Hl IH]; simpl; [constructor|].
      destruct (has_id taskId x); constructor;
        try (now left); try (right; now exists x).
      - apply (Forall_impl _ (fun a Ha => or_introl Ha) Hl).
      - exact IH. }
    rewrite Forall_forall in G. destruct (G u Hu) as [Hc|(t & ->)];
      [exact Hc | apply coherent_toggle].
  - now apply Forall_splice1.
  - apply Forall_update_first; [apply coherent_assign_text | exact H].
  - now apply Forall_filter'.
  - constructor.
Qed.

(** *** The counter *)

Lemma following_next (c : Z) (k : nat) :
  following c (S k) = (c + 1) :: following (c + 1) k.
Proof.
  unfold following. simpl seq. simpl map. f_equal.
  rewrite <- seq_shift, map_map. apply map_ext. intros i. lia.
Qed.

(** A call either hands out no id and leaves the counter, or hands out
    the next number and makes it the counter. *)
Lemma perform_counter (call : call) (s s' : app) (c : Z) :
  taskIdCounter s = Num c ->
  perform call s = Returns tt s' ->
  (taskIdCounter s' = Num c /\ added call s s' = [])
  \/ (taskIdCounter s' = Num (c + 1) /\ added call s s' = [c + 1]).
Proof.
  intros Hc. unfold added.
  destruct call; run_body; try discriminate; intros [= <-];
    autorewrite with saved; simpl tasks; simpl taskIdCounter;
    rewrite ?ids_skipn_same;
    try (left; split; [exact Hc | reflexivity]).
  right. rewrite Hc in *. match goal with H : Num _ = Num _ |- _ => injection H as <- end.
  split; [reflexivity|]. now rewrite ids_skipn_push.
Qed.

(** *** Editing *)

Lemma saveEdit_found (taskId : Z) (input now : string) (s : app) (t : object) :
  texts_are_strings (tasks s) ->
  trim input <> "" -> (String.length (trim input) <= 100)%nat ->
  existsb (fun t => negb (has_id taskId t) && same_text (trim input) t)
    (tasks s) = false ->
  find (has_id taskId) (tasks s) = Some t ->
  saveEdit taskId (Some input) now s
  = Returns tt
      (saved now
         (with_inputError ""
            (with_editingTaskId None
               (with_tasks
                  (update_first (has_id taskId)
                     (assign "text" (Str (trim input))) (tasks s)) s)))).
Proof.
  intros Ht E L D F. apply String.eqb_neq in E. apply Nat.ltb_ge in L.
  unfold saveEdit. eff.
  rewrite empty_test, E, L, (some_other_text _ _ _ Ht), D. eff.
  rewrite F. eff. simpl. now rewrite saveTasks_saved.
Qed.

Lemma saveEdit_absent (taskId : Z) (input now : string) (s : app) :
  texts_are_strings (tasks s) ->
  trim input <> "" -> (String.length (trim input) <= 100)%nat ->
  existsb (fun t => negb (has_id taskId t) && same_text (trim input) t)
    (tasks s) = false ->
  find (has_id taskId) (tasks s) = None ->
  saveEdit taskId (Some input) now s = Returns tt s.
Proof.
  intros Ht E L D F. apply String.eqb_neq in E. apply Nat.ltb_ge in L.
  unfold saveEdit. eff.
  rewrite empty_test, E, L, (some_other_text _ _ _ Ht), D. eff.
  now rewrite F.
Qed.

Lemma saveEdit_duplicate (taskId : Z) (input now : string) (s : app) :
  texts_are_strings (tasks s) ->
  trim input <> "" -> (String.length (trim input) <= 100)%nat ->
  existsb (fun t => negb (has_id taskId t) && same_text (trim input) t)
    (tasks s) = true ->
  saveEdit taskId (Some input) now s
  = Returns tt (with_inputError DuplicateText s).
Proof.
  intros Ht E L D. apply String.eqb_neq in E. apply Nat.ltb_ge in L.
  unfold saveEdit. eff.
  now rewrite empty_test, E, L, (some_other_text _ _ _ Ht), D.
Qed.

Lemma toLowerCase_length (x : string) :
  String.length (toLowerCase x) = String.length x.
Proof. induction x as [|c x IH]; simpl; [reflexivity | now rewrite IH]. Qed.

Lemma same_text_lower (x : string) (u : object) :
  same_text x u = true -> lower u = Some (toLowerCase x).
Proof.
  unfold same_text, lower. destruct (text u) as [[]|]; try discriminate.
  intros H. apply String.eqb_eq in H. now rewrite H.
Qed.

Lemma tidy_texts (l : list object) : tidy l -> texts_are_strings l.
Proof.
  intros (T & _). apply (Forall_impl _ (P := fun t => exists x,
    text t = Some (Str x) /\ x <> "" /\ (String.length x <= 100)%nat)); [|exact T].
  intros t (x & Hx & _). now exists x.
Qed.

(** Among tasks with distinct texts, none but the task itself has the
    text of a task. *)
Lemma own_text_free (taskId : Z) (x y : string) (l : list object) (t : object) :
  NoDup (map lower l) ->
  find (has_id taskId) l = Some t ->
  text t = Some (Str x) -> toLowerCase y = toLowerCase x ->
  existsb (fun u => negb (has_id taskId u) && same_text y u) l = false.
Proof.
  intros N F Hx Hy.
  destruct (find_split _ _ _ F) as (before & after & -> & Ht & Hb).
  rewrite map_app in N. simpl in N. apply NoDup_remove_2 in N.
  assert (Hl : lower t = Some (toLowerCase y)).
  { unfold lower. now rewrite Hx, Hy. }
  apply existsb_none. intros u Hu.
  destruct (same_text y u) eqn:S; [|apply andb_false_r].
  apply same_text_lower in S. rewrite andb_true_r.
  apply in_app_or in Hu. destruct Hu as [Hu|[<-|Hu]].
  - elim N. apply in_or_app. left. rewrite Hl, <- S. now apply in_map.
  - now rewrite Ht.
  - elim N. apply in_or_app. right. rewrite Hl, <- S. now apply in_map.
Qed.

(** *** Views *)

Lemma getFilteredTasks_active (s : app) :
  currentFilter s = "active" ->
  getFilteredTasks s
  = Returns (filter (fun t => negb (is_completed t)) (tasks s)) s.
Proof. intros H. unfold getFilteredTasks. eff. now rewrite H. Qed.

Lemma getFilteredTasks_completed (s : app) :
  currentFilter s = "completed" ->
  getFilteredTasks s = Returns (filter is_completed (tasks s)) s.
Proof. intros H. unfold getFilteredTasks. eff. now rewrite H. Qed.

Lemma getFilteredTasks_other (s : app) :
  currentFilter s <> "active" -> currentFilter s <> "completed" ->
  getFilteredTasks s = Returns (tasks s) s.
Proof.
  intros H1 H2. apply String.eqb_neq in H1, H2.
  unfold getFilteredTasks. eff. now rewrite H1, H2.
Qed.

(** The tasks that are not completed are the others. *)
Lemma active_count (l : list object) :
  (List.length l - List.length (filter (fun task => is_completed task) l))%nat
  = List.length (filter (fun t => negb (is_completed t)) l).
Proof.
  pose proof (filter_length (fun task => is_completed task) l) as L.
  cbv beta in L. lia.
Qed.

Lemma filter_shorter {A} (p : A -> bool) (l : list A) :
  (List.length (filter p l) <= List.length l)%nat.
Proof.
  induction l as [|x l IH]; simpl; [lia|]. destruct (p x); simpl; lia.
Qed.

(** *** Ids *)

Lemma filter_none {A} (p : A -> bool) (l : list A) :
  (forall x, In x l -> p x = false) -> filter p l = [].
Proof.
  induction l as [|x l IH]; simpl; intros H; [reflexivity|].
  rewrite (H x) by now left. apply IH. intros; apply H; now right.
Qed.

(** With distinct ids, an id names at most one task. *)
Lemma at_most_one (taskId : Z) (l : list object) :
  NoDup (map id l) -> (List.length (filter (has_id taskId) l) <= 1)%nat.
Proof.
  induction l as [|x l IH]; simpl; intros N; [lia|].
  inversion N as [|? ? Hx Hl]; subst.
  destruct (has_id taskId x) eqn:E; [|now apply IH].
  rewrite filter_none; [simpl; lia|].
  intros u Hu. destruct (has_id taskId u) eqn:Eu; [|reflexivity].
  elim Hx. rewrite (has_id_id _ _ E), <- (has_id_id _ _ Eu). now apply in_map.
Qed.

End CallFacts.

(** ** Properties of the instance *)

Import JS Eff TodoApp Session Spec Views Page Terms.
Import JSFacts AppFacts Invariants CallFacts.

(** *** Editing *)

(** X1: [saveEdit] refuses a text that is empty once trimmed, one longer
    than 100 characters, and one equal up to letter case to the text of a
    task with another id.  Each time it shows the message, and leaves the
    tasks, the counter, the store and the edit marker as they were.  The
    message for the empty text is not the one [addTask] shows. *)
Theorem saveEdit_refuses (taskId : Z) (input now : string) (s : app) :
  texts_are_strings (tasks s) ->
  (trim input = "" ->
   saveEdit taskId (Some input) now s
   = Returns tt (with_inputError EmptyEdit s))
  /\ (trim input <> "" -> (100 < String.length (trim input))%nat ->
      saveEdit taskId (Some input) now s
      = Returns tt (with_inputError TooLong s))
  /\ (trim input <> "" -> (String.length (trim input) <= 100)%nat ->
      (exists t, In t (tasks s) /\ has_id taskId t = false
                 /\ same_text (trim input) t = true) ->
      saveEdit taskId (Some input) now s
      = Returns tt (with_inputError DuplicateText s))
  /\ EmptyEdit <> EmptyText.
Proof.
  intros Ht. repeat split.
  - intros E. unfold saveEdit. eff. now rewrite empty_test, E.
  - intros E L. apply String.eqb_neq in E. apply Nat.ltb_lt in L.
    unfold saveEdit. eff. now rewrite empty_test, E, L.
  - intros E L (t & Hin & Hid & Hs).
    apply saveEdit_duplicate; try assumption.
    apply existsb_exists. exists t. now rewrite Hid, Hs.
  - discriminate.
Qed.

Lemma saveEdit_refuses_witness :
  exists s',
    saveEdit 2 (Some "  WRITE report ") "10:00" Examples.two_tasks
    = Returns tt s'
    /\ inputError s' = DuplicateText
    /\ tasks s' = tasks Examples.two_tasks
    /\ editingTaskId s' = editingTaskId Examples.two_tasks.
Proof.
  assert (H : texts_are_strings (tasks Examples.two_tasks)).
  { repeat constructor; eexists; reflexivity. }
  destruct (saveEdit_refuses 2 "  WRITE report " "10:00" Examples.two_tasks H)
    as (_ & _ & D & _).
  eexists. split.
  - apply D.
    + vm_compute. discriminate.
    + apply Nat.leb_le. reflexivity.
    + exists Examples.done_task. repeat split. now left.
  - repeat split.
Defined.

(** X2: when the text passes, [saveEdit] writes it into the first task
    with the id, at its place, and changes no other property of that
    task and no other task; the edit marker is cleared, the counter kept,
    and the result saved. *)
Theorem saveEdit_renames_in_place
    (taskId : Z) (input now : string) (s : app)
    (before after : list object) (t : object) :
  texts_are_strings (tasks s) ->
  tasks s = before ++ t :: after ->
  has_id taskId t = true ->
  (forall u, In u before -> has_id taskId u = false) ->
  trim input <> "" -> (String.length (trim input) <= 100)%nat ->
  (forall u, In u (tasks s) -> has_id taskId u = false ->
             same_text (trim input) u = false) ->
  exists s1 t',
    saveEdit taskId (Some input) now s = Returns tt (saved now s1)
    /\ tasks s1 = before ++ t' :: after
    /\ text t' = Some (Str (trim input))
    /\ (forall k, k <> "text" -> lookup k t' = lookup k t)
    /\ editingTaskId s1 = None
    /\ inputError s1 = ""
    /\ taskIdCounter s1 = taskIdCounter s
    /\ localStorage s1 = localStorage s.
Proof.
  intros Ht E Hid Hb Hn Hl Hd.
  assert (F : find (has_id taskId) (tasks s) = Some t).
  { rewrite E. now apply find_first. }
  assert (D : existsb (fun u => negb (has_id taskId u)
                                && same_text (trim input) u) (tasks s) = false).
  { apply existsb_none. intros u Hu.
    destruct (has_id taskId u) eqn:Hu'; [reflexivity|].
    simpl. now apply Hd. }
  eexists. exists (assign "text" (Str (trim input)) t).
  split; [apply (saveEdit_found _ _ _ _ t Ht Hn Hl D F)|].
  simpl. rewrite E, update_first_first by assumption.
  repeat split.
  - apply assign_text_text.
  - intros k Hk. apply lookup_assign_other. congruence.
Qed.

Lemma saveEdit_renames_in_place_witness :
  exists s1 t',
    saveEdit 2 (Some " Send the report ") "10:00" Examples.two_tasks
    = Returns tt (saved "10:00" s1)
    /\ tasks s1 = [Examples.done_task; t']
    /\ text t' = Some (Str "Send the report")
    /\ id t' = Some (Num 2).
Proof.
  destruct (saveEdit_renames_in_place 2 " Send the report " "10:00"
              Examples.two_tasks [Examples.done_task] [] Examples.open_task)
    as (s1 & t' & H & Hl & Hx & Hk & _).
  - repeat constructor; eexists; reflexivity.
  - reflexivity.
  - reflexivity.
  - intros u [<-|[]]. reflexivity.
  - vm_compute. discriminate.
  - apply Nat.leb_le. reflexivity.
  - intros u [<-|[<-|[]]]; intros Hu; [reflexivity | discriminate Hu].
  - exists s1, t'. repeat split; try assumption.
    unfold id. rewrite Hk by discriminate. reflexivity.
Defined.

(** X3: the duplicate test of [saveEdit] passes over the task that is
    edited.  Among tasks with distinct texts, saving a task under its own
    text, in any letter case, is accepted, while [addTask] with the same
    text is refused as a duplicate. *)
Theorem saveEdit_accepts_own_text
    (taskId : Z) (input now : string) (s : app) (t : object) (x : string) :
  tidy (tasks s) ->
  find (has_id taskId) (tasks s) = Some t ->
  text t = Some (Str x) ->
  toLowerCase (trim input) = toLowerCase x ->
  (exists s',
      saveEdit taskId (Some input) now s = Returns tt s'
      /\ find (has_id taskId) (tasks s')
         = Some (assign "text" (Str (trim input)) t)
      /\ editingTaskId s' = None)
  /\ forall deadline_input,
       addTask input deadline_input now s
       = Returns tt (with_inputError DuplicateText s).
Proof.
  intros T F Hx Hy.
  pose proof (tidy_texts _ T) as Ht.
  destruct (find_split _ _ _ F) as (before & after & E & Hid & Hb).
  assert (Hin : In t (tasks s)).
  { rewrite E. apply in_or_app. right. now left. }
  assert (Hlen : String.length (trim input) = String.length x).
  { rewrite <- (toLowerCase_length (trim input)), Hy.
    apply toLowerCase_length. }
  destruct T as (T & N). rewrite Forall_forall in T.
  destruct (T t Hin) as (x' & Hx' & Hne & Hle).
  rewrite Hx in Hx'. injection Hx' as <-.
  assert (Hn : trim input <> "").
  { intros Z. rewrite Z in Hlen. destruct x; [now elim Hne | discriminate]. }
  assert (Hl : (String.length (trim input) <= 100)%nat) by lia.
  split.
  - eexists. split.
    + apply (saveEdit_found _ _ _ _ t Ht Hn Hl); [|exact F].
      now apply (own_text_free taskId x (trim input) _ t).
    + autorewrite with saved. simpl. split; [|reflexivity].
      apply find_update_first; [exact F|].
      unfold has_id. rewrite assign_text_id. exact Hid.
  - intros deadline_input. apply addTask_duplicate; try assumption.
    apply existsb_exists. exists t. split; [exact Hin|].
    unfold same_text. rewrite Hx, Hy. apply String.eqb_refl.
Qed.

Lemma saveEdit_accepts_own_text_witness :
  exists s',
    saveEdit 2 (Some "SEND REPORT") "10:00" Examples.two_tasks
    = Returns tt s'
    /\ editingTaskId s' = None
    /\ addTask "SEND REPORT" "" "10:00" Examples.two_tasks
       = Returns tt (with_inputError DuplicateText Examples.two_tasks).
Proof.
  destruct (saveEdit_accepts_own_text 2 "SEND REPORT" "10:00"
              Examples.two_tasks Examples.open_task "Send report")
    as ((s' & H & _ & He) & A).
  - split.
    + repeat constructor; eexists; (split; [reflexivity|]);
        (split; [discriminate | apply Nat.leb_le; reflexivity]).
    + repeat constructor; simpl; intuition discriminate.
  - reflexivity.
  - reflexivity.
  - reflexivity.
  - exists s'. split; [exact H|]. split; [exact He | apply A].
Defined.

(** X4: [saveEdit] does nothing at all when the page has no edit box for
    the task, and when the text passes but no task has the id: it returns
    with the instance as it was, shows and clears no message, keeps the
    edit marker and saves nothing. *)
Theorem saveEdit_without_target (taskId : Z) (now : string) (s : app) :
  saveEdit taskId None now s = Returns tt s
  /\ forall input,
       texts_are_strings (tasks s) ->
       trim input <> "" -> (String.length (trim input) <= 100)%nat ->
       (forall t, In t (tasks s) ->
                  has_id taskId t = false /\ same_text (trim input) t = false) ->
       saveEdit taskId (Some input) now s = Returns tt s.
Proof.
  split; [reflexivity|]. intros input Ht Hn Hl H.
  apply saveEdit_absent; try assumption.
  - apply existsb_none. intros u Hu. destruct (H u Hu) as (_ & ->).
    apply andb_false_r.
  - destruct (find (has_id taskId) (tasks s)) as [t|] eqn:F; [|reflexivity].
    destruct (find_split _ _ _ F) as (b & a & E & Hid & _).
    destruct (H t) as (Hf & _); [|congruence].
    rewrite E. apply in_or_app. right. now left.
Qed.

Lemma saveEdit_without_target_witness :
  saveEdit 7 (Some "Call bank") "10:00" Examples.two_tasks
  = Returns tt Examples.two_tasks.
Proof.
  apply (saveEdit_without_target 7 "10:00" Examples.two_tasks).
  - repeat constructor; eexists; reflexivity.
  - vm_compute. discriminate.
  - apply Nat.leb_le. reflexivity.
  - intros t [<-|[<-|[]]]; split; reflexivity.
Defined.

(** X5: starting an edit checks nothing: [editTask] marks any id as the
    one being edited, whether a task has it or not, and a second call
    replaces the mark.  Starting an edit and cancelling it leaves the
    instance as it was but for a cleared message and a cleared mark. *)
Theorem editTask_then_cancelEdit (a b : Z) (s : app) :
  exists s1 s2,
    editTask a s = Returns tt s1
    /\ editingTaskId s1 = Some a
    /\ editTask b s1 = Returns tt s2
    /\ editingTaskId s2 = Some b
    /\ tasks s2 = tasks s
    /\ cancelEdit s2
       = Returns tt (with_inputError "" (with_editingTaskId None s)).
Proof.
  destruct (editTask_eq a s) as (m1 & E1).
  destruct (editTask_eq b (with_editingTaskId (Some a) (with_inputError m1 s)))
    as (m2 & E2).
  eexists. eexists. split; [exact E1|]. split; [reflexivity|].
  split; [exact E2|]. repeat split.
Qed.

(** *** Completing and clearing *)

(** X6: [toggleTask] changes one task, the first with the id, and of it
    only [completed], which it negates, and [completedAt], which becomes
    the time of the call or null; every other property, every other task
    and the order are kept.  When no task has the id it returns with the
    instance as it was, and saves nothing. *)
Theorem toggleTask_changes_one_task (taskId : Z) (now : string) (s : app) :
  (forall before t after,
      tasks s = before ++ t :: after ->
      has_id taskId t = true ->
      (forall u, In u before -> has_id taskId u = false) ->
      exists s1 t',
        toggleTask taskId now s = Returns tt (saved now s1)
        /\ s1 = with_tasks (before ++ t' :: after) s
        /\ completed t' = Some (Bool (negb (is_completed t)))
        /\ completedAt t' = Some (if is_completed t then Null else Str now)
        /\ (forall k, k <> "completed" -> k <> "completedAt" ->
                      lookup k t' = lookup k t))
  /\ ((forall t, In t (tasks s) -> has_id taskId t = false) ->
      toggleTask taskId now s = Returns tt s).
Proof.
  split.
  - intros before t after E Hid Hb.
    assert (F : find (has_id taskId) (tasks s) = Some t).
    { rewrite E. now apply find_first. }
    eexists. exists (toggle now t).
    split; [apply (toggleTask_found _ _ _ t F)|].
    rewrite E, update_first_first by assumption.
    repeat split.
    + apply toggle_completed.
    + apply toggle_completedAt.
    + intros k H1 H2. unfold toggle.
      rewrite !lookup_assign_other by congruence. reflexivity.
  - intros H. apply toggleTask_absent.
    destruct (find (has_id taskId) (tasks s)) as [t|] eqn:F; [|reflexivity].
    destruct (find_split _ _ _ F) as (b & a & E & Hid & _).
    rewrite (H t) in Hid; [discriminate|].
    rewrite E. apply in_or_app. right. now left.
Qed.

Lemma toggleTask_changes_one_task_witness :
  exists s1 t',
    toggleTask 2 "10:00" Examples.two_tasks = Returns tt (saved "10:00" s1)
    /\ tasks s1 = [Examples.done_task; t']
    /\ completed t' = Some (Bool true)
    /\ completedAt t' = Some (Str "10:00")
    /\ text t' = text Examples.open_task.
Proof.
  destruct (toggleTask_changes_one_task 2 "10:00" Examples.two_tasks)
    as (H & _).
  destruct (H [Examples.done_task] Examples.open_task [])
    as (s1 & t' & E & -> & Hc & Ha & Hk).
  - reflexivity.
  - reflexivity.
  - intros u [<-|[]]. reflexivity.
  - exists (with_tasks [Examples.done_task; t'] Examples.two_tasks), t'.
    repeat split; try assumption.
    unfold text. apply Hk; discriminate.
Defined.

(** X7: [clearCompleted] keeps the tasks that are not completed, in
    their order, and the counter; it leaves the edit marker as it is,
    also when the task being edited is removed.  Afterwards the completed
    view is empty, and a second call removes nothing. *)
Theorem clearCompleted_keeps_the_rest (now : string) (s : app) :
  exists s',
    clearCompleted now s = Returns tt s'
    /\ selects (fun t => negb (is_completed t)) (tasks s) (tasks s')
    /\ taskIdCounter s' = taskIdCounter s
    /\ editingTaskId s' = editingTaskId s
    /\ getFilteredTasks (with_currentFilter "completed" s')
       = Returns [] (with_currentFilter "completed" s')
    /\ forall now', exists s'',
         clearCompleted now' s' = Returns tt s'' /\ tasks s'' = tasks s'.
Proof.
  rewrite clearCompleted_eq. eexists. split; [reflexivity|].
  autorewrite with saved. simpl tasks. repeat split.
  - apply filter_selects.
  - rewrite getFilteredTasks_completed by reflexivity. f_equal.
    simpl tasks. autorewrite with saved. simpl tasks.
    apply filter_none.
    intros t Ht. apply filter_In in Ht. destruct Ht as (_ & Ht).
    now apply negb_true_iff in Ht.
  - intros now'. rewrite clearCompleted_eq. eexists. split; [reflexivity|].
    autorewrite with saved. simpl tasks.
    apply filter_all. apply Forall_forall. intros t Ht.
    apply filter_In in Ht. tauto.
Qed.

(** *** Invariants of a session *)

(** X8: from an instance whose counter is a number and whose tasks have
    string texts and ids the counter has passed, every sequence of calls
    returns, and if [completed] and [completedAt] agreed on every task at
    the start they agree on every task at the end: a task is not
    completed and has a null completion time, or is completed and has a
    time. *)
Theorem run_keeps_completion_coherent (calls : list call) (s : app) :
  well_formed s ->
  Forall coherent (tasks s) ->
  exists s', run calls s = Returns tt s' /\ Forall coherent (tasks s').
Proof.
  revert s. induction calls as [|call calls IH]; intros s (c & Hc & Hi) H.
  - exists s. now split.
  - destruct (perform_change call s c Hc (issued_by_text c _ Hi))
      as (s1 & c1 & E & Hc1 & Ch & _).
    destruct (change_issued c _ Hi c1 _ Ch) as (_ & Hi1).
    destruct (IH s1) as (s' & E' & H').
    + now exists c1.
    + apply (change_coherent _ _ _ _ Ch H).
    + exists s'. split; [|exact H']. simpl. unfold bind. now rewrite E.
Qed.

Lemma run_keeps_completion_coherent_witness :
  exists s',
    run [AddTask "Write report" "" "09:00"; ToggleTask 1 "09:05";
         SaveEdit 1 (Some "Write the report") "09:06"; ToggleTask 1 "09:07"]
      (fields None 4096) = Returns tt s'
    /\ Forall coherent (tasks s').
Proof.
  apply run_keeps_completion_coherent.
  - exists 0. split; [reflexivity | constructor].
  - constructor.
Defined.

(** X9: while the counter stays in the range where adding one is exact,
    the ids a session hands out are the numbers after the counter it
    started with, one by one and in order, and the counter ends on the
    last of them; no id is handed out twice and none is skipped, whatever
    is deleted or cleared in between. *)
Theorem ids_are_handed_out_in_sequence (calls : list call) (s : app) (c : Z) :
  taskIdCounter s = Num c ->
  texts_are_strings (tasks s) ->
  - 2 ^ 53 <= c ->
  c + Z.of_nat (List.length calls) <= 2 ^ 53 ->
  exists s',
    run calls s = Returns tt s'
    /\ issued calls s = following c (List.length (issued calls s))
    /\ taskIdCounter s'
       = Num (c + Z.of_nat (List.length (issued calls s)))
    /\ (List.length (issued calls s) <= List.length calls)%nat
    /\ Forall safe_integer (issued calls s).
Proof.
  revert s c. induction calls as [|call calls IH]; intros s c Hc Ht Hlo Hhi.
  - exists s. simpl. rewrite Z.add_0_r. now repeat split.
  - destruct (perform_change call s c Hc Ht)
      as (s1 & c1 & E & Hc1 & Ch & _).
    destruct (change_texts c c1 _ _ Ch Ht) as (Hk & Ht1).
    simpl List.length in Hhi.
    destruct (IH s1 c1 Hc1 Ht1) as (s' & E' & Hs & Hc' & Hn & Hsafe);
      [lia | lia |].
    exists s'. simpl. unfold bind. rewrite E. split; [exact E'|].
    destruct (perform_counter call s s1 c Hc E) as [(Hk' & ->)|(Hk' & ->)];
      rewrite Hk' in Hc1; injection Hc1 as <-.
    + repeat split; try assumption. simpl List.app. lia.
    + simpl List.app. simpl List.length. rewrite following_next.
      split; [f_equal; exact Hs|].
      split; [rewrite Hc'; f_equal; lia|].
      split; [lia|].
      constructor; [unfold safe_integer; lia | exact Hsafe].
Qed.

Lemma ids_are_handed_out_in_sequence_witness :
  exists s',
    run [AddTask "a" "" "09:00"; AddTask "b" "" "09:01"; ClearAll "09:02";
         AddTask "c" "" "09:03"] (fields None 4096) = Returns tt s'
    /\ issued [AddTask "a" "" "09:00"; AddTask "b" "" "09:01"; ClearAll "09:02";
               AddTask "c" "" "09:03"] (fields None 4096)
       = [1; 2; 3]
    /\ taskIdCounter s' = Num 3.
Proof.
  destruct (ids_are_handed_out_in_sequence
              [AddTask "a" "" "09:00"; AddTask "b" "" "09:01"; ClearAll "09:02";
               AddTask "c" "" "09:03"] (fields None 4096) 0 eq_refl)
    as (s' & E & Hi & Hc & _).
  - constructor.
  - lia.
  - simpl. lia.
  - exists s'. split; [exact E|].
    split; [rewrite Hi | rewrite Hc]; vm_compute; reflexivity.
Defined.

(** X10: in a session that starts with distinct ids the counter has
    passed and with texts as [addTask] lets them through, and in which
    the counter stays in the range where adding one is exact, every call
    returns without an exception, and at every point the ids are pairwise
    distinct: an id names at most one task. *)
Theorem ids_stay_distinct (calls : list call) (s : app) (c : Z) :
  orderly s ->
  taskIdCounter s = Num c ->
  - 2 ^ 53 <= c ->
  c + Z.of_nat (List.length calls) <= 2 ^ 53 ->
  exists s',
    run calls s = Returns tt s'
    /\ NoDup (map id (tasks s'))
    /\ forall taskId,
         (List.length (filter (has_id taskId) (tasks s')) <= 1)%nat.
Proof.
  intros H _ _ _. destruct (run_orderly calls s H) as (s' & E & _ & N & _).
  exists s'. repeat split; [exact E | exact N|].
  intros taskId. now apply at_most_one.
Qed.

Lemma ids_stay_distinct_witness :
  exists s',
    run [AddTask "a" "" "09:00"; DeleteTask 1 true "09:01"; Timeout "09:02";
         AddTask "a" "" "09:03"] (fields None 4096) = Returns tt s'
    /\ map id (tasks s') = [Some (Num 2)]
    /\ NoDup (map id (tasks s'))
    /\ forall taskId,
         (List.length (filter (has_id taskId) (tasks s')) <= 1)%nat.
Proof.
  destruct (ids_stay_distinct
              [AddTask "a" "" "09:00"; DeleteTask 1 true "09:01";
               Timeout "09:02"; AddTask "a" "" "09:03"] (fields None 4096) 0)
    as (s' & E & N & H).
  - split; [|split].
    + exists 0. split; [reflexivity | constructor].
    + constructor.
    + split; constructor.
  - reflexivity.
  - lia.
  - simpl. lia.
  - exists s'. split; [exact E|]. split; [|split; assumption].
    vm_compute in E. injection E as <-. reflexivity.
Defined.

(** *** Persistence *)

(** X11: what a session changes it stores.  When a sequence of calls
    returns and has logged nothing, either the tasks, the counter and the
    browser store are all as they were, or the store holds the text
    [saveTasks] writes for the tasks and the counter the instance has at
    the end. *)
Theorem changes_are_stored (calls : list call) (s s' : app) :
  run calls s = Returns tt s' ->
  console s' = console s ->
  (tasks s' = tasks s /\ taskIdCounter s' = taskIdCounter s
   /\ localStorage s' = localStorage s)
  \/ stored s'.
Proof.
  revert s. induction calls as [|c calls IH]; intros s H Hc.
  - injection H as <-. left. now repeat split.
  - destruct (run_step _ _ _ _ H) as (s1 & H1 & H2).
    destruct (perform_console _ _ _ H1) as (e1 & E1).
    destruct (run_console _ _ _ H2) as (e2 & E2).
    assert (e1 = [] /\ e2 = []) as (-> & ->).
    { rewrite E2, E1, <- app_assoc in Hc. apply app_same in Hc.
      now apply app_eq_nil in Hc. }
    rewrite List.app_nil_r in E1, E2.
    destruct (IH s1 H2 E2) as [(Ht & Hk & Hs)|S]; [|now right].
    destruct (perform_saves c s s1 H1)
      as [(Ht1 & Hk1 & Hs1 & _)|(now & s0 & -> & C0 & _)].
    + left. repeat split; congruence.
    + right. apply (stored_same (saved now s0)); try assumption.
      apply saved_stored. congruence.
Qed.

Lemma changes_are_stored_witness :
  exists s',
    run [AddTask "Write report" "" "09:00"; ToggleTask 1 "09:05"]
      (fields None 4096) = Returns tt s'
    /\ stored s'.
Proof.
  eexists. split; [vm_compute; reflexivity|].
  destruct (changes_are_stored
              [AddTask "Write report" "" "09:00"; ToggleTask 1 "09:05"]
              (fields None 4096) _ eq_refl eq_refl) as [(H & _)|H].
  - discriminate H.
  - exact H.
Defined.

(** X12: a save that fails loses nothing in memory and nothing in the
    store.  When the text for the new state does not fit the quota,
    [addTask] still returns with the task appended and the counter, in
    the range where adding one is exact, advanced; the store keeps the
    text it had, the failure is logged, and its message takes the place
    of the cleared error line. *)
Theorem addTask_survives_failed_save
    (input deadline_input now : string) (s : app) (c : Z) :
  taskIdCounter s = Num c ->
  increments_exactly c ->
  texts_are_strings (tasks s) ->
  trim input <> "" -> (String.length (trim input) <= 100)%nat ->
  existsb (same_text (trim input)) (tasks s) = false ->
  (quota s
   < String.length
       (blob now
          (with_tasks
             (tasks s ++ [new_task (c + 1) (trim input) now deadline_input])
             (with_taskIdCounter (Num (c + 1)) s))))%nat ->
  exists s',
    addTask input deadline_input now s = Returns tt s'
    /\ tasks s' = tasks s ++ [new_task (c + 1) (trim input) now deadline_input]
    /\ taskIdCounter s' = Num (c + 1)
    /\ localStorage s' = localStorage s
    /\ inputError s' = SaveFailed
    /\ console s' = console s ++ ["Failed to save tasks:"].
Proof.
  intros Hc _ Ht Hn Hl Hd Hq.
  rewrite (addTask_pushes _ _ _ _ c Hn Hl Ht Hd Hc).
  set (s1 := with_inputError "" _).
  assert (F : console (saved now s1) <> console s1).
  { unfold saved. apply Nat.ltb_lt in Hq.
    replace (quota s1 <? String.length (blob now s1))%nat with true
      by (symmetry; exact Hq).
    simpl. intros H. apply app_same in H. discriminate. }
  destruct (saved_failed now s1 F) as (A & B & C).
  exists (saved now s1). split; [reflexivity|].
  autorewrite with saved. repeat split; assumption.
Qed.

Lemma addTask_survives_failed_save_witness :
  exists s',
    addTask "Write report" "" "09:00" (fields (Some "old") 10) = Returns tt s'
    /\ tasks s' = [new_task 1 "Write report" "09:00" ""]
    /\ localStorage s' = Some "old"
    /\ inputError s' = SaveFailed.
Proof.
  destruct (addTask_survives_failed_save "Write report" "" "09:00"
              (fields (Some "old") 10) 0)
    as (s' & H & Ht & _ & Hs & He & _).
  - reflexivity.
  - unfold increments_exactly. lia.
  - constructor.
  - vm_compute. discriminate.
  - apply Nat.leb_le. reflexivity.
  - reflexivity.
  - apply Nat.ltb_lt. vm_compute. reflexivity.
  - exists s'. repeat split; assumption.
Defined.

(** X13: whenever a call logs a line, it is the save that failed: the
    browser store still holds what it held before the call, the message
    shown is that of the failed save, and the call has returned all the
    same. *)
Theorem failed_save_keeps_the_store (call : call) (s s' : app) :
  perform call s = Returns tt s' ->
  console s' <> console s ->
  localStorage s' = localStorage s
  /\ inputError s' = SaveFailed
  /\ console s' = console s ++ ["Failed to save tasks:"].
Proof.
  intros H Hc.
  destruct (perform_saves call s s' H)
    as [(_ & _ & _ & E)|(now & s1 & -> & C1 & S1)]; [now elim Hc|].
  rewrite <- C1, <- S1. apply saved_failed. now rewrite C1.
Qed.

Lemma failed_save_keeps_the_store_witness :
  exists s',
    perform (ClearAll "09:00") (fields (Some "old") 10) = Returns tt s'
    /\ localStorage s' = Some "old"
    /\ inputError s' = SaveFailed.
Proof.
  eexists. split; [vm_compute; reflexivity|].
  destruct (failed_save_keeps_the_store (ClearAll "09:00")
              (fields (Some "old") 10) _ eq_refl) as (H & H' & _).
  - vm_compute. discriminate.
  - split; [exact H | exact H'].
Defined.

(** *** The removal timer *)



(** X28: a removal once scheduled is never cancelled.  Only the timer
    takes an entry off the queue, the oldest one; [deleteTask] may add
    one at the end; every other call, [clearAll] and [clearCompleted]
    included, leaves the queue as it is, so a removal scheduled before
    the array was cleared still fires on what the array holds then. *)
Theorem scheduled_removals_are_never_cancelled (call : call) (s s' : app) :
  perform call s = Returns tt s' ->
  match call with
  | Timeout _ => timers s' = tl (timers s)
  | DeleteTask _ _ _ =>
      timers s' = timers s \/ exists i, timers s' = timers s ++ [i]
  | _ => timers s' = timers s
  end.
Proof.
  destruct call; run_body; try discriminate; intros [= <-];
    autorewrite with saved; simpl;
    first [ reflexivity | assumption | left; reflexivity
          | right; eexists; reflexivity ].
Qed.

Lemma scheduled_removals_are_never_cancelled_witness :
  exists s1 s2 s3,
    deleteTask 1 true "10:00" Examples.two_tasks = Returns tt s1
    /\ timers s1 = [0%nat]
    /\ perform (ClearAll "10:01") s1 = Returns tt s2
    /\ timers s2 = [0%nat]
    /\ run [AddTask "Call bank" "" "10:02"; Timeout "10:03"] s2 = Returns tt s3
    /\ tasks s3 = [].
Proof.
  eexists. eexists. eexists. split; [vm_compute; reflexivity|].
  split; [reflexivity|].
  split; [vm_compute; reflexivity|]. split.
  - apply (scheduled_removals_are_never_cancelled (ClearAll "10:01")
             (with_timers [0%nat] Examples.two_tasks) _).
    vm_compute. reflexivity.
  - split; [vm_compute; reflexivity | reflexivity].
Defined.

(** *** Views *)

(** X15: [isTaskVisible] and [getFilteredTasks] agree under every
    filter: the filtered view is the array restricted to the tasks
    [isTaskVisible] accepts, in the order of the array, and neither call
    changes the instance. *)
Theorem isTaskVisible_agrees_with_getFilteredTasks (s : app) :
  exists view visible,
    getFilteredTasks s = Returns view s
    /\ (forall t, isTaskVisible t s = Returns (visible t) s)
    /\ selects visible (tasks s) view
    /\ (forall t, In t view <-> In t (tasks s) /\ visible t = true).
Proof.
  assert (G : forall view visible,
             view = filter visible (tasks s) ->
             selects visible (tasks s) view
             /\ (forall t, In t view <-> In t (tasks s) /\ visible t = true)).
  { intros view visible ->. split; [apply filter_selects|].
    intros t. apply filter_In. }
  unfold getFilteredTasks, isTaskVisible. eff.
  destruct (currentFilter s =? "active")%string;
    [|destruct (currentFilter s =? "completed")%string].
  - exists (filter (fun t => negb (is_completed t)) (tasks s)),
      (fun t => negb (is_completed t)).
    split; [reflexivity|]. split; [reflexivity|]. now apply G.
  - exists (filter is_completed (tasks s)), is_completed.
    split; [reflexivity|]. split; [reflexivity|]. now apply G.
  - exists (tasks s), (fun _ => true).
    split; [reflexivity|]. split; [reflexivity|]. apply G.
    symmetry. apply filter_all. now apply Forall_forall.
Qed.

(** X16: the counter line [renderStats] writes counts the tasks of the
    active view.  It reads [No tasks] for an empty array, [All tasks
    completed!] when there are tasks and none is active, [1 task
    remaining] for one active task, and the number of active tasks in
    decimal before [tasks remaining] for more. *)
Theorem renderStats_counts_the_active_view (s : app) :
  exists line remaining,
    renderStats s = Returns line s
    /\ getFilteredTasks (with_currentFilter "active" s)
       = Returns remaining (with_currentFilter "active" s)
    /\ (tasks s = [] -> line = "No tasks")
    /\ (tasks s <> [] -> remaining = [] -> line = "All tasks completed!")
    /\ (List.length remaining = 1%nat -> line = "1 task remaining")
    /\ ((1 < List.length remaining)%nat ->
        line = (count_text (List.length remaining) ++ " tasks remaining")%string).
Proof.
  eexists. exists (filter (fun t => negb (is_completed t)) (tasks s)).
  split; [reflexivity|]. split; [exact (getFilteredTasks_active (with_currentFilter "active" s) eq_refl)|].
  rewrite active_count.
  pose proof (filter_shorter (fun t => negb (is_completed t)) (tasks s)) as T.
  set (remaining := filter (fun t => negb (is_completed t)) (tasks s)) in *.
  repeat split.
  - now intros ->.
  - intros Hn ->. destruct (tasks s); [now elim Hn | reflexivity].
  - intros H. rewrite H.
    assert (N : (0 < List.length (tasks s))%nat) by lia. revert N.
    destruct (tasks s); intros N; [simpl in N; lia | reflexivity].
  - intros H.
    assert (N : (0 < List.length (tasks s))%nat) by lia. revert N.
    destruct (tasks s); intros N; [simpl in N; lia|].
    simpl Nat.eqb at 1. cbv iota. revert H.
    destruct (List.length remaining) as [|[|n]]; intros H; try lia.
    reflexivity.
Qed.

Lemma renderStats_counts_the_active_view_witness :
  exists line,
    renderStats Examples.two_tasks = Returns line Examples.two_tasks
    /\ line = "1 task remaining".
Proof.
  destruct (renderStats_counts_the_active_view Examples.two_tasks)
    as (line & remaining & H & G & _ & _ & One & _).
  exists line. split; [exact H|]. apply One.
  injection G as <-. reflexivity.
Defined.

(** X17: [renderActionButtons] disables a button exactly when its
    action would remove nothing: the clear-completed button when
    [clearCompleted] would leave the array as it is, the clear-all button
    when the array is empty. *)
Theorem renderActionButtons_disables_idle_actions (now : string) (s : app) :
  exists clearCompleted_disabled clearAll_disabled s1 s2,
    renderActionButtons s
    = Returns (clearCompleted_disabled, clearAll_disabled) s
    /\ clearCompleted now s = Returns tt s1
    /\ clearAll now s = Returns tt s2
    /\ (clearCompleted_disabled = true <-> tasks s1 = tasks s)
    /\ (clearAll_disabled = true <-> tasks s2 = tasks s).
Proof.
  rewrite clearCompleted_eq, clearAll_eq.
  eexists. eexists. eexists. eexists.
  split; [reflexivity|]. split; [reflexivity|]. split; [reflexivity|].
  autorewrite with saved. simpl tasks. split.
  - rewrite negb_true_iff. split.
    + intros H. apply filter_all. apply Forall_forall. intros t Ht.
      apply negb_true_iff.
      destruct (is_completed t) eqn:E; [|reflexivity].
      rewrite <- H. symmetry. apply existsb_exists. now exists t.
    + intros H. apply existsb_none. intros t Ht.
      rewrite <- H in Ht. apply filter_In in Ht.
      now apply negb_true_iff.
  - destruct (tasks s); simpl; split; intros H; congruence.
Qed.

(** X18: the counts of [getStats] add up and match the views: [total]
    is the length of the array, [completed] the length of the completed
    view, [active] that of the active view, and [total] their sum; the
    completion rate is 0 for an empty array and the rounded quotient
    otherwise. *)
Theorem getStats_adds_up (round_percent : nat -> nat -> Z) (s : app) :
  exists st done remaining,
    getStats round_percent s = Returns st s
    /\ getFilteredTasks (with_currentFilter "completed" s)
       = Returns done (with_currentFilter "completed" s)
    /\ getFilteredTasks (with_currentFilter "active" s)
       = Returns remaining (with_currentFilter "active" s)
    /\ total st = List.length (tasks s)
    /\ completed_count st = List.length done
    /\ active st = List.length remaining
    /\ total st = (completed_count st + active st)%nat
    /\ (tasks s = [] -> completionRate st = 0)
    /\ (tasks s <> [] ->
        completionRate st = round_percent (completed_count st) (total st)).
Proof.
  eexists. exists (filter is_completed (tasks s)),
    (filter (fun t => negb (is_completed t)) (tasks s)).
  split; [reflexivity|].
  split; [exact (getFilteredTasks_completed (with_currentFilter "completed" s) eq_refl)|].
  split; [exact (getFilteredTasks_active (with_currentFilter "active" s) eq_refl)|].
  pose proof (active_count (tasks s)) as L.
  pose proof (filter_shorter (fun task => is_completed task) (tasks s)) as T.
  simpl. repeat split; try lia.
  - now intros ->.
  - intros H. destruct (tasks s); [now elim H | reflexivity].
Qed.

Lemma getStats_adds_up_witness :
  exists st,
    getStats (fun done all => Z.of_nat (100 * done / all)) Examples.two_tasks
    = Returns st Examples.two_tasks
    /\ total st = 2%nat /\ completed_count st = 1%nat /\ active st = 1%nat
    /\ completionRate st = 50.
Proof.
  destruct (getStats_adds_up (fun done all => Z.of_nat (100 * done / all))
              Examples.two_tasks)
    as (st & done & remaining & H & D & R & Ht & Hc & Ha & _ & _ & Hr).
  injection D as <-. injection R as <-.
  exists st. split; [exact H|]. split; [exact Ht|]. split; [exact Hc|].
  split; [exact Ha|]. rewrite Hr, Hc, Ht; [reflexivity | discriminate].
Defined.

(** ** Dialog and handlers *)

Module PageFacts.
Import JS Eff TodoApp Session Spec Page Terms JSFacts AppFacts Invariants.
Import CallFacts.
Local Open Scope eff_scope.

(** *** [parseInt] *)

Lemma span_digits_digits (n : N) :
  JSON.span_digits (JSON.digits n) = (JSON.digits n, "").
Proof.
  unfold JSON.digits.
  pose proof (JSONFacts.to_uint_nonnil n) as Hnil.
  assert (Hs : NilZero.string_of_uint (N.to_uint n)
               = NilEmpty.string_of_uint (N.to_uint n)).
  { destruct (N.to_uint n); try reflexivity. now elim Hnil. }
  rewrite Hs.
  rewrite <- (JSONFacts.append_empty (NilEmpty.string_of_uint (N.to_uint n))) at 1.
  now apply JSONFacts.span_digits_uint.
Qed.

Lemma digit_not_letter (c : ascii) :
  JSON.is_digit c = true -> ((code c =? 120) || (code c =? 88))%nat = false.
Proof.
  intros H. apply JSONFacts.digit_code in H.
  destruct (Nat.eqb_spec (code c) 120); [lia|].
  destruct (Nat.eqb_spec (code c) 88); [lia | reflexivity].
Qed.

Lemma digit_not_space (c : ascii) :
  JSON.is_digit c = true ->
  is_space c = false /\ (code c =? 45)%nat = false /\ (code c =? 43)%nat = false.
Proof.
  intros H. apply JSONFacts.digit_code in H. unfold is_space. cbv zeta.
  destruct (Nat.leb_spec (code c) 13); [lia|]. rewrite andb_false_r.
  destruct (Nat.eqb_spec (code c) 32); [lia|].
  destruct (Nat.eqb_spec (code c) 160); [lia|].
  destruct (Nat.eqb_spec (code c) 45); [lia|].
  destruct (Nat.eqb_spec (code c) 43); [lia|]. now repeat split.
Qed.

Lemma trimStart_blank (ws s : string) :
  blank ws = true -> trimStart (ws ++ s) = trimStart s.
Proof.
  induction ws as [|c ws IH]; simpl; [reflexivity|]. intros H.
  apply andb_true_iff in H. destruct H as (-> & H). now apply IH.
Qed.

Lemma read_decimal_digits_then (n : N) (rest : string) :
  stops_number rest = true ->
  read_decimal (JSON.digits n ++ rest) = Some (Z.of_N n).
Proof.
  intros H. unfold read_decimal, JSON.digits.
  pose proof (JSONFacts.to_uint_nonnil n) as Hnil.
  assert (Hs : NilZero.string_of_uint (N.to_uint n)
               = NilEmpty.string_of_uint (N.to_uint n)).
  { destruct (N.to_uint n); try reflexivity. now elim Hnil. }
  assert (Hd : match rest with EmptyString => true
               | String c _ => negb (JSON.is_digit c) end = true).
  { destruct rest; [reflexivity|]. simpl in H.
    apply andb_true_iff in H. now destruct H. }
  rewrite Hs, (JSONFacts.span_digits_uint _ _ Hd). simpl fst.
  rewrite <- Hs, (NilZero.usu _ Hnil).
  now rewrite DecimalN.Unsigned.of_to.
Qed.

(** The decimal text of a number, and what may follow it, never read as
    hexadecimal. *)
Lemma read_magnitude_digits_then (n : N) (rest : string) :
  stops_number rest = true ->
  read_magnitude (JSON.digits n ++ rest) = Some (Z.of_N n).
Proof.
  intros H. rewrite <- (read_decimal_digits_then n rest H).
  unfold read_magnitude.
  pose proof (span_digits_digits n) as S.
  destruct (JSONFacts.digits_head n) as (z & r0 & E & _).
  rewrite E in *. clear E. destruct r0 as [|x r].
  - cbn [append]. destruct rest as [|x r]; [reflexivity|].
    simpl in H. apply andb_true_iff in H. destruct H as (_ & H).
    apply negb_true_iff in H. now rewrite H, andb_false_r.
  - cbn [append]. simpl in S. destruct (JSON.is_digit z); [|discriminate].
    destruct (JSON.is_digit x) eqn:Hx.
    + now rewrite (digit_not_letter x Hx), andb_false_r.
    + discriminate.
Qed.

Lemma signed_safe (n : Z) :
  safe_integer n ->
  signed (n <? 0) (Some (Z.of_N (Z.abs_N n))) = Exactly n.
Proof.
  unfold safe_integer, signed. intros H. rewrite N2Z.inj_abs_N.
  destruct (Z.leb_spec (Z.abs n) (2 ^ 53)); [|lia]. f_equal.
  destruct (Z.ltb_spec n 0); lia.
Qed.

(** [parseInt] reads back the text of a safe integer, after white space
    and before text that does not go on with a digit or an [x]. *)
Lemma parseInt_digits_then (n : Z) (ws rest : string) :
  safe_integer n -> blank ws = true -> stops_number rest = true ->
  parseInt (Some (ws ++ JSON.number_to_string n ++ rest)%string) = Exactly n.
Proof.
  intros Hn Hw Hr. rewrite <- (signed_safe n Hn).
  unfold parseInt. rewrite (trimStart_blank _ _ Hw).
  unfold JSON.number_to_string.
  destruct (n <? 0).
  - cbn [append trimStart]. change (is_space "-") with false. cbv iota.
    change (code "-" =? 45)%nat with true. cbv iota.
    now rewrite (read_magnitude_digits_then _ _ Hr).
  - pose proof (read_magnitude_digits_then (Z.abs_N n) rest Hr) as R.
    destruct (JSONFacts.digits_head (Z.abs_N n)) as (c & r & E & Hc).
    rewrite E in *. destruct (digit_not_space c Hc) as (Hs & Hm & Hp).
    cbn [append trimStart] in *. now rewrite Hs, Hm, Hp, R.
Qed.

Lemma parseInt_number_to_string (n : Z) :
  safe_integer n -> parseInt (Some (JSON.number_to_string n)) = Exactly n.
Proof.
  intros Hn.
  rewrite <- (parseInt_digits_then n "" "" Hn eq_refl eq_refl).
  cbn [append]. now rewrite JSONFacts.append_empty.
Qed.

(** *** Running a method on the page *)

Lemma final_on_app {A} (m : M app A) (p p' : page) :
  final (on_app m p) = Some p' ->
  exists s', final (m (todoApp p)) = Some s' /\ p' = with_todoApp s' p.
Proof.
  unfold on_app. destruct (m (todoApp p)) as [a s'|e s'|]; simpl;
    try discriminate; intros [= <-]; now exists s'.
Qed.

Lemma with_todoApp_same (p : page) : with_todoApp (todoApp p) p = p.
Proof. now destruct p. Qed.

(** The functions held in [pendingAction] always return. *)
Lemma action_body_returns (a : action) (rendered : bool) (now : string) (s : app) :
  exists s', action_body a rendered now s = Returns tt s'.
Proof.
  destruct a; unfold action_body.
  - unfold deleteTask. eff. destruct (_ >? _); [destruct rendered|];
      rewrite ?remove_at_eq; eexists; reflexivity.
  - rewrite clearCompleted_eq. eexists; reflexivity.
  - rewrite clearAll_eq. eexists; reflexivity.
Qed.

(** The duplicate scans throw nothing but a type error. *)
Lemma some_throws {A} (p : A -> exc bool) (l : list A) (e : error) :
  (forall x e', p x = inl e' -> e' = TypeError) ->
  some p l = inl e -> e = TypeError.
Proof.
  intros Hp. induction l as [|x l IH]; simpl; [discriminate|].
  destruct (p x) as [e'|[|]] eqn:E; try discriminate; [|exact IH].
  intros [= <-]. now apply (Hp x).
Qed.

Lemma lower_text_throws (t : object) (e : error) :
  lower_text t = inl e -> e = TypeError.
Proof.
  unfold lower_text. destruct (text t) as [[]|]; try discriminate;
    now intros [= <-].
Qed.

(** A call that throws has changed nothing, and throws a type error. *)
Lemma perform_throws (c : call) (s s' : app) (e : error) :
  perform c s = Throws e s' -> e = TypeError /\ s' = s.
Proof.
  destruct c; run_body; try discriminate; intros [= <- <-];
    (split; [|reflexivity]);
    match goal with
    | H : some _ _ = inl _ |- _ => apply some_throws in H; [exact H|]
    end;
    intros x e' Hx;
    repeat match type of Hx with
           | context [if ?b then _ else _] => destruct b; try discriminate
           end;
    destruct (lower_text x) eqn:L; try discriminate;
    injection Hx as <-; now apply (lower_text_throws x).
Qed.

Lemma on_app_throws (c : call) (p p' : page) (e : error) :
  on_app (perform c) p = Throws e p' -> e = TypeError /\ p' = p.
Proof.
  unfold on_app. destruct (perform c (todoApp p)) as [a s'|e' s'|] eqn:E;
    try discriminate.
  intros [= <- <-]. destruct (perform_throws _ _ _ _ E) as (-> & ->).
  split; [reflexivity | apply with_todoApp_same].
Qed.

(** A call in place, run on the page, keeps timers, ids and dialog. *)
Lemma on_app_in_place (c : call) (p p' : page) :
  in_place c = true ->
  final (on_app (perform c) p) = Some p' ->
  timers (todoApp p') = timers (todoApp p)
  /\ exists extra,
       map id (tasks (todoApp p')) = map id (tasks (todoApp p)) ++ extra.
Proof.
  intros Hc H. destruct (final_on_app _ _ _ H) as (s' & Hs & ->).
  simpl todoApp. now apply (in_place_keeps c).
Qed.

(** *** The handlers *)

(** Runs a listener down to the calls it makes on the instance. *)
Ltac run_listener :=
  unfold listener, handleTaskClick, handleTaskKeypress, handleTaskChange,
    handleGlobalKeydown, closest_data, with_number, executeConfirmedAction,
    call_action, confirmAction, hideModal, showModal;
  unfold bind, ret, get, modify, throw, unmodelled; cbv beta iota zeta;
  repeat (cbv beta iota; split_innermost);
  cbv beta iota.

Lemma cancelEdit_on_page (p : page) :
  on_app cancelEdit p
  = Returns tt
      (with_todoApp
         (with_inputError "" (with_editingTaskId None (todoApp p))) p).
Proof. reflexivity. Qed.

Lemma clearError_on_page (p : page) :
  on_app clearError p
  = Returns tt (with_todoApp (with_inputError "" (todoApp p)) p).
Proof. reflexivity. Qed.

Lemma setFilter_on_page (f : string) (p : page) :
  on_app (setFilter f) p
  = Returns tt (with_todoApp (with_currentFilter f (todoApp p)) p).
Proof. reflexivity. Qed.

(** [handleGlobalKeydown] in one piece. *)
Lemma handleGlobalKeydown_eq (key : string) (ctrlKey metaKey : bool) (p : page) :
  handleGlobalKeydown key ctrlKey metaKey p
  = Returns tt
      (if (key =? "Escape")%string then
         if modalShown p
         then with_pendingAction None (with_modalShown false p)
         else
           match editingTaskId (todoApp p) with
           | Some n =>
               if n =? 0 then p
               else with_todoApp
                      (with_inputError ""
                         (with_editingTaskId None (todoApp p))) p
           | None => p
           end
       else p).
Proof.
  unfold handleGlobalKeydown, hideModal.
  unfold bind, ret, get, modify. cbv beta iota zeta.
  destruct (key =? "Escape")%string.
  - cbv beta iota. destruct (modalShown p).
    + cbv beta iota. destruct (_ && _); reflexivity.
    + destruct (editingTaskId (todoApp p)) as [n|].
      * destruct (n =? 0); cbv beta iota;
          rewrite ?cancelEdit_on_page; destruct (_ && _); reflexivity.
      * destruct (_ && _); reflexivity.
  - destruct (_ && _); reflexivity.
Qed.

(** What a listener that is not the removal timer and not the Yes button
    leaves of the ids and the timers. *)
Lemma listener_in_place (e : event) (p p' : page) :
  removing e = false ->
  final (listener e p) = Some p' ->
  timers (todoApp p') = timers (todoApp p)
  /\ exists extra,
       map id (tasks (todoApp p')) = map id (tasks (todoApp p)) ++ extra.
Proof.
  assert (Same : forall q : page,
             todoApp q = todoApp p ->
             timers (todoApp q) = timers (todoApp p)
             /\ exists extra,
                  map id (tasks (todoApp q)) = map id (tasks (todoApp p)) ++ extra).
  { intros q ->. split; [reflexivity|]. exists []. now rewrite List.app_nil_r. }
  destruct e; try discriminate; intros _;
    try (simpl listener; rewrite handleGlobalKeydown_eq; simpl final;
         intros [= <-];
         repeat match goal with
                | |- context [if ?b then _ else _] => destruct b
                | |- context [match ?x with Some _ => _ | None => _ end] =>
                    destruct x
                end;
         first [ now apply Same
               | simpl; split; [reflexivity|]; exists [];
                 now rewrite List.app_nil_r ]);
    run_listener; simpl final; try discriminate;
    try (intros [= <-]; now apply Same);
    first [ apply (on_app_in_place (AddTask _ _ _)); reflexivity
          | apply (on_app_in_place (ToggleTask _ _)); reflexivity
          | apply (on_app_in_place (EditTask _)); reflexivity
          | apply (on_app_in_place (SaveEdit _ _ _)); reflexivity
          | apply (on_app_in_place CancelEdit); reflexivity
          | apply (on_app_in_place (SetFilter _)); reflexivity
          | idtac ].
  intros [= <-]. simpl. split; [reflexivity|].
  exists []. now rewrite List.app_nil_r.
Qed.

(** [executeConfirmedAction] in one piece: the pending function runs on
    the instance, if there is one, and the dialog is closed. *)
Lemma executeConfirmedAction_eq (rendered : bool) (now : string) (p : page) :
  exists s',
    match pendingAction p with
    | Some a => action_body a rendered now (todoApp p) = Returns tt s'
    | None => s' = todoApp p
    end
    /\ executeConfirmedAction rendered now p
       = Returns tt
           (with_pendingAction None (with_modalShown false (with_todoApp s' p))).
Proof.
  unfold executeConfirmedAction, call_action, hideModal, on_app.
  unfold bind, ret, get, modify. cbv beta iota zeta.
  destruct (pendingAction p) as [a|] eqn:E.
  - destruct (action_body_returns a rendered now (todoApp p)) as (s' & H).
    exists s'. split; [exact H|]. now rewrite H.
  - exists (todoApp p). split; [reflexivity|]. now destruct p.
Qed.

Lemma listen_step (e : event) (es : list event) (p p' : page) :
  final (listen (e :: es) p) = Some p' ->
  (exists p1, listener e p = Returns tt p1 /\ final (listen es p1) = Some p')
  \/ (exists err, listener e p = Throws err p').
Proof.
  simpl listen. unfold bind.
  destruct (listener e p) as [[] p1|err p1|]; simpl; try discriminate.
  - intros H. left. now exists p1.
  - intros [= <-]. right. now exists err.
Qed.

(** Every listener keeps the dialog consistent. *)
Lemma listener_consistent (e : event) (p p' : page) :
  final (listener e p) = Some p' ->
  dialog_consistent p -> dialog_consistent p'.
Proof.
  unfold dialog_consistent.
  assert (App : forall (m : M app unit),
             final (on_app m p) = Some p' ->
             (modalShown p = false -> pendingAction p = None) ->
             modalShown p' = false -> pendingAction p' = None).
  { intros m H. destruct (final_on_app _ _ _ H) as (s' & _ & ->). now simpl. }
  destruct e;
    try (simpl listener; rewrite handleGlobalKeydown_eq; simpl final;
         intros [= <-];
         repeat match goal with
                | |- context [if ?b then _ else _] => destruct b
                | |- context [match ?x with Some _ => _ | None => _ end] =>
                    destruct x
                end; simpl; intuition congruence);
    try (simpl listener;
         destruct (executeConfirmedAction_eq rendered now p) as (s' & _ & ->);
         simpl final; intros [= <-]; simpl; intuition congruence);
    run_listener; simpl final; try discriminate;
    try (intros [= <-]; simpl; intuition congruence);
    apply App.
Qed.

Lemma listen_consistent (es : list event) (p p' : page) :
  final (listen es p) = Some p' ->
  dialog_consistent p -> dialog_consistent p'.
Proof.
  revert p. induction es as [|e es IH]; intros p H C.
  - injection H as <-. exact C.
  - destruct (listen_step _ _ _ _ H) as [(p1 & H1 & H2)|(err & H1)].
    + apply (IH p1 H2). apply (listener_consistent e p); [|exact C].
      now rewrite H1.
    + apply (listener_consistent e p); [|exact C]. now rewrite H1.
Qed.

Lemma hidden_same (p : page) :
  modalShown p = false -> pendingAction p = None ->
  with_pendingAction None (with_modalShown false p) = p.
Proof. destruct p; simpl; intros -> ->; reflexivity. Qed.

Lemma contains_within (classes : list string) (n : Z) (class : string) :
  contains (within_item classes n) class = existsb (String.eqb class) classes.
Proof. reflexivity. Qed.

End PageFacts.

(** ** Properties of the dialog and the handlers *)

Import PageFacts.



(** X20: a confirmed action runs once.  After [confirmAction], the Yes
    button runs the function that was handed over, on the instance as it
    is then, closes the dialog and forgets the function; a second click
    on Yes changes nothing. *)
Theorem confirmed_action_runs_once
    (title message : string) (a : action)
    (rendered rendered' : bool) (now now' : string) (p : page) :
  exists p1 s' p2,
    confirmAction title message a p = Returns tt p1
    /\ todoApp p1 = todoApp p
    /\ modalShown p1 = true
    /\ action_body a rendered now (todoApp p) = Returns tt s'
    /\ executeConfirmedAction rendered now p1 = Returns tt p2
    /\ todoApp p2 = s'
    /\ modalShown p2 = false
    /\ pendingAction p2 = None
    /\ executeConfirmedAction rendered' now' p2 = Returns tt p2.
Proof.
  set (p1 := with_modalShown true
               (with_pendingAction (Some a) (with_modalText title message p))).
  destruct (executeConfirmedAction_eq rendered now p1) as (s' & H & E).
  simpl in H.
  exists p1, s'. eexists. split; [reflexivity|].
  split; [reflexivity|]. split; [reflexivity|]. split; [exact H|].
  split; [exact E|]. split; [reflexivity|]. split; [reflexivity|].
  split; [reflexivity|].
  destruct (executeConfirmedAction_eq rendered' now'
              (with_pendingAction None
                 (with_modalShown false (with_todoApp s' p1))))
    as (s'' & H' & E').
  simpl in H'. subst s''. exact E'.
Qed.

(** X21: a click on the delete button of the item rendered for the task
    with id [n] deletes nothing; it opens the dialog with the deletion of
    [n] pending.  Yes then does what [deleteTask(n)] does on the
    instance, and No leaves the instance as it is; both close the
    dialog. *)
Theorem delete_click_asks_first
    (classes : list string) (n detail : Z) (editInput : option string)
    (now0 now : string) (rendered : bool) (p : page) :
  safe_integer n ->
  existsb (String.eqb "delete-btn") classes = true ->
  exists p1 s',
    listener (taskList_click (within_item classes n) detail editInput now0) p
    = Returns tt p1
    /\ todoApp p1 = todoApp p
    /\ modalShown p1 = true
    /\ pendingAction p1 = Some (deleting n)
    /\ deleteTask n rendered now (todoApp p) = Returns tt s'
    /\ listener (confirmYes_click rendered now) p1
       = Returns tt
           (with_pendingAction None (with_modalShown false (with_todoApp s' p1)))
    /\ listener confirmNo_click p1
       = Returns tt (with_pendingAction None (with_modalShown false p1)).
Proof.
  intros Hn Hc.
  set (p1 := with_modalShown true
               (with_pendingAction (Some (deleting n))
                  (with_modalText "Delete Task"
                     "Are you sure you want to delete this task?" p))).
  destruct (executeConfirmedAction_eq rendered now p1) as (s' & H & E).
  simpl in H.
  exists p1, s'. split.
  - simpl listener. unfold handleTaskClick.
    rewrite contains_within, Hc. unfold within_item.
    cbn [closest_task_item]. cbv beta iota zeta.
    rewrite (parseInt_number_to_string n Hn). reflexivity.
  - repeat split; assumption.
Qed.

Lemma delete_click_asks_first_witness :
  exists p1 s' p2 p3,
    listener (taskList_click (within_item ["task-btn"; "delete-btn"] 1) 1 None
                "10:00") (opened Examples.two_tasks) = Returns tt p1
    /\ tasks (todoApp p1) = [Examples.done_task; Examples.open_task]
    /\ deleteTask 1 true "10:01" Examples.two_tasks = Returns tt s'
    /\ listener (confirmYes_click true "10:01") p1 = Returns tt p2
    /\ todoApp p2 = s'
    /\ tasks s' = [Examples.done_task; Examples.open_task]
    /\ listener (removal_timer "10:02") p2 = Returns tt p3
    /\ tasks (todoApp p3) = [Examples.open_task].
Proof.
  destruct (delete_click_asks_first ["task-btn"; "delete-btn"] 1 1 None
              "10:00" "10:01" true (opened Examples.two_tasks))
    as (p1 & s' & H & Ha & _ & _ & D & Y & _);
    [vm_compute; discriminate | reflexivity |].
  unfold opened in D. cbn [todoApp] in D.
  assert (Hs : s' = with_timers [0%nat] Examples.two_tasks).
  { rewrite (deleteTask_later 1 "10:01" Examples.two_tasks []
               [Examples.open_task] Examples.done_task eq_refl eq_refl) in D;
      [now injection D as <- | intros u []]. }
  exists p1, s'. eexists. eexists.
  split; [exact H|]. split; [now rewrite Ha|]. split; [exact D|].
  split; [exact Y|]. split; [reflexivity|]. subst s'.
  split; [reflexivity|]. split.
  - simpl listener. unfold on_app. cbn [todoApp with_pendingAction
      with_modalShown with_todoApp]. rewrite timeout_eq. reflexivity.
  - cbn [todoApp with_todoApp timers with_timers]. cbv iota.
    now rewrite saved_tasks.
Defined.

(** X22: no task leaves the array without the Yes button or the removal
    timer.  Whatever other events the page sends, and however the last
    listener ends, the ids the array had are still there, at their
    indices, followed by those of the tasks added since; and no removal
    has been scheduled. *)
Theorem nothing_is_removed_unasked (es : list event) (p p' : page) :
  forallb (fun e => negb (removing e)) es = true ->
  final (listen es p) = Some p' ->
  timers (todoApp p') = timers (todoApp p)
  /\ exists extra,
       map id (tasks (todoApp p')) = map id (tasks (todoApp p)) ++ extra.
Proof.
  revert p. induction es as [|e es IH]; intros p Hr H.
  - injection H as <-. split; [reflexivity|].
    exists []. now rewrite List.app_nil_r.
  - simpl in Hr. apply andb_true_iff in Hr. destruct Hr as (He & Hr).
    apply negb_true_iff in He.
    destruct (listen_step _ _ _ _ H) as [(p1 & H1 & H2)|(err & H1)].
    + destruct (listener_in_place e p p1 He) as (T1 & e1 & E1);
        [now rewrite H1|].
      destruct (IH p1 Hr H2) as (T2 & e2 & E2).
      split; [congruence|]. exists (e1 ++ e2).
      now rewrite E2, E1, app_assoc.
    + apply (listener_in_place e p p' He). now rewrite H1.
Qed.

Lemma nothing_is_removed_unasked_witness :
  exists p',
    final (listen [taskList_click (within_item ["task-btn"; "delete-btn"] 1) 1
                     None "10:00";
                   confirmNo_click;
                   clearAll_click;
                   document_keydown "Escape" false false;
                   taskList_change (within_item ["task-checkbox"] 2) "10:01"]
             (opened Examples.two_tasks)) = Some p'
    /\ exists extra,
         map id (tasks (todoApp p'))
         = map id [Examples.done_task; Examples.open_task] ++ extra.
Proof.
  eexists. split; [vm_compute; reflexivity|].
  eapply (nothing_is_removed_unasked
            [taskList_click (within_item ["task-btn"; "delete-btn"] 1) 1
               None "10:00";
             confirmNo_click;
             clearAll_click;
             document_keydown "Escape" false false;
             taskList_change (within_item ["task-checkbox"] 2) "10:01"]
            (opened Examples.two_tasks) _ eq_refl).
  vm_compute. reflexivity.
Defined.

(** X23: a listener that throws has changed nothing.  The only exception
    a listener lets out is a type error, from a task item that is not
    there or from a task whose text is not a string, and the page and the
    instance are then as they were before the event. *)
Theorem a_throwing_listener_changes_nothing
    (e : event) (p p' : page) (err : error) :
  listener e p = Throws err p' -> err = TypeError /\ p' = p.
Proof.
  destruct e;
    try (simpl listener; rewrite handleGlobalKeydown_eq; discriminate);
    try (simpl listener;
         destruct (executeConfirmedAction_eq rendered now p) as (s' & _ & ->);
         discriminate);
    run_listener; try discriminate;
    try (intros [= <- <-]; now split);
    first [ apply (on_app_throws (AddTask _ _ _))
          | apply (on_app_throws (ToggleTask _ _))
          | apply (on_app_throws (EditTask _))
          | apply (on_app_throws (SaveEdit _ _ _))
          | apply (on_app_throws CancelEdit)
          | apply (on_app_throws (SetFilter _))
          | apply (on_app_throws (Timeout _)) ].
Qed.

Lemma a_throwing_listener_changes_nothing_witness :
  exists err p',
    listener (taskList_change (mkTarget ["task-checkbox"] None) "10:00")
      (opened Examples.two_tasks) = Throws err p'
    /\ err = TypeError
    /\ p' = opened Examples.two_tasks.
Proof.
  exists TypeError, (opened Examples.two_tasks). split; [reflexivity|].
  apply (a_throwing_listener_changes_nothing
           (taskList_change (mkTarget ["task-checkbox"] None) "10:00")).
  reflexivity.
Defined.

(** X24: an action is pending only while the dialog is shown.  From a
    new page, whatever events come, once the dialog is hidden nothing is
    pending, and a click on Yes leaves the page and the instance exactly
    as they are. *)
Theorem hidden_dialog_confirms_nothing
    (es : list event) (s : app) (p : page) (rendered : bool) (now : string) :
  final (listen es (opened s)) = Some p ->
  modalShown p = false ->
  pendingAction p = None
  /\ listener (confirmYes_click rendered now) p = Returns tt p.
Proof.
  intros H Hm.
  assert (C : dialog_consistent p).
  { apply (listen_consistent es (opened s) p H). now intros _. }
  pose proof (C Hm) as Hp. split; [exact Hp|].
  simpl listener.
  destruct (executeConfirmedAction_eq rendered now p) as (s' & Hs & ->).
  rewrite Hp in Hs. subst s'. rewrite with_todoApp_same.
  now rewrite hidden_same.
Qed.

Lemma hidden_dialog_confirms_nothing_witness :
  exists p,
    final (listen [clearAll_click; confirmNo_click] (opened Examples.two_tasks))
    = Some p
    /\ listener (confirmYes_click false "10:00") p = Returns tt p
    /\ tasks (todoApp p) = [Examples.done_task; Examples.open_task].
Proof.
  eexists. split; [vm_compute; reflexivity|]. split; [|reflexivity].
  apply (hidden_dialog_confirms_nothing [clearAll_click; confirmNo_click]
           Examples.two_tasks _ false "10:00"); reflexivity.
Defined.

(** X25: the No button, a click on the backdrop and the Escape key
    dismiss a shown dialog: the pending function is dropped without being
    run, the dialog is hidden, and the instance is untouched, an edit in
    progress included; Yes after that does nothing.  Escape cancels an
    edit only when no dialog is shown, and then only an edit whose id is
    not 0. *)
Theorem dismissing_runs_nothing (e : event) (p : page) :
  (dismissing e = true -> modalShown p = true ->
   exists p',
     listener e p = Returns tt p'
     /\ todoApp p' = todoApp p
     /\ modalShown p' = false
     /\ pendingAction p' = None
     /\ forall rendered now,
          listener (confirmYes_click rendered now) p' = Returns tt p')
  /\ (modalShown p = false ->
      forall ctrlKey metaKey,
        listener (document_keydown "Escape" ctrlKey metaKey) p
        = Returns tt
            match editingTaskId (todoApp p) with
            | Some n =>
                if n =? 0 then p
                else with_todoApp
                       (with_inputError ""
                          (with_editingTaskId None (todoApp p))) p
            | None => p
            end).
Proof.
  split.
  - intros He Hm. exists (with_pendingAction None (with_modalShown false p)).
    split.
    + destruct e; try discriminate He.
      * reflexivity.
      * simpl in He. subst. reflexivity.
      * simpl in He. simpl listener.
        rewrite handleGlobalKeydown_eq, He, Hm. reflexivity.
    + repeat split.
  - intros Hm ctrlKey metaKey. simpl listener.
    rewrite handleGlobalKeydown_eq, Hm. reflexivity.
Qed.

Lemma dismissing_runs_nothing_witness :
  exists p1 p',
    listener clearAll_click
      (opened (with_editingTaskId (Some 2) Examples.two_tasks))
    = Returns tt p1
    /\ listener (document_keydown "Escape" false false) p1 = Returns tt p'
    /\ todoApp p' = with_editingTaskId (Some 2) Examples.two_tasks
    /\ pendingAction p' = None.
Proof.
  pose (p1 := with_modalShown true
                (with_pendingAction (Some clearing_all)
                   (with_modalText "Clear All Tasks"
                      "Are you sure you want to clear all tasks? This action cannot be undone."
                      (opened (with_editingTaskId (Some 2) Examples.two_tasks))))).
  destruct (dismissing_runs_nothing (document_keydown "Escape" false false) p1)
    as (D & _).
  destruct (D eq_refl eq_refl) as (p' & H & Ha & _ & Hp & _).
  exists p1, p'. split; [reflexivity|]. split; [exact H|].
  split; [exact Ha | exact Hp].
Defined.

(** X26: outside a task item the three handlers of the task list differ.
    A click returns at once, whatever was clicked.  A key pressed in an
    edit box and a change of a checkbox read the item without looking
    whether there is one, and throw a type error; on any other target
    they return.  In every case the page and the instance are as they
    were. *)
Theorem handlers_outside_an_item
    (classes : list string) (key : string) (detail : Z)
    (editInput : option string) (now : string) (p : page) :
  let t := mkTarget classes None in
  handleTaskClick t detail editInput now p = Returns tt p
  /\ handleTaskKeypress t key editInput now p
     = (if contains t "task-edit-input" then Throws TypeError p
        else Returns tt p)
  /\ handleTaskChange t now p
     = (if contains t "task-checkbox" then Throws TypeError p
        else Returns tt p).
Proof.
  intros t. split; [reflexivity|]. split.
  - unfold handleTaskKeypress. destruct (contains t "task-edit-input");
      reflexivity.
  - unfold handleTaskChange. destruct (contains t "task-checkbox");
      reflexivity.
Qed.

(** X27: a change of the checkbox in the item rendered for a task
    toggles that task: the first task with the id gets the toggled
    [completed] and [completedAt], the others stay, and the dialog is not
    involved. *)
Theorem checkbox_toggles_the_rendered_task
    (classes : list string) (n : Z) (now : string) (p : page)
    (before after : list object) (t : object) :
  safe_integer n ->
  existsb (String.eqb "task-checkbox") classes = true ->
  tasks (todoApp p) = before ++ t :: after ->
  has_id n t = true ->
  (forall u, In u before -> has_id n u = false) ->
  exists p',
    listener (taskList_change (within_item classes n) now) p = Returns tt p'
    /\ tasks (todoApp p') = before ++ toggle now t :: after
    /\ modalShown p' = modalShown p
    /\ pendingAction p' = pendingAction p.
Proof.
  intros Hn Hc E Hid Hb.
  assert (F : find (has_id n) (tasks (todoApp p)) = Some t).
  { rewrite E. now apply find_first. }
  eexists. split.
  - simpl listener. unfold handleTaskChange.
    rewrite contains_within, Hc. unfold closest_data, within_item.
    cbn [closest_task_item]. unfold bind, ret. cbv beta iota.
    rewrite (parseInt_number_to_string n Hn). unfold with_number, on_app.
    rewrite (toggleTask_found n now (todoApp p) t F). reflexivity.
  - simpl. rewrite saved_tasks. simpl tasks.
    rewrite E, update_first_first by assumption. now repeat split.
Qed.

Lemma checkbox_toggles_the_rendered_task_witness :
  exists p',
    listener (taskList_change (within_item ["task-checkbox"] 2) "10:00")
      (opened Examples.two_tasks) = Returns tt p'
    /\ tasks (todoApp p')
       = [Examples.done_task; toggle "10:00" Examples.open_task].
Proof.
  destruct (checkbox_toggles_the_rendered_task ["task-checkbox"] 2 "10:00"
              (opened Examples.two_tasks) [Examples.done_task] []
              Examples.open_task)
    as (p' & H & Ht & _).
  - vm_compute. discriminate.
  - reflexivity.
  - reflexivity.
  - reflexivity.
  - intros u [<-|[]]. reflexivity.
  - exists p'. split; [exact H | exact Ht].
Defined.
